(** * PDF Master Engine: fenced-block extraction, streaming retry, plan execution

    A shallow embedding of the chat application's core logic:

    - [ChatInterface]: [extractHtml] and the clean-up of the display text
      done by [MessageBubble] (components/ChatInterface.tsx);
    - [GeminiService]: the per-file inline/upload decision and the retry loop
      of [streamMessage] (services/geminiService.ts);
    - [App]: the handlers of the [App] component ([handleSendMessage],
      [executePlan], [stopGeneration], [cancelPlan], [handleKeyDown]) as an
      event-driven transition function over the React state (App.tsx);
    - [MessageBubble], [FileUtils], [FileUpload], [AppFiles], [QuickActions],
      [DocumentPreview] and [AppEvents]: the truncation of the rendered text
      and the status bar, the reading and the filtering of uploaded files,
      the handlers of the file list, the custom MCQ prompt, the debounced,
      editable preview (DocumentPreview.tsx), and the events of the chat and
      of the file list taken together.

    JavaScript strings are sequences of UTF-16 code units; they are modelled
    as [list N]. *)

From Stdlib Require Import ZArith NArith QArith Bool Ascii String Lia.
From Stdlib Require Import Numbers.DecimalString QArith.Qround.
From stdpp Require Import base list gmap.

Open Scope nat_scope.

(** ** JavaScript strings *)

Module JsString.

Abbreviation jsstring := (list N) (only parsing).

(** An ASCII literal as a JavaScript string. *)
Definition js (s : string) : jsstring :=
  map N_of_ascii (list_ascii_of_string s).

(** The regular expression class [\s] (and the characters removed by
    [String.prototype.trim]): WhiteSpace and LineTerminator. *)
Definition isSpace (c : N) : bool :=
  ((9 <=? c) && (c <=? 13) || (c =? 32) || (c =? 160) || (c =? 5760)
   || (8192 <=? c) && (c <=? 8202) || (c =? 8232) || (c =? 8233)
   || (c =? 8239) || (c =? 8287) || (c =? 12288) || (c =? 65279))%N.

(** [s.startsWith(pat)]. *)
Fixpoint startsWith (pat s : jsstring) : bool :=
  match pat, s with
  | [], _ => true
  | _ :: _, [] => false
  | p :: pat', c :: s' => (p =? c)%N && startsWith pat' s'
  end.

(** Index of the leftmost occurrence of [pat] in [s]. *)
Fixpoint find (pat s : jsstring) : option nat :=
  if startsWith pat s then Some 0
  else match s with
       | [] => None
       | _ :: s' => S <$> find pat s'
       end.

(** [s.indexOf(pat, from)]; [None] stands for -1. *)
Definition indexOf (pat s : jsstring) (from : nat) : option nat :=
  (fun i => from + i) <$> find pat (drop from s).

(** [s.includes(pat, from)]. *)
Definition includes (pat s : jsstring) (from : nat) : bool :=
  match indexOf pat s from with Some _ => true | None => false end.

(** [s.substring(a, b)] for [a <= b]. *)
Definition substring (s : jsstring) (a b : nat) : jsstring :=
  take (b - a) (drop a s).

(** Length of the longest run of white space at the head of [s]: what a
    greedy [\s*] consumes. *)
Fixpoint spaceRun (s : jsstring) : nat :=
  match s with
  | c :: s' => if isSpace c then S (spaceRun s') else 0
  | [] => 0
  end.

(** Truthiness of a string: non-empty. *)
Definition truthy (s : jsstring) : bool :=
  match s with [] => false | _ => true end.

(** [!s.trim()]: the string is empty once white space is trimmed. *)
Definition blank (s : jsstring) : bool := forallb isSpace s.

(** Number of (possibly overlapping) occurrences of [pat] in [s]. *)
Fixpoint occurrences (pat s : jsstring) : nat :=
  (if startsWith pat s then 1 else 0) +
  match s with
  | [] => 0
  | _ :: s' => occurrences pat s'
  end.

(** Decimal rendering of a number, as template literals do for integers. *)
Definition ofNat (n : nat) : jsstring :=
  js (NilEmpty.string_of_uint (Nat.to_uint n)).

End JsString.
Import JsString.

#[global] Arguments js : simpl never.

(** ** components/ChatInterface.tsx *)

Module ChatInterface.

Definition startMarker : jsstring := js "```html".
Definition endMarker : jsstring := js "```".

(** The result of one extraction: the text handed to the preview, and
    whether it was cut at a closing fence ([endIndex !== -1]) or runs to
    the end of the text (a block still streaming). *)
Record ExtractionResult := mkResult { content : jsstring; closed : bool }.

(** [text.match(/```html\s*/)]: index of the leftmost opening marker and
    the length of the match (marker plus the white space after it). *)
Definition matchOpen (text : jsstring) : option (nat * nat) :=
  match find startMarker text with
  | None => None
  | Some index =>
      Some (index,
            length startMarker + spaceRun (drop (index + length startMarker) text))
  end.

Definition extract (text : jsstring) : option ExtractionResult :=
  match matchOpen text with
  | None => None
  | Some (index, len) =>
      let contentStartIndex := index + len in
      match indexOf endMarker text contentStartIndex with
      | Some endIndex =>
          Some (mkResult (substring text contentStartIndex endIndex) true)
      | None =>
          Some (mkResult (drop contentStartIndex text) false)
      end
  end.

(** [extractHtml] returns only the string (or null). *)
Definition extractHtml (text : jsstring) : option jsstring :=
  content <$> extract text.

Definition jsonMarker : jsstring := js "```json".

#[global] Arguments startMarker : simpl never.
#[global] Arguments endMarker : simpl never.
#[global] Arguments jsonMarker : simpl never.

(** [s.replace(/<openTag>[\s\S]*?```/, '')] with a literal opening tag: the
    leftmost opening tag that is followed by a fence, up to and including
    the first fence after it, is cut out; without such a match the string
    is returned as it is. (A later opening tag has a fence after it only if
    the leftmost one has, so the leftmost one decides.) *)
Definition removeFirstBlock (openTag s : jsstring) : jsstring :=
  match find openTag s with
  | None => s
  | Some i =>
      match indexOf endMarker s (i + length openTag) with
      | None => s
      | Some e => take i s ++ drop (e + length endMarker) s
      end
  end.

(** The [if (htmlContent) { ... }] part of [MessageBubble]: the closed block
    is removed, then a block left open is cut off to the end. The string
    [htmlContent] is truthy when it is neither null nor empty. *)
Definition stripHtml (htmlContent : option jsstring) (displayFullText : jsstring)
  : jsstring :=
  match htmlContent with
  | Some (_ :: _) =>
      let displayFullText := removeFirstBlock startMarker displayFullText in
      let openTag := startMarker in
      match indexOf openTag displayFullText 0 with
      | Some openIndex =>
          if negb (includes endMarker displayFullText (openIndex + length openTag))
          then substring displayFullText 0 openIndex
          else displayFullText
      | None => displayFullText
      end
  | _ => displayFullText
  end.

Inductive Role := user | model.

(** [displayFullText] as computed by [MessageBubble] for a message. *)
Definition displayFullText (role : Role) (text : jsstring) : jsstring :=
  let htmlContent :=
    match role with model => extractHtml text | user => None end in
  removeFirstBlock jsonMarker (stripHtml htmlContent text).

(** The two strip stages of [MessageBubble] by tag, for a model message. *)
Inductive Tag := html | json.

Definition stripBlock (tag : Tag) (text : jsstring) : jsstring :=
  match tag with
  | html => stripHtml (extractHtml text) text
  | json => removeFirstBlock jsonMarker text
  end.

Definition openMarker (tag : Tag) : jsstring :=
  match tag with html => startMarker | json => jsonMarker end.

(** Successive strings extend one another. *)
Fixpoint growing (l : list jsstring) : Prop :=
  match l with
  | a :: (b :: _) as l' => a `prefix_of` b /\ growing l'
  | _ => True
  end.

(** Results of re-running the extraction on each snapshot of a text that
    grows by the given deltas. *)
Fixpoint feed (text : jsstring) (deltas : list jsstring)
  : list (option ExtractionResult) :=
  extract text ::
  match deltas with
  | [] => []
  | d :: ds => feed (text ++ d) ds
  end.

(** The snapshots of a text that grows by the given deltas. *)
Fixpoint snapshots (text : jsstring) (deltas : list jsstring) : list jsstring :=
  text ::
  match deltas with
  | [] => []
  | d :: ds => snapshots (text ++ d) ds
  end.

(** [pat] occurs in [s] at index [i]. *)
Definition occursAt (pat s : jsstring) (i : nat) : Prop :=
  exists pre post, s = pre ++ pat ++ post /\ length pre = i.

(** What the extraction owes on a text, said on the text itself and not by
    the search functions. There is no result when the text holds no opening
    marker. Otherwise the text is split at its leftmost opening marker, and
    after the marker into the longest run of white space and the rest; the
    result is closed exactly when the rest holds a fence, its content being
    then the rest up to the leftmost fence, and else the whole rest. *)
Definition Extracted (text : jsstring) (result : option ExtractionResult) : Prop :=
  match result with
  | None => forall i, ~ occursAt startMarker text i
  | Some r =>
      exists pre space rest,
        text = pre ++ startMarker ++ space ++ rest /\
        (forall i, occursAt startMarker text i -> length pre <= i) /\
        Forall (fun c => isSpace c = true) space /\
        match rest with c :: _ => isSpace c = false | [] => True end /\
        if closed r
        then exists post,
               rest = content r ++ endMarker ++ post /\
               forall i, occursAt endMarker rest i -> length (content r) <= i
        else rest = content r /\ forall i, ~ occursAt endMarker rest i
  end.

End ChatInterface.

(** ** services/geminiService.ts *)

Module GeminiService.

Record FileData := mkFile { name : jsstring; data : jsstring; mimeType : jsstring }.

(** The parts of a request. *)
Inductive Part :=
| inlineData (mimeType data : jsstring)
| fileData (mimeType fileUri : jsstring)
| textPart (text : jsstring).

(** A thrown value as far as the catch block inspects it. *)
Record JsError := mkError {
  message : option jsstring;
  status : option jsstring;
  statusText : option jsstring }.

(** [new Error(msg)]. *)
Definition newError (msg : jsstring) : JsError := mkError (Some msg) None None.

(** Outcome of [uploadToGemini]: the metadata, or a thrown value, whose
    message is [None] when it is not an [Error] instance. *)
Inductive UploadResult :=
| Uploaded (mimeType uri : jsstring)
| UploadFailed (errorMessage : option jsstring).

(** Outcome of [chatSession.sendMessageStream] and of iterating its result:
    the [chunk.text] values received (the empty string when a chunk has no
    text), and the error that ended the stream, if any. *)
Record StreamResult := mkStream {
  chunks : list jsstring;
  failure : option JsError }.

(** The remote collaborators during one call of [streamMessage]; both are
    indexed by the value of [attempt] at the time of the call.
    [sessionFailure] is the message of the error thrown while the chat
    session is obtained, if that fails. *)
Record Service := mkService {
  sessionFailure : option jsstring;
  upload : nat -> FileData -> UploadResult;
  sendMessageStream : nat -> list Part -> StreamResult }.

(** What one call does, in order. *)
Inductive Effect :=
| EAttempt (attempt : nat)
| EUpload (fileName : jsstring)
| ESend (parts : list Part)
| EYield (chunkText : jsstring)
| EDelay (ms : nat).

Inductive Outcome :=
| Returned
| Thrown (errorMessage : jsstring).

(** A run of the generator: its effects, and how it ends once they have all
    happened. *)
Record Gen := mkGen { effects : list Effect; outcome : Outcome }.

Definition maxAttempts : nat := 3.

(** [(file.data.length * 0.75) / (1024 * 1024)]. The double arithmetic is
    exact for every possible string length (the product by 0.75 stays below
    2^53 and the divisor is a power of two), so the value is this
    rational. *)
Definition sizeMB (file : FileData) : Q :=
  (inject_Z (Z.of_nat (length (data file))) * (3 # 4)) / inject_Z (1024 * 1024).

(** [sizeMB > 9] and [sizeMB < 18]. *)
Definition aboveThreshold (file : FileData) : bool := negb (Qle_bool (sizeMB file) 9).
Definition belowCeiling (file : FileData) : bool := negb (Qle_bool 18 (sizeMB file)).

(** [x.toFixed(1)] for [x >= 0]: the nearest multiple of 0.1, the larger
    one on a tie. *)
Definition toFixed1 (x : Q) : jsstring :=
  let n := Z.to_nat (Qfloor (x * 10 + (1 # 2))) in
  ofNat (n / 10) ++ js "." ++ ofNat (n mod 10).

Definition tooLargeMessage (file : FileData) (uploadError : option jsstring) : jsstring :=
  js "File upload failed and file is too large for inline fallback ("
  ++ toFixed1 (sizeMB file) ++ js "MB). API Error: "
  ++ match uploadError with Some m => m | None => js "Unknown Error" end.

(** The body of [for (const file of files)] for one file: the part pushed,
    or the error thrown. *)
Definition resolveFile (uploadToGemini : FileData -> UploadResult) (file : FileData)
  : Part + JsError :=
  if aboveThreshold file then
    match uploadToGemini file with
    | Uploaded mime uri => inl (fileData mime uri)
    | UploadFailed uploadError =>
        if belowCeiling file
        then inl (inlineData (mimeType file) (data file))
        else inr (newError (tooLargeMessage file uploadError))
    end
  else inl (inlineData (mimeType file) (data file)).

(** The loop over the files, pushing on [parts]; a throw ends it. *)
Fixpoint buildParts (uploadToGemini : FileData -> UploadResult)
    (files : list FileData) (parts : list Part)
  : list Effect * (list Part + JsError) :=
  match files with
  | [] => ([], inl parts)
  | file :: rest =>
      let up := if aboveThreshold file then [EUpload (name file)] else [] in
      match resolveFile uploadToGemini file with
      | inl part =>
          let '(tr, r) := buildParts uploadToGemini rest (parts ++ [part]) in
          (up ++ tr, r)
      | inr e => (up, inr e)
      end
  end.

(** The [try] block of one attempt: its effects and the error caught, if
    any. Chunks without text are not yielded. *)
Definition tryOnce (svc : Service) (msg : jsstring) (files : list FileData)
    (attempt : nat) : list Effect * option JsError :=
  match buildParts (upload svc attempt) files [] with
  | (tr, inr e) => (EAttempt attempt :: tr, Some e)
  | (tr, inl parts) =>
      let parts := parts ++ [textPart msg] in
      let result := sendMessageStream svc attempt parts in
      (EAttempt attempt :: tr ++ ESend parts
         :: (EYield <$> filter (fun c => truthy c = true) (chunks result)),
       failure result)
  end.

(** [str?.includes(sub)] on a possibly missing string. *)
Definition optIncludes (sub : jsstring) (str : option jsstring) : bool :=
  match str with Some s => includes sub s 0 | None => false end.

Definition isNetworkError (error : JsError) : bool :=
  optIncludes (js "http status code: 0") (message error)
  || match status error with
     | Some s => truthy s && bool_decide (s = js "UNKNOWN")
     | None => false
     end.

Definition isServerError (error : JsError) : bool :=
  optIncludes (js "503") (message error)
  || optIncludes (js "500") (message error)
  || optIncludes (js "429") (message error).

Definition retryable (error : JsError) : bool :=
  isNetworkError error || isServerError error.

Definition friendlyError (error : JsError) : jsstring :=
  match message error with
  | Some ((_ :: _) as m) =>
      if includes (js "token count exceeds") m 0 then
        js "Token Limit Exceeded: The content is too large. Please start a new chat."
      else if includes (js "Document size exceeds") m 0 then
        js "File Too Large: The document exceeds the API's inline limit. (Upload failed)"
      else if includes (js "SAFETY") m 0 then
        js "Safety Filter Triggered: The content was flagged by safety settings."
      else if includes (js "http status code: 0") m 0 then
        js "Network Connection Error: Could not reach Gemini API. Please check your internet connection."
      else if includes (js "413") m 0 then
        js "Payload Too Large: The file is too big for the direct API. Please try compressing it."
      else if includes (js "429") m 0 then
        js "Free Tier Limit Reached: You are sending too many requests too quickly. Please wait a moment."
      else js "API Error: " ++ m
  | _ =>
      match statusText error with
      | Some ((_ :: _) as t) => js "API Error: " ++ t
      | _ => js "An unexpected error occurred."
      end
  end.

(** [while (attempt < maxAttempts)], with [remaining = maxAttempts - attempt]. *)
Fixpoint attemptLoop (svc : Service) (msg : jsstring) (files : list FileData)
    (remaining attempt : nat) : Gen :=
  match remaining with
  | 0 => mkGen [] Returned
  | S remaining =>
      match tryOnce svc msg files attempt with
      | (tr, None) => mkGen tr Returned
      | (tr, Some error) =>
          let attempt := attempt + 1 in
          if retryable error && (attempt <? maxAttempts) then
            let rest := attemptLoop svc msg files remaining attempt in
            mkGen (tr ++ EDelay (1000 * attempt) :: effects rest) (outcome rest)
          else mkGen tr (Thrown (friendlyError error))
      end
  end.

Definition streamMessage (svc : Service) (msg : jsstring) (files : list FileData)
  : Gen :=
  match sessionFailure svc with
  | Some m => mkGen [] (Thrown m)
  | None => attemptLoop svc msg files maxAttempts 0
  end.

(** Observations on a run. *)
Definition yields (tr : list Effect) : list jsstring :=
  omap (fun e => match e with EYield c => Some c | _ => None end) tr.
Definition attempts (tr : list Effect) : list nat :=
  omap (fun e => match e with EAttempt k => Some k | _ => None end) tr.
Definition delays (tr : list Effect) : list nat :=
  omap (fun e => match e with EDelay ms => Some ms | _ => None end) tr.
Definition sends (tr : list Effect) : list (list Part) :=
  omap (fun e => match e with ESend ps => Some ps | _ => None end) tr.

(** The error caught in a given attempt. *)
Definition attemptError (svc : Service) (msg : jsstring) (files : list FileData)
    (attempt : nat) : option JsError :=
  snd (tryOnce svc msg files attempt).

End GeminiService.

(** ** App.tsx *)

Module App.
Import ChatInterface GeminiService.

Record ExecutionPlan := mkPlan { title : jsstring; steps : list jsstring }.

(** A transcript message; an absent [isError] or [isStreaming] is [false]. *)
Record Message := mkMessage {
  id : nat;
  role : Role;
  text : jsstring;
  isError : bool;
  isStreaming : bool;
  planData : option ExecutionPlan }.

Inductive AppState := idle | planning | waiting_approval | executing | completed.

#[global] Instance AppState_eq_dec : EqDecision AppState.
Proof. solve_decision. Defined.

(** A call of an async handler suspended in its [for await] loop, with its
    local variables and the rest of the run of the generator it consumes. *)
Inductive Task :=
| SendTask (aiMsgId : nat) (filesToSend : list FileData)
    (fullResponse : jsstring) (lastUpdate : Z) (pending : Gen)
| PlanTask (plan : ExecutionPlan) (services : nat -> Service) (i : nat)
    (stepMsgId : nat) (stepResponse : jsstring) (lastUpdate : Z) (pending : Gen).

(** The state of the component. [abortControllerRef] holds the [aborted]
    flag of the controller the ref points to, [None] for null; [nextId]
    stands for [uuidv4]; [tasks] are the suspended handler calls and [log]
    the effects their generators have performed so far. *)
Record State := mkState {
  files : list FileData;
  messages : list Message;
  input : jsstring;
  appState : AppState;
  sentFileNames : gset jsstring;
  currentPlan : option ExecutionPlan;
  executionStep : nat;
  abortControllerRef : option bool;
  nextId : nat;
  tasks : gmap nat Task;
  nextTask : nat;
  log : list Effect }.

Definition setMessages (f : list Message -> list Message) (st : State) : State :=
  mkState (files st) (f (messages st)) (input st) (appState st) (sentFileNames st)
    (currentPlan st) (executionStep st) (abortControllerRef st) (nextId st)
    (tasks st) (nextTask st) (log st).
Definition setInput (v : jsstring) (st : State) : State :=
  mkState (files st) (messages st) v (appState st) (sentFileNames st)
    (currentPlan st) (executionStep st) (abortControllerRef st) (nextId st)
    (tasks st) (nextTask st) (log st).
Definition setAppState (v : AppState) (st : State) : State :=
  mkState (files st) (messages st) (input st) v (sentFileNames st)
    (currentPlan st) (executionStep st) (abortControllerRef st) (nextId st)
    (tasks st) (nextTask st) (log st).
Definition setSentFileNames (f : gset jsstring -> gset jsstring) (st : State) : State :=
  mkState (files st) (messages st) (input st) (appState st) (f (sentFileNames st))
    (currentPlan st) (executionStep st) (abortControllerRef st) (nextId st)
    (tasks st) (nextTask st) (log st).
Definition setCurrentPlan (v : option ExecutionPlan) (st : State) : State :=
  mkState (files st) (messages st) (input st) (appState st) (sentFileNames st)
    v (executionStep st) (abortControllerRef st) (nextId st)
    (tasks st) (nextTask st) (log st).
Definition setExecutionStep (v : nat) (st : State) : State :=
  mkState (files st) (messages st) (input st) (appState st) (sentFileNames st)
    (currentPlan st) v (abortControllerRef st) (nextId st)
    (tasks st) (nextTask st) (log st).
Definition setAbortController (v : option bool) (st : State) : State :=
  mkState (files st) (messages st) (input st) (appState st) (sentFileNames st)
    (currentPlan st) (executionStep st) v (nextId st)
    (tasks st) (nextTask st) (log st).
Definition setNextId (v : nat) (st : State) : State :=
  mkState (files st) (messages st) (input st) (appState st) (sentFileNames st)
    (currentPlan st) (executionStep st) (abortControllerRef st) v
    (tasks st) (nextTask st) (log st).
Definition setTasks (f : gmap nat Task -> gmap nat Task) (st : State) : State :=
  mkState (files st) (messages st) (input st) (appState st) (sentFileNames st)
    (currentPlan st) (executionStep st) (abortControllerRef st) (nextId st)
    (f (tasks st)) (nextTask st) (log st).
Definition setNextTask (v : nat) (st : State) : State :=
  mkState (files st) (messages st) (input st) (appState st) (sentFileNames st)
    (currentPlan st) (executionStep st) (abortControllerRef st) (nextId st)
    (tasks st) v (log st).
Definition addLog (tr : list Effect) (st : State) : State :=
  mkState (files st) (messages st) (input st) (appState st) (sentFileNames st)
    (currentPlan st) (executionStep st) (abortControllerRef st) (nextId st)
    (tasks st) (nextTask st) (log st ++ tr).

(** [abortControllerRef.current?.signal.aborted], as a condition. *)
Definition aborted (st : State) : bool :=
  match abortControllerRef st with Some flag => flag | None => false end.

(** [prev.map(m => m.id === target ? f(m) : m)]. *)
Definition updateMessage (target : nat) (f : Message -> Message)
    (prev : list Message) : list Message :=
  (fun m => if id m =? target then f m else m) <$> prev.

Definition withText (v : jsstring) (m : Message) : Message :=
  mkMessage (id m) (role m) v (isError m) (isStreaming m) (planData m).
Definition withStreaming (v : bool) (m : Message) : Message :=
  mkMessage (id m) (role m) (text m) (isError m) v (planData m).
Definition withError (v : bool) (m : Message) : Message :=
  mkMessage (id m) (role m) (text m) v (isStreaming m) (planData m).
Definition withPlan (v : option ExecutionPlan) (m : Message) : Message :=
  mkMessage (id m) (role m) (text m) (isError m) (isStreaming m) v.

(** The effects of a generator up to and including its next [yield], with
    the chunk yielded and what is left of the run; no chunk when the
    generator runs to its end. *)
Fixpoint nextYield (tr : list Effect)
  : list Effect * option (jsstring * list Effect) :=
  match tr with
  | [] => ([], None)
  | EYield c :: tr' => ([EYield c], Some (c, tr'))
  | e :: tr' => let '(done, r) := nextYield tr' in (e :: done, r)
  end.

Definition stoppedByUser : jsstring :=
  [10; 10]%N ++ js "**[Stopped by User]**".

Definition stopGeneration (st : State) : State :=
  let st :=
    match abortControllerRef st with
    | Some _ => (* abort(), then the ref is set to null *)
        setAbortController None st
    | None => st
    end in
  let st := setAppState idle st in
  setMessages (fun prev =>
    match last prev with
    | Some lastMsg =>
        match role lastMsg with
        | model =>
            if isStreaming lastMsg then
              removelast prev
                ++ [withText (text lastMsg ++ stoppedByUser) (withStreaming false lastMsg)]
            else prev
        | user => prev
        end
    | None => prev
    end) st.

Definition cancelPlan (st : State) : State :=
  let st := setAppState idle st in
  let st := setCurrentPlan None st in
  let st := setMessages (fun prev =>
    prev ++ [mkMessage (nextId st) model (js "Plan cancelled.") false false None]) st in
  setNextId (S (nextId st)) st.

(** [fullResponse.match(/```json\s*([\s\S]*?)\s*```/)], the captured group:
    the text between the white space after the leftmost opening marker and
    the first fence after it, without the white space before that fence. *)
Definition jsonMatch (s : jsstring) : option jsstring :=
  match find jsonMarker s with
  | None => None
  | Some i =>
      let start := i + length jsonMarker
                   + spaceRun (drop (i + length jsonMarker) s) in
      match indexOf endMarker s start with
      | None => None
      | Some e =>
          let body := substring s start e in
          Some (take (length body - spaceRun (reverse body)) body)
      end
  end.

Definition stepHeader (i : nat) (step : jsstring) : jsstring :=
  js "**Step " ++ ofNat (i + 1) ++ js ":** " ++ step ++ [10; 10]%N.

Definition stepPrompt (plan : ExecutionPlan) (i : nat) (step : jsstring) : jsstring :=
  js "[SYSTEM: EXECUTION MODE] Current Plan: " ++ [34]%N ++ title plan
  ++ [34]%N ++ js ". " ++ [10]%N ++ js "TASK: Execute Step " ++ ofNat (i + 1)
  ++ js ": " ++ [34]%N ++ step ++ [34]%N ++ js ". " ++ [10]%N
  ++ js "Output only the content for this step. If it involves visual data, use HTML.".

(** The text put before the error of a failed step (the four characters
    before the first space are those of the source file). *)
Definition executionStopped : jsstring :=
  [10; 10; 240; 376; 8250; 8216]%N ++ js " **EXECUTION STOPPED:** ".

Section Handlers.
(** [JSON.parse] followed by the cast to [ExecutionPlan]: [None] when it
    throws; otherwise the value it returns, as [currentPlan] and [planData]
    hold it: [None] for [null], and [Some plan] for an object whose title
    and steps the handlers and the plan card read as those of [plan]. (The
    cast is not checked. A value of another kind, such as an object without
    steps, an array or a number, makes the render that follows the updates
    of the state throw at [currentPlan?.steps.length] or [plan.steps.map];
    a response with such a block is outside the states described here.) *)
Variable JSON_parse : jsstring -> option (option ExecutionPlan).

Definition handleSendMessage (text : jsstring) (now : Z) (svc : Service)
    (st : State) : State :=
  if blank text || bool_decide (appState st = executing) then st
  else match files st with
  | [] => st (* alert *)
  | _ :: _ =>
      let st := setAbortController (Some false) st in
      let isSystemPrompt := includes (js "[STRICT VISUAL INSTRUCTION") text 0 in
      let displayText :=
        if isSystemPrompt
        then js "**Generating Custom MCQs...** (Applying visual settings)"
        else text in
      let userMessage := mkMessage (nextId st) user displayText false false None in
      let st := setNextId (S (nextId st)) st in
      let st := setMessages (fun prev => prev ++ [userMessage]) st in
      let st := setInput [] st in
      let st := setAppState planning st in
      let aiMsgId := nextId st in
      let st := setNextId (S (nextId st)) st in
      let st := setMessages (fun prev =>
        prev ++ [mkMessage aiMsgId model [] false true None]) st in
      let filesToSend := filter (fun f => name f ∉ sentFileNames st) (files st) in
      let task := SendTask aiMsgId filesToSend [] now
                    (streamMessage svc text filesToSend) in
      setNextTask (S (nextTask st)) (setTasks <[nextTask st := task]> st)
  end.

(** [handleSendMessage] after its loop has ended without a throw. *)
Definition sendDone (tid aiMsgId : nat) (filesToSend : list FileData)
    (fullResponse : jsstring) (st : State) : State :=
  let st := setTasks (delete tid) st in
  let st := setMessages (updateMessage aiMsgId (withText fullResponse)) st in
  if aborted st then setAbortController None st
  else
    let st := setSentFileNames
                (fun prev => prev ∪ list_to_set (name <$> filesToSend)) st in
    let plain :=
      let st := setMessages (updateMessage aiMsgId (withStreaming false)) st in
      let st := setAppState idle st in
      setAbortController None st in
    match jsonMatch fullResponse with
    | Some captured =>
        match JSON_parse captured with
        | Some planData =>
            let st := setCurrentPlan planData st in
            let st := setAppState waiting_approval st in
            let st := setMessages (updateMessage aiMsgId (fun m =>
              withPlan planData
                (withText (removeFirstBlock jsonMarker fullResponse)
                   (withStreaming false m)))) st in
            setAbortController None st
        | None => plain
        end
    | None => plain
    end.

(** The generator of a suspended [handleSendMessage] call moves on. *)
Definition pullSend (tid aiMsgId : nat) (filesToSend : list FileData)
    (fullResponse : jsstring) (lastUpdate : Z) (pending : Gen) (now : Z)
    (st : State) : State :=
  match nextYield (effects pending) with
  | (done, Some (chunk, rest)) =>
      let st := addLog done st in
      if aborted st then sendDone tid aiMsgId filesToSend fullResponse st
      else
        let fullResponse := fullResponse ++ chunk in
        if (200 <? now - lastUpdate)%Z then
          let st := setMessages (updateMessage aiMsgId (withText fullResponse)) st in
          setTasks <[tid := SendTask aiMsgId filesToSend fullResponse now
                              (mkGen rest (outcome pending))]> st
        else
          setTasks <[tid := SendTask aiMsgId filesToSend fullResponse lastUpdate
                              (mkGen rest (outcome pending))]> st
  | (done, None) =>
      let st := addLog done st in
      match outcome pending with
      | Returned => sendDone tid aiMsgId filesToSend fullResponse st
      | Thrown errorMessage =>
          let st := setTasks (delete tid) st in
          let st := setMessages (updateMessage aiMsgId (fun m =>
            withText (if truthy errorMessage then errorMessage
                      else js "Error processing request.")
              (withError true (withStreaming false m)))) st in
          let st := setAppState idle st in
          setAbortController None st
      end
  end.

(** The statements of [executePlan] after its [for] loop. *)
Definition planDone (tid : nat) (st : State) : State :=
  let st := setTasks (delete tid) st in
  let st := setAppState completed st in
  let st := setExecutionStep 0 st in
  let st := setCurrentPlan None st in
  setAbortController None st.

(** The [for] loop of [executePlan] from the test [i < steps.length] up
    to the call of [streamMessage] for step [i]. *)
Definition startStep (tid : nat) (plan : ExecutionPlan)
    (services : nat -> Service) (i : nat) (now : Z) (st : State) : State :=
  match steps plan !! i with
  | None => planDone tid st
  | Some step =>
      if aborted st then planDone tid st
      else
        let st := setExecutionStep (i + 1) st in
        let stepMsgId := nextId st in
        let st := setNextId (S (nextId st)) st in
        let st := setMessages (fun prev =>
          prev ++ [mkMessage stepMsgId model (stepHeader i step) false true None]) st in
        setTasks <[tid := PlanTask plan services i stepMsgId [] now
                            (streamMessage (services i) (stepPrompt plan i step) [])]> st
  end.

Definition executePlan (now : Z) (services : nat -> Service) (st : State) : State :=
  match currentPlan st with
  | None => st
  | Some plan =>
      let st := setAppState executing st in
      let st := setExecutionStep 1 st in
      let st := setAbortController (Some false) st in
      let tid := nextTask st in
      let st := setNextTask (S tid) st in
      startStep tid plan services 0 now st
  end.

(** [executePlan] after the inner loop of step [i] has ended without a
    throw. *)
Definition stepDone (tid : nat) (plan : ExecutionPlan)
    (services : nat -> Service) (i stepMsgId : nat) (step stepResponse : jsstring)
    (now : Z) (st : State) : State :=
  let st := setMessages
              (updateMessage stepMsgId (withText (stepHeader i step ++ stepResponse))) st in
  if aborted st then
    let st := setMessages (updateMessage stepMsgId (fun m =>
      withText (text m ++ js " [Stopped]") (withStreaming false m))) st in
    planDone tid st
  else
    let st := setMessages (updateMessage stepMsgId (withStreaming false)) st in
    startStep tid plan services (i + 1) now st.

(** The generator of a suspended [executePlan] call moves on. *)
Definition pullPlan (tid : nat) (plan : ExecutionPlan)
    (services : nat -> Service) (i stepMsgId : nat) (stepResponse : jsstring)
    (lastUpdate : Z) (pending : Gen) (now : Z) (st : State) : State :=
  let step := default [] (steps plan !! i) in
  match nextYield (effects pending) with
  | (done, Some (chunk, rest)) =>
      let st := addLog done st in
      if aborted st then stepDone tid plan services i stepMsgId step stepResponse now st
      else
        let stepResponse := stepResponse ++ chunk in
        if (200 <? now - lastUpdate)%Z then
          let st := setMessages
            (updateMessage stepMsgId (withText (stepHeader i step ++ stepResponse))) st in
          setTasks <[tid := PlanTask plan services i stepMsgId stepResponse now
                              (mkGen rest (outcome pending))]> st
        else
          setTasks <[tid := PlanTask plan services i stepMsgId stepResponse lastUpdate
                              (mkGen rest (outcome pending))]> st
  | (done, None) =>
      let st := addLog done st in
      match outcome pending with
      | Returned => stepDone tid plan services i stepMsgId step stepResponse now st
      | Thrown errorMessage =>
          let st := setMessages (updateMessage stepMsgId (fun m =>
            withText (text m ++ executionStopped
                      ++ (if truthy errorMessage then errorMessage
                          else js "Unknown error occurred."))
              (withError true (withStreaming false m)))) st in
          let st := setAppState idle st in
          let st := setAbortController None st in
          setTasks (delete tid) st
      end
  end.

Definition pull (tid : nat) (now : Z) (st : State) : State :=
  match tasks st !! tid with
  | None => st
  | Some (SendTask aiMsgId filesToSend fullResponse lastUpdate pending) =>
      pullSend tid aiMsgId filesToSend fullResponse lastUpdate pending now st
  | Some (PlanTask plan services i stepMsgId stepResponse lastUpdate pending) =>
      pullPlan tid plan services i stepMsgId stepResponse lastUpdate pending now st
  end.

(** What the rendered controls allow. *)
Definition textareaDisabled (st : State) : bool :=
  match files st with [] => true | _ => false end
  || (negb (bool_decide (appState st = idle))
      && negb (bool_decide (appState st = planning))
      && negb (bool_decide (appState st = executing))).

(** The stop button takes the place of the send button. *)
Definition stopButtonShown (st : State) : bool :=
  negb (bool_decide (appState st = idle))
  && negb (bool_decide (appState st = waiting_approval)).

Definition sendButtonDisabled (st : State) : bool :=
  blank (input st)
  || match files st with [] => true | _ => false end
  || negb (bool_decide (appState st = idle)).

(** A plan card, with its two buttons, is shown for every message that
    carries a plan. *)
Definition planCardShown (st : State) : bool :=
  existsb (fun m => match planData m with Some _ => true | None => false end)
    (messages st).

(** What can happen to the component: the user acts on a control, or the
    generator awaited by a suspended handler moves on. (The file pickers, the
    quick-action cards and the MCQ settings panel are left out; the set of
    uploaded files is fixed.) *)
Inductive Event :=
| TypeInput (value : jsstring)
| KeyEnter (now : Z) (svc : Service)
| ClickSend (now : Z) (svc : Service)
| ClickStop
| ClickApprove (now : Z) (services : nat -> Service)
| ClickCancel
| Pull (tid : nat) (now : Z).

Definition step (st : State) (ev : Event) : State :=
  match ev with
  | TypeInput value =>
      if textareaDisabled st then st else setInput value st
  | KeyEnter now svc =>
      if textareaDisabled st then st
      else handleSendMessage (input st) now svc st
  | ClickSend now svc =>
      if stopButtonShown st || sendButtonDisabled st then st
      else handleSendMessage (input st) now svc st
  | ClickStop =>
      if stopButtonShown st then stopGeneration st else st
  | ClickApprove now services =>
      if planCardShown st then executePlan now services st else st
  | ClickCancel =>
      if planCardShown st then cancelPlan st else st
  | Pull tid now => pull tid now st
  end.

Definition run (st : State) (events : list Event) : State :=
  foldl step st events.

End Handlers.

(** Every id in the transcript has been handed out: it is below the next
    fresh one. *)
Definition idsInUse (st : State) : Prop :=
  Forall (fun m => id m < nextId st) (messages st).

Definition streamingCount (st : State) : nat :=
  length (filter (fun m => isStreaming m = true) (messages st)).

Definition initial (fs : list FileData) : State :=
  mkState fs [] [] idle ∅ None 0 None 0 ∅ 0 [].

(** The run of [streamMessage] for step [i] of a plan, and what it leaves
    in the transcript when it succeeds. *)
Definition stepText (plan : ExecutionPlan) (i : nat) : jsstring :=
  default [] (steps plan !! i).

Definition stepRun (plan : ExecutionPlan) (services : nat -> Service) (i : nat) : Gen :=
  streamMessage (services i) (stepPrompt plan i (stepText plan i)) [].

(** Number of times the loop of step [i] is resumed: once per chunk, and
    once for the end of the stream. *)
Definition pullsOfStep (plan : ExecutionPlan) (services : nat -> Service) (i : nat) : nat :=
  S (length (yields (effects (stepRun plan services i)))).

(** The same for [k] steps in a row from step [i] on. *)
Fixpoint pullsOfSteps (plan : ExecutionPlan) (services : nat -> Service)
    (i k : nat) : nat :=
  match k with
  | 0 => 0
  | S k => pullsOfStep plan services i + pullsOfSteps plan services (i + 1) k
  end.

Definition completedStep (firstId : nat) (plan : ExecutionPlan)
    (services : nat -> Service) (i : nat) : Message :=
  mkMessage (firstId + i) model
    (stepHeader i (stepText plan i)
     ++ concat (yields (effects (stepRun plan services i))))
    false false None.

(** The component while step [i] of a plan is streaming: the step message,
    with some text [txt], is the last one of the transcript. *)
Definition atStep (frame : State) (others : gmap nat Task) (tid : nat)
    (plan : ExecutionPlan) (services : nat -> Service) (i : nat)
    (base : list Message) (mid : nat) (txt resp : jsstring) (lastUpdate : Z)
    (pending : Gen) (logged : list Effect) : State :=
  mkState (files frame) (base ++ [mkMessage mid model txt false true None])
    (input frame) executing (sentFileNames frame) (currentPlan frame) (i + 1)
    (Some false) (S mid)
    (<[tid := PlanTask plan services i mid resp lastUpdate pending]> others)
    (nextTask frame) logged.

(** The component while the reply to a sent message is streaming: the reply
    message, with some text [txt], is the last one of the transcript. *)
Definition atSend (frame : State) (others : gmap nat Task) (tid : nat)
    (base : list Message) (mid : nat) (txt : jsstring)
    (filesToSend : list FileData) (fullResponse : jsstring) (lastUpdate : Z)
    (pending : Gen) (logged : list Effect) : State :=
  mkState (files frame) (base ++ [mkMessage mid model txt false true None])
    (input frame) planning (sentFileNames frame) (currentPlan frame)
    (executionStep frame) (Some false) (S mid)
    (<[tid := SendTask mid filesToSend fullResponse lastUpdate pending]> others)
    (nextTask frame) logged.

(** The component after the loop over the steps has run to its end, and
    after a step has thrown. *)
Definition planEnded (frame : State) (others : gmap nat Task) (tid : nat)
    (transcript : list Message) (nextId : nat) (logged : list Effect) : State :=
  mkState (files frame) transcript (input frame) completed (sentFileNames frame)
    None 0 None nextId (delete tid others) (nextTask frame) logged.

Definition planFailed (frame : State) (others : gmap nat Task) (tid : nat)
    (transcript : list Message) (i nextId : nat) (logged : list Effect) : State :=
  mkState (files frame) transcript (input frame) idle (sentFileNames frame)
    (currentPlan frame) (i + 1) None nextId (delete tid others) (nextTask frame)
    logged.

End App.

(** ** components/ChatInterface.tsx: the text rendered and the status bar *)

Module MessageBubble.
Import ChatInterface App.

Definition textLimit : N := 5000000.

Definition truncationNotice : jsstring :=
  [10; 10]%N
  ++ js "... (Text truncated for performance. Please Export to view full content.)".

(** [isTextTooLarge] and [safeDisplayText]. *)
Definition isTextTooLarge (displayFullText : jsstring) : bool :=
  (textLimit <? N.of_nat (length displayFullText))%N.

Definition safeDisplayText (displayFullText : jsstring) : jsstring :=
  if isTextTooLarge displayFullText
  then substring displayFullText 0 (N.to_nat textLimit) ++ truncationNotice
  else displayFullText.

(** The text handed to the Markdown renderer for a model message. *)
Definition renderedText (text : jsstring) : jsstring :=
  safeDisplayText (displayFullText model text).

(** [totalSteps={currentPlan?.steps.length || 0}] and the condition under
    which the execution status bar is rendered. *)
Definition totalSteps (st : State) : nat :=
  match currentPlan st with
  | Some plan => length (steps plan)
  | None => 0
  end.

Definition statusBarShown (st : State) : bool :=
  (0 <? executionStep st) && (executionStep st <=? totalSteps st).

End MessageBubble.

(** ** services/fileUtils.ts, and the data URL built by [base64ToBlob] *)

Module FileUtils.

Definition comma : N := 44.

(** [s.split(',')]. *)
Fixpoint split (s : jsstring) : list jsstring :=
  match s with
  | [] => [[]]
  | c :: s' =>
      if (c =? comma)%N then [] :: split s'
      else match split s' with
           | field :: fields => (c :: field) :: fields
           | [] => [[c]]
           end
  end.

(** The value [fileToBase64] resolves with for a reader result that is a
    string: [reader.result.split(',')[1]], [None] for undefined. *)
Definition fileToBase64 (result : jsstring) : option jsstring :=
  split result !! 1.

(** [`data:${contentType};base64,${base64Data}`], the URL fetched by
    [base64ToBlob] (services/geminiService.ts); [readAsDataURL] gives the
    reader a result of the same form. *)
Definition dataUrl (contentType base64Data : jsstring) : jsstring :=
  js "data:" ++ contentType ++ js ";base64," ++ base64Data.

End FileUtils.

(** ** components/FileUpload.tsx *)

Module FileUpload.
Import GeminiService.

(** A browser [File] as far as the component looks at it. [base64] is the
    outcome of [fileToBase64(file)]: the string the promise resolves with,
    [None] when it is rejected. *)
Record File := mkBrowserFile {
  fileName : jsstring;
  size : N;
  type : jsstring;
  base64 : option jsstring }.

Definition MAX_FILE_SIZE_MB : N := 200.

Definition pdfType : jsstring := js "application/pdf".
Definition imagePrefix : jsstring := js "image/".

#[global] Arguments pdfType : simpl never.
#[global] Arguments imagePrefix : simpl never.

(** The loop of [processFiles]: the files pushed on [newFilesData]. *)
Fixpoint collect (files : list File) : list FileData :=
  match files with
  | [] => []
  | file :: rest =>
      if (MAX_FILE_SIZE_MB * 1024 * 1024 <? size file)%N
      then collect rest (* alert; continue *)
      else if negb (bool_decide (type file = pdfType))
              && negb (startsWith imagePrefix (type file))
      then collect rest (* alert; continue *)
      else match base64 file with
           | Some data => mkFile (fileName file) data (type file) :: collect rest
           | None => collect rest (* the error is logged *)
           end
  end.

(** [processFiles]: the argument with which [onFilesSelected] is called, if
    it is called. *)
Definition processFiles (files : list File) : option (list FileData) :=
  match collect files with
  | [] => None
  | newFilesData => Some newFilesData
  end.

(** [getEstimatedSize]; the product by 0.75 is exact. *)
Definition getEstimatedSize (base64Length : nat) : jsstring :=
  let sizeInBytes := (inject_Z (Z.of_nat base64Length) * (3 # 4))%Q in
  if negb (Qle_bool (inject_Z (1024 * 1024)) sizeInBytes)
  then toFixed1 (sizeInBytes / inject_Z 1024) ++ js " KB"
  else toFixed1 (sizeInBytes / inject_Z (1024 * 1024)) ++ js " MB".

End FileUpload.

(** ** App.tsx: the handlers of the file list *)

Module AppFiles.
Import ChatInterface GeminiService App.

Definition setFiles (f : list FileData -> list FileData) (st : State) : State :=
  mkState (f (files st)) (messages st) (input st) (appState st) (sentFileNames st)
    (currentPlan st) (executionStep st) (abortControllerRef st) (nextId st)
    (tasks st) (nextTask st) (log st).

Definition MAX_PAYLOAD_SIZE : N := 500 * 1024 * 1024.

(** [fs.reduce((acc, f) => acc + f.data.length, 0)]. *)
Definition totalSize (fs : list FileData) : N :=
  foldl (fun acc f => (acc + N.of_nat (length (data f)))%N) 0%N fs.

Definition uploadedText (pdfCount imageCount : nat) : jsstring :=
  js "**Uploaded:** "
  ++ (if 0 <? pdfCount then ofNat pdfCount ++ js " PDF(s)" else [])
  ++ js " "
  ++ (if 0 <? imageCount then ofNat imageCount ++ js " Image(s)" else [])
  ++ js "." ++ [10]%N
  ++ js "I am ready. I can use images for style references or content analysis.".

Definition addedText (count : nat) : jsstring :=
  js "Added **" ++ ofNat count ++ js "** more file(s).".

(** [handleFilesSelected]: the new state, and whether [resetSession()] was
    called (the chat session is a variable of the service module). The
    handler is called once the files have been read; [files] is the list of
    the render in which the handler was created, while the state updaters
    act on the state of the time of the call. *)
Definition handleFilesSelected (files : list FileData) (newFiles : list FileData)
    (st : State) : State * bool :=
  let currentTotalSize := totalSize files in
  let newBatchSize := totalSize newFiles in
  if (MAX_PAYLOAD_SIZE <? currentTotalSize + newBatchSize)%N then (st, false) (* alert *)
  else
    let st := setFiles (fun prev => prev ++ newFiles) st in
    let imageCount :=
      length (filter (fun f => startsWith FileUpload.imagePrefix (mimeType f) = true)
                newFiles) in
    let pdfCount :=
      length (filter (fun f => mimeType f = FileUpload.pdfType) newFiles) in
    match files with
    | [] =>
        let st := setSentFileNames (fun _ => ∅) st in
        let statusText := uploadedText pdfCount imageCount in
        let st := setMessages (fun _ =>
          [mkMessage (nextId st) model statusText false false None]) st in
        (setNextId (S (nextId st)) st, true)
    | _ :: _ =>
        let statusText := addedText (length newFiles) in
        let st := setMessages (fun prev =>
          prev ++ [mkMessage (nextId st) model statusText false false None]) st in
        (setNextId (S (nextId st)) st, false)
    end.

(** [handleRemoveFile] for an index of the rendered list; [None] when there
    is no file at the index, where reading [removed.name] throws. *)
Definition handleRemoveFile (index : nat) (st : State) : option State :=
  match files st !! index with
  | None => None
  | Some removed =>
      let st := setFiles (fun _ => delete index (files st)) st in
      Some (setSentFileNames (fun prev => prev ∖ {[name removed]}) st)
  end.

(** [handleChatAttachment] for a non-empty selection: the same loop as in
    [processFiles], then [handleFilesSelected], of the same render, if a
    file is left. *)
Fixpoint collect (files : list FileUpload.File) : list FileData :=
  match files with
  | [] => []
  | file :: rest =>
      if (200 * 1024 * 1024 <? FileUpload.size file)%N then collect rest
      else if negb (bool_decide (FileUpload.type file = FileUpload.pdfType))
              && negb (startsWith FileUpload.imagePrefix (FileUpload.type file))
      then collect rest
      else match FileUpload.base64 file with
           | Some data =>
               mkFile (FileUpload.fileName file) data (FileUpload.type file)
                 :: collect rest
           | None => collect rest
           end
  end.

Definition handleChatAttachment (files : list FileData)
    (selected : list FileUpload.File) (st : State) : State * bool :=
  match collect selected with
  | [] => (st, false)
  | newFilesData => handleFilesSelected files newFilesData st
  end.

(** The files that the next call of [handleSendMessage] passes on. *)
Definition filesToSend (st : State) : list FileData :=
  filter (fun f => name f ∉ sentFileNames st) (files st).

(** The component after [handleSendMessage] has run to its end. *)
Definition sendEnded (frame : State) (others : gmap nat Task) (tid : nat)
    (transcript : list Message) (nextId : nat) (state : AppState)
    (sent : gset jsstring) (plan : option ExecutionPlan) (logged : list Effect)
  : State :=
  mkState (files frame) transcript (input frame) state sent plan
    (executionStep frame) None nextId (delete tid others) (nextTask frame) logged.

(** The ids of the transcript, in order. *)
Definition messageIds (st : State) : list nat := id <$> messages st.

(** A message that shows the streaming cursor is a model message with
    neither an error nor a plan. *)
Definition streamingIsPlain (m : Message) : Prop :=
  isStreaming m = true -> role m = model /\ isError m = false /\ planData m = None.

End AppFiles.

(** ** Further observations on a run of [streamMessage] *)

Module Observations.
Import GeminiService.

Definition uploads (tr : list Effect) : list jsstring :=
  omap (fun e => match e with EUpload n => Some n | _ => None end) tr.

(** The part that embeds a file, and the parts that may stand for it. *)
Definition inlinePart (file : FileData) : Part :=
  inlineData (mimeType file) (data file).

Definition partOf (file : FileData) (part : Part) : Prop :=
  part = inlinePart file \/
  (aboveThreshold file = true /\ exists mime uri, part = fileData mime uri).

(** The fixed texts among the messages that [streamMessage] throws. *)
Definition fixedTexts : list jsstring :=
  [js "An unexpected error occurred.";
   js "Token Limit Exceeded: The content is too large. Please start a new chat.";
   js "File Too Large: The document exceeds the API's inline limit. (Upload failed)";
   js "Safety Filter Triggered: The content was flagged by safety settings.";
   js "Network Connection Error: Could not reach Gemini API. Please check your internet connection.";
   js "Payload Too Large: The file is too big for the direct API. Please try compressing it.";
   js "Free Tier Limit Reached: You are sending too many requests too quickly. Please wait a moment."].

End Observations.

(** ** DocumentPreview.tsx *)

Module DocumentPreview.

(** The prop [htmlContent] (named [initialHtml]), the three pieces of state,
    and the pending debounce timer with the value of [initialHtml] that its
    callback has captured. *)
Record State := mkPreview {
  initialHtml : jsstring;
  renderedContent : jsstring;
  isEditing : bool;
  hasUserEdited : bool;
  timer : option jsstring }.

Definition CONTENT_LIMIT : N := 50000000.

Definition isTooLarge (st : State) : bool :=
  (CONTENT_LIMIT <? N.of_nat (length (renderedContent st)))%N.

Definition displayContent (st : State) : jsstring :=
  if isTooLarge st
  then substring (renderedContent st) 0 (N.to_nat CONTENT_LIMIT)
  else renderedContent st.

(** The effect, run after a render in which one of its dependencies has
    changed: the clean-up of the previous run clears its timer, then a new
    timer is set unless the user is editing or has edited. *)
Definition effect (st : State) : State :=
  mkPreview (initialHtml st) (renderedContent st) (isEditing st) (hasUserEdited st)
    (if negb (isEditing st) && negb (hasUserEdited st)
     then Some (initialHtml st) else None).

(** A render that takes the component from [prev] to [next]. *)
Definition render (prev next : State) : State :=
  if bool_decide (initialHtml prev = initialHtml next)
     && Bool.eqb (isEditing prev) (isEditing next)
     && Bool.eqb (hasUserEdited prev) (hasUserEdited next)
  then next else effect next.

Definition mount (htmlContent : jsstring) : State :=
  effect (mkPreview htmlContent htmlContent false false None).

(** The parent renders the component with a new prop. *)
Definition setProps (htmlContent : jsstring) (st : State) : State :=
  render st (mkPreview htmlContent (renderedContent st) (isEditing st)
               (hasUserEdited st) (timer st)).

(** The debounce timer fires. *)
Definition timerFires (st : State) : State :=
  match timer st with
  | Some html => mkPreview (initialHtml st) html (isEditing st) (hasUserEdited st) None
  | None => st
  end.

Definition handleManualEdit (st : State) : State :=
  if isTooLarge st then st (* alert *)
  else render st (mkPreview (initialHtml st) (renderedContent st) true
                    (hasUserEdited st) (timer st)).

(** [innerHTML] is [containerRef.current.innerHTML], [None] when the ref is
    null. *)
Definition handleSaveManualEdit (innerHTML : option jsstring) (st : State) : State :=
  render st
    match innerHTML with
    | Some html => mkPreview (initialHtml st) html false true (timer st)
    | None =>
        mkPreview (initialHtml st) (renderedContent st) false (hasUserEdited st)
          (timer st)
    end.

Definition handleDiscardEdits (confirmed : bool) (st : State) : State :=
  if confirmed
  then render st (mkPreview (initialHtml st) (initialHtml st) false false (timer st))
  else st.

(** What can happen to the component; a button acts only while it is
    rendered. *)
Inductive Event :=
| Props (htmlContent : jsstring)
| TimerFires
| ClickEdit
| ClickSave (innerHTML : option jsstring)
| ClickDiscard (confirmed : bool).

Definition step (st : State) (ev : Event) : State :=
  match ev with
  | Props htmlContent => setProps htmlContent st
  | TimerFires => timerFires st
  | ClickEdit => if isEditing st then st else handleManualEdit st
  | ClickSave innerHTML => if isEditing st then handleSaveManualEdit innerHTML st else st
  | ClickDiscard confirmed =>
      if hasUserEdited st && negb (isEditing st)
      then handleDiscardEdits confirmed st else st
  end.

Definition run (st : State) (events : list Event) : State :=
  foldl step st events.

(** The events that come from the parent and the clock, not from the user. *)
Definition automatic (ev : Event) : bool :=
  match ev with Props _ | TimerFires => true | _ => false end.

(** The timer and the content agree with the flags: a timer is pending
    only while the user neither edits nor has edited, and it holds the
    current prop; with no timer pending in that case, the content is the
    prop; and a document in edit mode is not a truncated one. *)
Definition inSync (st : State) : Prop :=
  (timer st = None \/
   (isEditing st = false /\ hasUserEdited st = false /\
    timer st = Some (initialHtml st))) /\
  (isEditing st = false -> hasUserEdited st = false -> timer st = None ->
   renderedContent st = initialHtml st) /\
  (isEditing st = true -> isTooLarge st = false).

End DocumentPreview.

(** ** App.tsx: the quick actions and the custom MCQ prompt *)

Module QuickActions.
Import ChatInterface GeminiService App.

(** [s.trim()]. *)
Definition trimStart (s : jsstring) : jsstring := drop (spaceRun s) s.
Definition trimEnd (s : jsstring) : jsstring := reverse (trimStart (reverse s)).
Definition trim (s : jsstring) : jsstring := trimEnd (trimStart s).

(** The value of [parseInt]: an integer or NaN. *)
Inductive JsNumber := NaN | Int (z : Z).

(** The number in a template literal (all digits are printed for an integer
    below 10^21 in magnitude). *)
Definition numberToString (n : JsNumber) : jsstring :=
  match n with
  | NaN => js "NaN"
  | Int z => js (NilEmpty.string_of_int (Z.to_int z))
  end.

(** [MCQSettings], its nested objects flattened; the fields that the type
    restricts to a few strings hold whatever string the form gives them. *)
Record MCQSettings := mkSettings {
  mcqCount : JsNumber;
  customStylePrompt : jsstring;
  question_color : jsstring;
  question_bold : bool;
  question_italic : bool;
  question_underline : bool;
  question_fontSize : jsstring;
  options_color : jsstring;
  options_backgroundColor : jsstring;
  options_bold : bool;
  options_italic : bool;
  options_layout : jsstring;
  options_boxStyle : jsstring;
  answer_color : jsstring;
  answer_bold : bool;
  answer_icon : bool;
  answer_display : jsstring;
  explanation_color : jsstring;
  explanation_boxStyle : jsstring;
  explanation_boldHeading : bool;
  explanation_fontSize : jsstring;
  global_divider : jsstring;
  global_spacing : jsstring;
  language : jsstring }.

(** [flag ? 'word' : '']. *)
Definition word (flag : bool) (w : jsstring) : jsstring := if flag then w else [].

Definition optionClasses (settings : MCQSettings) : jsstring :=
  let optionClasses :=
    js "block mb-2 " ++ options_color settings ++ js " "
    ++ word (options_bold settings) (js "font-bold") ++ js " "
    ++ word (options_italic settings) (js "italic") ++ js " " in
  if bool_decide (options_boxStyle settings = js "card") then
    optionClasses
    ++ js "p-3 rounded-lg border border-gray-200 shadow-sm hover:bg-gray-50 transition-colors "
    ++ (if negb (bool_decide (options_backgroundColor settings = js "bg-transparent"))
        then options_backgroundColor settings else js "bg-white")
  else if negb (bool_decide (options_backgroundColor settings = js "bg-transparent"))
  then optionClasses ++ js "p-3 rounded-lg " ++ options_backgroundColor settings
  else optionClasses ++ js "py-1".

Definition promptHead : jsstring := js "[STRICT VISUAL INSTRUCTION: GENERATE MCQ PDF]".

#[global] Arguments promptHead : simpl never.

(** What follows the first line of the template, up to its end. *)
Definition promptBody (settings : MCQSettings) : jsstring :=
  let nl := [10]%N in
  let quote := [34]%N in
  let isBilingual := includes (js "Bilingual") (language settings) 0 in
  let targetLang :=
    if includes (js "Odia") (language settings) 0 then js "ODIA" else js "HINDI" in
  let targetLangNormal :=
    if includes (js "Odia") (language settings) 0 then js "Odia" else js "Hindi" in
  nl
  ++ js "Generate " ++ numberToString (mcqCount settings)
  ++ js " High-Quality MCQs from the attached files." ++ nl
  ++ js "Output Format: HTML (Strictly follow the CSS rules below)." ++ nl
  ++ nl
  ++ (if truthy (customStylePrompt settings)
      then js "**SPECIAL STYLE OVERRIDE:** " ++ customStylePrompt settings ++ nl
           ++ js "(Use the AI style prompt to override colors and aesthetics if it conflicts with standard settings below, but keep the layout logic)"
           ++ nl
      else [])
  ++ nl
  ++ nl
  ++ js "**VISUAL STYLE SETTINGS (Tailwind CSS):**" ++ nl
  ++ js "- **Question Style:** " ++ question_color settings ++ js " "
  ++ question_fontSize settings ++ js " "
  ++ word (question_bold settings) (js "font-bold") ++ js " "
  ++ word (question_italic settings) (js "italic") ++ js " "
  ++ word (question_underline settings) (js "underline") ++ nl
  ++ js "- **Option Style:** " ++ optionClasses settings ++ nl
  ++ js "- **Layout:** "
  ++ (if bool_decide (options_layout settings = js "inline")
      then js "grid grid-cols-1 md:grid-cols-2 gap-3" else js "space-y-2")
  ++ nl
  ++ js "- **Correct Answer:** " ++ answer_color settings ++ js " "
  ++ word (answer_bold settings) (js "font-bold") ++ js " "
  ++ (if bool_decide (answer_display settings = js "tag")
      then js "inline-block px-2 py-1 bg-green-50 rounded text-xs"
      else if bool_decide (answer_display settings = js "bar")
      then js "block w-full p-2 bg-green-50 border-l-4 border-green-500 rounded-r"
      else [])
  ++ nl
  ++ js "- **Explanation:** " ++ explanation_color settings ++ js " "
  ++ explanation_fontSize settings ++ js " "
  ++ (if bool_decide (explanation_boxStyle settings = js "card")
      then js "p-4 bg-gray-50 rounded-lg border border-gray-200 mt-2"
      else js "mt-1 italic")
  ++ nl
  ++ js "- **Global Divider:** "
  ++ (if bool_decide (global_divider settings = js "dashed")
      then js "border-b border-dashed border-gray-300 my-6"
      else if bool_decide (global_divider settings = js "solid")
      then js "border-b border-gray-200 my-6"
      else js "my-6")
  ++ nl
  ++ nl
  ++ js "**LANGUAGE MODE: " ++ language settings ++ js "**" ++ nl
  ++ (if isBilingual
      then nl
           ++ js "**CRITICAL BILINGUAL CONTENT RULES:**" ++ nl
           ++ js "1. **QUESTION:** Write the question in ENGLISH, followed by a line break, then the "
           ++ targetLang ++ js " translation." ++ nl
           ++ js "2. **OPTIONS:** EVERY option must be bilingual. Format: "
           ++ quote ++ js "A) English Option (" ++ targetLangNormal ++ js " Option)" ++ quote
           ++ js " or " ++ quote ++ js "A) English Option / " ++ targetLangNormal
           ++ js " Option" ++ quote ++ js "." ++ nl
           ++ js "3. **EXPLANATION:** You MUST write the explanation in ENGLISH first. Then, add a <br/> tag or line break, and write the explanation in "
           ++ targetLang ++ js ". **DO NOT** skip the " ++ targetLang
           ++ js " explanation." ++ nl
      else [])
  ++ nl
  ++ nl
  ++ js "**Task:** " ++ nl
  ++ js "Create " ++ numberToString (mcqCount settings)
  ++ js " MCQs based on the document content. " ++ nl
  ++ js "Use the styles above. " ++ nl
  ++ (if isBilingual
      then js "ENSURE OPTIONS AND EXPLANATIONS ARE IN BOTH ENGLISH AND " ++ targetLang
           ++ js "."
      else [])
  ++ nl
  ++ js "Start generating HTML now." ++ nl
  ++ js "    ".

(** The template literal [prompt]. *)
Definition prompt (settings : MCQSettings) : jsstring :=
  [10]%N ++ promptHead ++ promptBody settings.

(** The component with the flag [showMCQSettings]. *)
Definition generateCustomMCQ (settings : MCQSettings) (now : Z) (svc : Service)
    (ui : bool * State) : bool * State :=
  (false, handleSendMessage (trim (prompt settings)) now svc ui.2).

(** The placeholder shown in place of a prompt with visual instructions. *)
Definition placeholder : jsstring :=
  js "**Generating Custom MCQs...** (Applying visual settings)".

End QuickActions.

(** ** App.tsx: the chat and the list of files together *)

Module AppEvents.
Import ChatInterface GeminiService App.

(** What can happen to the component, the list of files included: an event
    of the chat; a quick-action card or the MCQ settings panel calling
    [handleSendMessage] with its prompt; a batch of files that has been read
    and is handed to [handleFilesSelected] of the render in which the
    reading began, whose list of files was [files]; a click on the remove
    button of the file at an index of the list (there is no button at
    another index). *)
Inductive Event :=
| Chat (ev : App.Event)
| Prompt (text : jsstring) (now : Z) (svc : Service)
| FilesRead (files newFiles : list FileData)
| ClickRemove (index : nat).

Definition step (JSON_parse : jsstring -> option (option ExecutionPlan))
    (st : State) (ev : Event) : State :=
  match ev with
  | Chat ev => App.step JSON_parse st ev
  | Prompt text now svc => handleSendMessage text now svc st
  | FilesRead files newFiles => (AppFiles.handleFilesSelected files newFiles st).1
  | ClickRemove index =>
      match AppFiles.handleRemoveFile index st with
      | Some st' => st'
      | None => st
      end
  end.

Definition run (JSON_parse : jsstring -> option (option ExecutionPlan))
    (st : State) (events : list Event) : State :=
  foldl (step JSON_parse) st events.

(** A batch read while the list of files was empty: if it is taken, it
    replaces the transcript. *)
Definition onEmptyList (ev : Event) : bool :=
  match ev with
  | FilesRead [] _ => true
  | _ => false
  end.

End AppEvents.

(* ================================================================== *)
(** * Properties *)

(** ** String searching under appends *)

Section SearchAppend.
Implicit Types (pat s d : jsstring).

Lemma startsWith_app pat s d :
  startsWith pat s = true -> startsWith pat (s ++ d) = true.
Proof.
  revert s; induction pat as [|p pat IH]; intros [|c s]; simpl; try done.
  intros [-> H]%andb_prop. by rewrite IH.
Qed.

Lemma startsWith_long_app pat s d :
  length pat <= length s ->
  startsWith pat (s ++ d) = startsWith pat s.
Proof.
  revert s; induction pat as [|p pat IH]; intros [|c s]; simpl; try done; try lia.
  intros Hlen. rewrite IH; [done | lia].
Qed.

Lemma startsWith_length pat s :
  startsWith pat s = true -> length pat <= length s.
Proof.
  revert s; induction pat as [|p pat IH]; intros [|c s]; simpl; try done; try lia.
  intros [_ H]%andb_prop. apply IH in H. lia.
Qed.

Lemma find_bound pat s i :
  find pat s = Some i -> i + length pat <= length s.
Proof.
  revert i; induction s as [|c s IH]; intros i; simpl.
  - destruct (startsWith pat []) eqn:E; [|done].
    intros [= <-]. apply startsWith_length in E. simpl in *; lia.
  - destruct (startsWith pat (c :: s)) eqn:E.
    + intros [= <-]. apply startsWith_length in E. simpl in *; lia.
    + destruct (find pat s) as [j|]; [|done]. simpl. intros [= <-].
      specialize (IH j eq_refl). lia.
Qed.

(** The leftmost occurrence does not move when text is appended. *)
Lemma find_app pat s d i :
  find pat s = Some i -> find pat (s ++ d) = Some i.
Proof.
  revert i; induction s as [|c s IH]; intros i; simpl.
  - destruct (startsWith pat []) eqn:E; [|done].
    intros [= <-]. destruct pat; [|done]. by destruct d.
  - destruct (startsWith pat (c :: s)) eqn:E.
    + intros [= <-]. change (c :: s ++ d) with ((c :: s) ++ d).
      by rewrite (startsWith_app _ _ _ E).
    + destruct (find pat s) as [j|] eqn:F; [|done]. simpl. intros [= <-].
      change (c :: s ++ d) with ((c :: s) ++ d).
      rewrite startsWith_long_app, E.
      * by rewrite (IH j eq_refl).
      * apply find_bound in F. simpl. lia.
Qed.

Lemma indexOf_bound pat s from e :
  indexOf pat s from = Some e ->
  from <= e /\ (pat <> [] -> e + length pat <= length s).
Proof.
  unfold indexOf. destruct (find pat (drop from s)) as [i|] eqn:F; [|done].
  simpl. intros [= <-]. split; [lia|]. intros Hne.
  apply find_bound in F. rewrite length_drop in F.
  destruct pat; [done|]. simpl in *. lia.
Qed.

Lemma indexOf_app pat s d from e :
  pat <> [] ->
  indexOf pat s from = Some e -> indexOf pat (s ++ d) from = Some e.
Proof.
  intros Hne H. pose proof (indexOf_bound _ _ _ _ H) as [_ Hb].
  specialize (Hb Hne). unfold indexOf in *.
  destruct (find pat (drop from s)) as [i|] eqn:F; [|done].
  simpl in H. injection H as <-.
  assert (from <= length s) by lia.
  rewrite drop_app_le by done. by rewrite (find_app _ _ _ _ F).
Qed.

Lemma spaceRun_le s : spaceRun s <= length s.
Proof. induction s as [|c s IH]; simpl; [lia|]. destruct (isSpace c); simpl; lia. Qed.

Lemma spaceRun_app_short s d :
  spaceRun s < length s -> spaceRun (s ++ d) = spaceRun s.
Proof.
  induction s as [|c s IH]; simpl; [lia|].
  destruct (isSpace c); [|done]. intros H. rewrite IH; [done | lia].
Qed.

End SearchAppend.

(** ** Block extraction on a growing text *)

Section ExtractStreaming.
Import ChatInterface.

Lemma endMarker_nonempty : endMarker <> [].
Proof. discriminate. Qed.

Lemma matchOpen_app text d index len :
  matchOpen text = Some (index, len) ->
  exists len', matchOpen (text ++ d) = Some (index, len') /\ len <= len' /\
    (index + len < length text -> len' = len).
Proof.
  unfold matchOpen. destruct (find startMarker text) as [i|] eqn:F; [|done].
  intros H. rewrite (find_app _ _ d _ F).
  apply find_bound in F.
  rewrite drop_app_le by lia.
  remember (length startMarker) as k eqn:Hk.
  remember (drop (i + k) text) as rest eqn:Hrest.
  assert (length rest = length text - (i + k)) as Hlen
    by (subst rest; apply length_drop).
  injection H as <- <-.
  eexists; split; [reflexivity|].
  destruct (decide (spaceRun rest < length rest)) as [Hlt|Hge].
  - rewrite spaceRun_app_short by done. split; [lia | done].
  - pose proof (spaceRun_le rest). split; [|lia].
    assert (spaceRun rest <= spaceRun (rest ++ d)); [|lia].
    clear. induction rest as [|c r IH]; simpl; [lia|].
    destruct (isSpace c); lia.
Qed.

(** One append: a closed result is kept as it is, and an open result that
    stays open is extended. *)
Lemma extract_app text d r :
  extract text = Some r ->
  exists r', extract (text ++ d) = Some r' /\
    (closed r = true -> r' = r) /\
    (closed r = false -> closed r' = false ->
     content r `prefix_of` content r').
Proof.
  unfold extract. destruct (matchOpen text) as [[index len]|] eqn:M; [|done].
  destruct (matchOpen_app _ d _ _ M) as (len' & -> & Hle & Hsame).
  assert (index + len <= length text) as Hcs.
  { unfold matchOpen in M. destruct (find startMarker text) as [i|] eqn:F; [|done].
    apply find_bound in F. remember (length startMarker) as k.
    pose proof (spaceRun_le (drop (i + k) text)) as Hs.
    rewrite length_drop in Hs. injection M as <- <-. lia. }
  destruct (indexOf endMarker text (index + len)) as [e|] eqn:E.
  - intros [= <-].
    destruct (indexOf_bound _ _ _ _ E) as [Hge Hb].
    specialize (Hb endMarker_nonempty). simpl in Hb.
    rewrite Hsame by lia.
    rewrite (indexOf_app _ _ d _ _ endMarker_nonempty E).
    eexists; split; [reflexivity|]. split; [|done]. intros _.
    unfold substring. f_equal.
    rewrite drop_app_le by lia. rewrite take_app_le; [done|].
    rewrite length_drop. lia.
  - intros [= <-].
    destruct (indexOf endMarker (text ++ d) (index + len')) as [e'|] eqn:E';
      (eexists; split; [reflexivity|]); (split; [done|]); simpl; [done|].
    intros _ _.
    destruct (decide (index + len < length text)) as [Hlt|Hge].
    + rewrite Hsame by done. rewrite drop_app_le by lia. by apply prefix_app_r.
    + rewrite (drop_ge text) by lia. apply prefix_nil.
Qed.

Lemma feed_head text deltas :
  exists tl, feed text deltas = extract text :: tl.
Proof. destruct deltas; simpl; eauto. Qed.

End ExtractStreaming.

(** ** The extraction against the text *)

Section ExtractSpec.
Import ChatInterface.
Implicit Types (pat s : jsstring).

Lemma startsWith_spec pat s :
  startsWith pat s = true <-> exists post, s = pat ++ post.
Proof.
  revert s; induction pat as [|p pat IH]; intros s; simpl.
  - split; [by exists s | done].
  - destruct s as [|c s]; [split; [done | by intros [? ?]]|].
    rewrite andb_true_iff, N.eqb_eq, IH. split.
    + intros [-> [post ->]]. by exists post.
    + intros [post [= -> ->]]. eauto.
Qed.

Lemma occursAt_drop pat s i :
  occursAt pat s i <-> i <= length s /\ startsWith pat (drop i s) = true.
Proof.
  rewrite startsWith_spec. split.
  - intros (pre & post & -> & <-). rewrite length_app. split; [lia|].
    exists post. by rewrite drop_app_length.
  - intros [Hi [post Hpost]]. exists (take i s), post. split.
    + by rewrite <- Hpost, take_drop.
    + rewrite length_take. lia.
Qed.

Lemma occursAt_cons pat c s i :
  occursAt pat (c :: s) (S i) <-> occursAt pat s i.
Proof. rewrite !occursAt_drop. simpl. split; intros [? ?]; split; (done || lia). Qed.

(** [find] gives the leftmost occurrence, and none when there is none. *)
Lemma find_Some_spec pat s i :
  find pat s = Some i ->
  occursAt pat s i /\ forall j, occursAt pat s j -> i <= j.
Proof.
  revert i; induction s as [|c s IH]; intros i; simpl.
  - destruct (startsWith pat []) eqn:E; [|done]. intros [= <-].
    split; [|intros; lia]. apply occursAt_drop. split; [done | exact E].
  - destruct (startsWith pat (c :: s)) eqn:E.
    + intros [= <-]. split; [|intros; lia]. apply occursAt_drop. split; [simpl; lia | exact E].
    + destruct (find pat s) as [i'|]; [|done]. simpl. intros [= <-].
      destruct (IH i' eq_refl) as [Hocc Hleft]. split; [by apply occursAt_cons|].
      intros [|j] Hj.
      * apply occursAt_drop in Hj as [_ Hj]. simpl in Hj. congruence.
      * apply occursAt_cons, Hleft in Hj. lia.
Qed.

Lemma find_None_spec pat s i : find pat s = None -> ~ occursAt pat s i.
Proof.
  revert i; induction s as [|c s IH]; intros i; simpl.
  - destruct (startsWith pat []) eqn:E; [done|]. intros _ [Hi Hocc]%occursAt_drop.
    simpl in Hi. assert (i = 0) as -> by lia. simpl in Hocc. congruence.
  - destruct (startsWith pat (c :: s)) eqn:E; [done|].
    destruct (find pat s) as [i'|] eqn:F; [done|]. intros _.
    destruct i as [|i].
    + intros [_ Hocc]%occursAt_drop. simpl in Hocc. congruence.
    + intros Hocc%occursAt_cons. by apply (IH i).
Qed.

Lemma spaceRun_spaces s : Forall (fun c => isSpace c = true) (take (spaceRun s) s).
Proof.
  induction s as [|c s IH]; [constructor|]. simpl.
  destruct (isSpace c) eqn:E; [by constructor | constructor].
Qed.

Lemma spaceRun_rest s :
  match drop (spaceRun s) s with c :: _ => isSpace c = false | [] => True end.
Proof.
  induction s as [|c s IH]; [done|]. simpl.
  destruct (isSpace c) eqn:E; [exact IH | exact E].
Qed.

(** The result of [extract] is the one the text calls for. *)
Lemma extract_Extracted (text : jsstring) : Extracted text (extract text).
Proof.
  unfold extract, matchOpen.
  destruct (find startMarker text) as [i|] eqn:F.
  2:{ intros j. by apply find_None_spec. }
  destruct (find_Some_spec _ _ _ F) as [(pre & after & Htext & Hpre) Hleft].
  remember (length startMarker) as k eqn:Hk.
  assert (drop (i + k) text = after) as Hafter.
  { rewrite Htext, <- Hpre, Hk, (assoc_L (++)), <- length_app.
    by rewrite drop_app_length. }
  rewrite Hafter.
  assert (drop (i + (k + spaceRun after)) text = drop (spaceRun after) after) as Hrest.
  { rewrite <- Hafter, drop_drop. f_equal. lia. }
  assert (text = pre ++ startMarker ++ take (spaceRun after) after
                 ++ drop (spaceRun after) after) as Hsplit
    by (by rewrite take_drop).
  unfold indexOf. rewrite Hrest.
  remember (drop (spaceRun after) after) as rest eqn:Hr.
  pose proof (spaceRun_rest after) as Hhead. rewrite <- Hr in Hhead.
  destruct (find endMarker rest) as [j|] eqn:E;
    cbn [fmap option_fmap option_map Extracted closed content].
  - exists pre, (take (spaceRun after) after), rest.
    split; [exact Hsplit|]. split; [by rewrite Hpre|].
    split; [apply spaceRun_spaces|]. split; [exact Hhead|].
    destruct (find_Some_spec _ _ _ E) as [(c & post & Hc & Hlen) Hfirst].
    exists post. unfold substring.
    replace (i + (k + spaceRun after) + j - (i + (k + spaceRun after))) with j by lia.
    rewrite Hrest.
    assert (take j rest = c) as ->.
    { rewrite Hc, <- Hlen. by rewrite take_app_length. }
    split; [exact Hc|]. by rewrite Hlen.
  - exists pre, (take (spaceRun after) after), rest.
    split; [exact Hsplit|]. split; [by rewrite Hpre|].
    split; [apply spaceRun_spaces|]. split; [exact Hhead|].
    split; [done|]. intros j. by apply find_None_spec.
Qed.

Lemma space_split_unique (a1 b1 a2 b2 : jsstring) :
  Forall (fun c => isSpace c = true) a1 ->
  match b1 with c :: _ => isSpace c = false | [] => True end ->
  Forall (fun c => isSpace c = true) a2 ->
  match b2 with c :: _ => isSpace c = false | [] => True end ->
  a1 ++ b1 = a2 ++ b2 -> a1 = a2 /\ b1 = b2.
Proof.
  intros H1. revert a2. induction H1 as [|c a1 Hc _ IH]; intros a2 Hb1 H2 Hb2 Heq.
  - destruct H2 as [|c' a2 Hc' _]; [done|]. simpl in Heq. subst b1. congruence.
  - destruct H2 as [|c' a2 Hc' H2].
    + simpl in Heq. subst b2. congruence.
    + simpl in Heq. injection Heq as -> Heq.
      destruct (IH a2 Hb1 H2 Hb2 Heq) as [-> ->]. done.
Qed.

(** No other result fits the text. *)
Lemma Extracted_unique (text : jsstring) r1 r2 :
  Extracted text r1 -> Extracted text r2 -> r1 = r2.
Proof.
  assert (forall r, Extracted text (Some r) -> Extracted text None -> False) as Hno.
  { intros r (pre & space & rest & Htext & _) Hnone.
    apply (Hnone (length pre)). by exists pre, (space ++ rest). }
  destruct r1 as [r1|], r2 as [r2|]; intros H1 H2;
    [|by destruct (Hno _ H1 H2)|by destruct (Hno _ H2 H1)|done].
  destruct H1 as (pre1 & space1 & rest1 & Ht1 & Hl1 & Hs1 & Hh1 & Hc1).
  destruct H2 as (pre2 & space2 & rest2 & Ht2 & Hl2 & Hs2 & Hh2 & Hc2).
  assert (length pre1 = length pre2) as Hlen.
  { apply Nat.le_antisymm.
    - apply Hl1. by exists pre2, (space2 ++ rest2).
    - apply Hl2. by exists pre1, (space1 ++ rest1). }
  rewrite Ht1 in Ht2. apply app_inj_1 in Ht2 as [_ Ht2]; [|done].
  apply app_inv_head in Ht2.
  destruct (space_split_unique _ _ _ _ Hs1 Hh1 Hs2 Hh2 Ht2) as [_ <-].
  destruct r1 as [c1 [|]], r2 as [c2 [|]]; cbn [closed content] in *.
  - destruct Hc1 as (post1 & Hr1 & Hf1), Hc2 as (post2 & Hr2 & Hf2).
    assert (length c1 = length c2) as Hc.
    { apply Nat.le_antisymm.
      - apply Hf1. by exists c2, post2.
      - apply Hf2. by exists c1, post1. }
    rewrite Hr1 in Hr2. apply app_inj_1 in Hr2 as [-> _]; done.
  - destruct Hc1 as (post1 & Hr1 & _), Hc2 as [_ Hf2].
    destruct (Hf2 (length c1)). by exists c1, post1.
  - destruct Hc2 as (post2 & Hr2 & _), Hc1 as [_ Hf1].
    destruct (Hf1 (length c2)). by exists c2, post2.
  - destruct Hc1 as [-> _], Hc2 as [-> _]. done.
Qed.

Lemma Extracted_iff (text : jsstring) r : Extracted text r <-> r = extract text.
Proof.
  split.
  - intros H. exact (Extracted_unique _ _ _ H (extract_Extracted text)).
  - intros ->. apply extract_Extracted.
Qed.

Lemma feed_Extracted (text : jsstring) (deltas : list jsstring) :
  Forall2 (fun snapshot result => forall r, Extracted snapshot r <-> r = result)
    (snapshots text deltas) (feed text deltas).
Proof.
  revert text; induction deltas as [|d ds IH]; intros text; simpl.
  - constructor; [intros r; apply Extracted_iff | constructor].
  - constructor; [intros r; apply Extracted_iff | apply IH].
Qed.

End ExtractSpec.

(** C1. On a text that only grows by appends, every result of the HTML
    extraction is the one its snapshot determines: nothing exactly when the
    snapshot holds no opening marker; otherwise the text after the leftmost
    opening marker and the white space behind it, up to the first closing
    fence there and closed if there is one, to the end of the snapshot and
    open if there is none. The successive results are: nothing while no
    opening marker has arrived, then open results whose contents extend one
    another, then, from the first snapshot holding a closing fence on, one
    and the same closed result. There is thus at most one change from open
    to closed, and none back. *)
Theorem extract_streaming_monotone (text : jsstring) (deltas : list jsstring) :
  Forall2 (fun snapshot result =>
             forall r, ChatInterface.Extracted snapshot r <-> r = result)
    (ChatInterface.snapshots text deltas) (ChatInterface.feed text deltas) /\
  exists (m : nat) (opens : list ChatInterface.ExtractionResult)
         (final : ChatInterface.ExtractionResult) (n : nat),
    ChatInterface.feed text deltas
      = replicate m None ++ (Some <$> opens) ++ replicate n (Some final) /\
    Forall (fun r => ChatInterface.closed r = false) opens /\
    ChatInterface.growing (ChatInterface.content <$> opens) /\
    ChatInterface.closed final = true.
Proof.
  split; [apply feed_Extracted|].
  revert text; induction deltas as [|d ds IH]; intros text.
  - simpl. destruct (ChatInterface.extract text) as [[c [|]]|] eqn:E.
    + exists 0, [], (ChatInterface.mkResult c true), 1. by repeat split.
    + exists 0, [ChatInterface.mkResult c false], (ChatInterface.mkResult [] true), 0.
      repeat split; by repeat constructor.
    + exists 1, [], (ChatInterface.mkResult [] true), 0. by repeat split.
  - simpl. destruct (IH (text ++ d)) as (m & opens & final & n & Hfeed & Hopen & Hgrow & Hfin).
    destruct (feed_head (text ++ d) ds) as [tl Htl].
    destruct (ChatInterface.extract text) as [r|] eqn:E.
    + destruct (extract_app _ d _ E) as (r' & E' & Hclosed & Hprefix).
      rewrite E' in Htl. rewrite Htl in Hfeed.
      destruct m as [|m]; [|done]. simpl in Hfeed.
      destruct (ChatInterface.closed r) eqn:Hr.
      * rewrite (Hclosed eq_refl) in *.
        destruct opens as [|o opens].
        -- destruct n as [|n]; [done|]. simpl in Hfeed. injection Hfeed as <- ->.
           exists 0, [], r, (S (S n)). rewrite Htl. by repeat split.
        -- simpl in Hfeed. injection Hfeed as <- ->.
           apply Forall_cons in Hopen as [Ho _]. congruence.
      * destruct opens as [|o opens].
        -- destruct n as [|n]; [done|]. simpl in Hfeed. injection Hfeed as <- ->.
           exists 0, [r], r', (S n). rewrite Htl. simpl.
           repeat split; by repeat constructor.
        -- simpl in Hfeed. injection Hfeed as <- ->.
           exists 0, (r :: r' :: opens), final, n. rewrite Htl. simpl.
           apply Forall_cons in Hopen as Hopen'. destruct Hopen' as [Ho _].
           repeat split; [by constructor | by apply Hprefix | apply Hgrow | done].
    + exists (S m), opens, final, n. rewrite Hfeed. by repeat split.
Qed.

(** ** The two extraction examples *)

(** C7 (as stated, refuted). On the closed input the extracted content is
    not ["<p>hi</p>"]: the white space before the closing fence is kept. *)
Lemma extract_closed_example_not_trimmed :
  ChatInterface.extract (js "abc ```html <p>hi</p> ``` def")
  <> Some (ChatInterface.mkResult (js "<p>hi</p>") true).
Proof. vm_compute. discriminate. Qed.

(** C7 (amended). On the closed input the extraction returns ["<p>hi</p> "],
    the white space after the opening marker skipped and the space before the
    closing fence kept, as a closed result; on the streaming prefix it
    returns ["<p>hi"] as an open result. *)
Theorem extract_examples :
  ChatInterface.extract (js "abc ```html <p>hi</p> ``` def")
    = Some (ChatInterface.mkResult (js "<p>hi</p> ") true) /\
  ChatInterface.extractHtml (js "abc ```html <p>hi</p> ``` def")
    = Some (js "<p>hi</p> ") /\
  ChatInterface.extract (js "abc ```html <p>hi")
    = Some (ChatInterface.mkResult (js "<p>hi") false) /\
  ChatInterface.extractHtml (js "abc ```html <p>hi") = Some (js "<p>hi").
Proof. repeat split; vm_compute; reflexivity. Qed.

(** ** Stripping a block from the display text *)

Section StripBlock.
Import ChatInterface.

Lemma find_drop pat (s : jsstring) i k :
  find pat s = Some i -> k <= i -> find pat (drop k s) = Some (i - k).
Proof.
  revert i k; induction s as [|c s IH]; intros i k; simpl.
  - destruct (startsWith pat []) eqn:E; [|done]. intros [= <-] Hk.
    assert (k = 0) as -> by lia. simpl. by rewrite E.
  - destruct (startsWith pat (c :: s)) eqn:E.
    + intros [= <-] Hk. assert (k = 0) as -> by lia. simpl. by rewrite E.
    + destruct (find pat s) as [j|] eqn:F; [|done]. simpl. intros [= <-] Hk.
      destruct k as [|k]; simpl.
      * by rewrite E, F.
      * apply IH; [done | lia].
Qed.

Lemma removeFirstBlock_cut openTag (pre body post : jsstring) :
  find openTag (pre ++ openTag ++ body ++ endMarker ++ post) = Some (length pre) ->
  find endMarker (body ++ endMarker ++ post) = Some (length body) ->
  removeFirstBlock openTag (pre ++ openTag ++ body ++ endMarker ++ post)
  = pre ++ post.
Proof.
  intros Hopen Hend. unfold removeFirstBlock, indexOf. rewrite Hopen.
  rewrite drop_app_add', drop_app_length by done.
  rewrite Hend. cbn.
  rewrite take_app_length. f_equal.
  replace (length pre + length openTag + length body + length endMarker)
    with (length pre + (length openTag + (length body + length endMarker))) by lia.
  rewrite drop_app_add', drop_app_add', drop_app_add' by done.
  reflexivity.
Qed.

Lemma removeFirstBlock_absent openTag (s : jsstring) :
  find openTag s = None -> removeFirstBlock openTag s = s.
Proof. unfold removeFirstBlock. by intros ->. Qed.

Lemma extractHtml_absent (s : jsstring) :
  find startMarker s = None -> extractHtml s = None.
Proof. unfold extractHtml, extract, matchOpen. by intros ->. Qed.

Lemma extractHtml_block (pre body post : jsstring) :
  find startMarker (pre ++ startMarker ++ body ++ endMarker ++ post)
    = Some (length pre) ->
  find endMarker (body ++ endMarker ++ post) = Some (length body) ->
  spaceRun body < length body ->
  extractHtml (pre ++ startMarker ++ body ++ endMarker ++ post)
  = Some (drop (spaceRun body) body).
Proof.
  intros Hopen Hend Hbody. unfold extractHtml, extract, matchOpen, indexOf.
  rewrite Hopen. rewrite drop_app_add', drop_app_length by done.
  rewrite spaceRun_app_short by done.
  rewrite drop_app_add', drop_app_add' by done.
  rewrite (find_drop _ _ _ _ Hend) by lia. cbn.
  unfold substring. rewrite drop_app_add', drop_app_add' by done.
  rewrite drop_app_le by lia. f_equal.
  rewrite take_app_length'; [done|]. rewrite length_drop. lia.
Qed.

End StripBlock.

(** C8 (as stated, refuted). The first text holds one opening html marker,
    and the block it opens is closed with content ["x"]; stripping leaves a
    text in which ["x"] still occurs, and stripping a second time changes it
    again. In the second text the closed html block has no content, and
    stripping leaves the block where it is. *)
Lemma stripBlock_not_idempotent :
  let text := js "x```ht```html x```ml z```" in
  occurrences ChatInterface.startMarker text = 1 /\
  ChatInterface.extract text = Some (ChatInterface.mkResult (js "x") true) /\
  ChatInterface.stripBlock ChatInterface.html text = js "x```html z```" /\
  includes (js "x") (ChatInterface.stripBlock ChatInterface.html text) 0 = true /\
  ChatInterface.stripBlock ChatInterface.html
    (ChatInterface.stripBlock ChatInterface.html text)
  <> ChatInterface.stripBlock ChatInterface.html text /\
  ChatInterface.extract (js "a ```html ``` b") = Some (ChatInterface.mkResult [] true) /\
  ChatInterface.stripBlock ChatInterface.html (js "a ```html ``` b")
  = js "a ```html ``` b".
Proof.
  repeat split; try (vm_compute; reflexivity). vm_compute. discriminate.
Qed.

(** C8 (amended). Let the text be [pre ++ open ++ body ++ fence ++ post],
    where [open] is the leftmost opening marker of the tag, the fence is the
    first one after it, the body of an html block is not only white space,
    and [pre ++ post] holds no opening marker of the tag. Then stripping cuts
    the block out, leaving [pre ++ post], and stripping again changes
    nothing. *)
Theorem stripBlock_cut_idempotent (tag : ChatInterface.Tag) (pre body post : jsstring) :
  let text := pre ++ ChatInterface.openMarker tag ++ body
              ++ ChatInterface.endMarker ++ post in
  find (ChatInterface.openMarker tag) text = Some (length pre) ->
  find ChatInterface.endMarker (body ++ ChatInterface.endMarker ++ post)
    = Some (length body) ->
  (tag = ChatInterface.html -> spaceRun body < length body) ->
  find (ChatInterface.openMarker tag) (pre ++ post) = None ->
  ChatInterface.stripBlock tag text = pre ++ post /\
  ChatInterface.stripBlock tag (ChatInterface.stripBlock tag text)
    = ChatInterface.stripBlock tag text.
Proof.
  intros text Hopen Hend Hbody Hrest.
  assert (ChatInterface.stripBlock tag (pre ++ post) = pre ++ post) as Hid.
  { destruct tag; cbn [ChatInterface.stripBlock ChatInterface.openMarker] in *.
    - by rewrite extractHtml_absent.
    - by apply removeFirstBlock_absent. }
  assert (ChatInterface.stripBlock tag text = pre ++ post) as Hcut.
  { subst text. destruct tag; cbn [ChatInterface.stripBlock ChatInterface.openMarker] in *.
    - rewrite extractHtml_block by auto.
      unfold ChatInterface.stripHtml.
      destruct (drop (spaceRun body) body) eqn:D.
      { apply (f_equal length) in D. rewrite length_drop in D. simpl in D.
        specialize (Hbody eq_refl). lia. }
      rewrite removeFirstBlock_cut by done.
      unfold indexOf. rewrite drop_0, Hrest. done.
    - by apply removeFirstBlock_cut. }
  by rewrite Hcut, Hid.
Qed.

(** A text with one closed html block between two pieces of prose. *)
Lemma stripBlock_cut_idempotent_witness :
  ChatInterface.stripBlock ChatInterface.html (js "A ```html <b>x</b> ``` B")
    = js "A  B" /\
  ChatInterface.stripBlock ChatInterface.html
    (ChatInterface.stripBlock ChatInterface.html (js "A ```html <b>x</b> ``` B"))
    = ChatInterface.stripBlock ChatInterface.html (js "A ```html <b>x</b> ``` B").
Proof.
  apply (stripBlock_cut_idempotent ChatInterface.html (js "A ") (js " <b>x</b> ") (js " B")).
  - vm_compute; reflexivity.
  - vm_compute; reflexivity.
  - intros _. vm_compute. lia.
  - vm_compute; reflexivity.
Defined.

(** ** Attachments: inline or by reference *)

Section Attachments.
Import GeminiService.

Lemma aboveThreshold_spec file :
  aboveThreshold file = true <-> (9 < sizeMB file)%Q.
Proof.
  unfold aboveThreshold. rewrite negb_true_iff, <- not_true_iff_false, Qle_bool_iff.
  split; [apply Qnot_le_lt | apply Qlt_not_le].
Qed.

Lemma belowCeiling_spec file :
  belowCeiling file = true <-> (sizeMB file < 18)%Q.
Proof.
  unfold belowCeiling. rewrite negb_true_iff, <- not_true_iff_false, Qle_bool_iff.
  split; [apply Qnot_le_lt | apply Qlt_not_le].
Qed.

Lemma aboveThreshold_false file :
  aboveThreshold file = false <-> (sizeMB file <= 9)%Q.
Proof.
  rewrite <- not_true_iff_false, aboveThreshold_spec.
  split; [apply Qnot_lt_le | apply Qle_not_lt].
Qed.

Lemma belowCeiling_false file :
  belowCeiling file = false <-> (18 <= sizeMB file)%Q.
Proof.
  rewrite <- not_true_iff_false, belowCeiling_spec.
  split; [apply Qnot_lt_le | apply Qle_not_lt].
Qed.

(** The size of a file whose data is [n] copies of a character. *)
Lemma sizeMB_replicate nm mt (n : N) (c : N) :
  sizeMB (mkFile nm (replicate (N.to_nat n) c) mt)
  = ((inject_Z (Z.of_N n) * (3 # 4)) / inject_Z (1024 * 1024))%Q.
Proof. unfold sizeMB. cbn [data]. by rewrite length_replicate, N_nat_Z. Qed.

(** The loop over the files only uploads. *)
Lemma buildParts_effects up files parts :
  Forall (fun e => exists n, e = EUpload n) (buildParts up files parts).1.
Proof.
  revert parts; induction files as [|f files IH]; intros parts; simpl; [constructor|].
  destruct (resolveFile up f) as [part|e].
  - specialize (IH (parts ++ [part])).
    destruct (buildParts up files (parts ++ [part])) as [tr r]. simpl in *.
    destruct (aboveThreshold f); simpl; [constructor|]; eauto.
  - destruct (aboveThreshold f); simpl; repeat constructor; eauto.
Qed.

Lemma uploads_no_attempts tr :
  Forall (fun e => exists n, e = EUpload n) tr ->
  attempts tr = [] /\ delays tr = [] /\ yields tr = [] /\ sends tr = [].
Proof.
  induction 1 as [|e tr [n ->] _ IH]; [done|].
  unfold attempts, delays, yields, sends in *. simpl. tauto.
Qed.

(** A file whose resolution throws makes the loop over the files throw. *)
Lemma buildParts_throws up files parts file e :
  file ∈ files -> resolveFile up file = inr e ->
  exists e', (buildParts up files parts).2 = inr e'.
Proof.
  intros Hin Hres. revert parts.
  induction files as [|f files IH]; intros parts; [by apply elem_of_nil in Hin|].
  simpl. destruct (resolveFile up f) as [part|e0] eqn:R.
  - apply elem_of_cons in Hin as [->|Hin]; [congruence|].
    destruct (IH Hin (parts ++ [part])) as [e' He'].
    destruct (buildParts up files (parts ++ [part])) as [tr r]. eauto.
  - eauto.
Qed.

(** An attempt in which the loop over the files throws sends no request. *)
Lemma tryOnce_throws svc msg files k e :
  (buildParts (upload svc k) files []).2 = inr e ->
  (tryOnce svc msg files k).2 = Some e /\ sends (tryOnce svc msg files k).1 = [].
Proof.
  unfold tryOnce. pose proof (buildParts_effects (upload svc k) files []) as Hup.
  destruct (buildParts (upload svc k) files []) as [tr [parts|err]]; simpl in *; [done|].
  intros [= ->]. apply uploads_no_attempts in Hup as (_ & _ & _ & Hs).
  split; [done|]. unfold sends in *. simpl. done.
Qed.

End Attachments.


(** ** The retry loop *)

Section Retry.
Import GeminiService.
Variables (svc : Service) (msg : jsstring) (files : list FileData).

Lemma attemptLoop_unfold remaining attempt :
  attemptLoop svc msg files (S remaining) attempt =
  match tryOnce svc msg files attempt with
  | (tr, None) => mkGen tr Returned
  | (tr, Some error) =>
      if retryable error && (attempt + 1 <? maxAttempts) then
        let rest := attemptLoop svc msg files remaining (attempt + 1) in
        mkGen (tr ++ EDelay (1000 * (attempt + 1)) :: effects rest) (outcome rest)
      else mkGen tr (Thrown (friendlyError error))
  end.
Proof. reflexivity. Qed.

Lemma omap_yield {A} (f : Effect -> option A) (cs : list jsstring) :
  (forall c, f (EYield c) = None) -> omap f (EYield <$> cs) = [].
Proof. intros Hf. induction cs as [|c cs IH]; simpl; [done|]. by rewrite Hf. Qed.

(** One attempt announces itself once and never waits. *)
Lemma tryOnce_attempts k :
  attempts (tryOnce svc msg files k).1 = [k] /\
  delays (tryOnce svc msg files k).1 = [].
Proof.
  unfold tryOnce. pose proof (buildParts_effects (upload svc k) files []) as Hup.
  apply uploads_no_attempts in Hup as (Ha & Hd & _ & _).
  destruct (buildParts (upload svc k) files []) as [tr [parts|err]]; simpl in *.
  - unfold attempts, delays in *. simpl.
    rewrite !omap_app, Ha, Hd. simpl. by rewrite !omap_yield.
  - unfold attempts, delays in *. simpl. by rewrite Ha, Hd.
Qed.

Lemma tryOnce_yields k :
  yields (tryOnce svc msg files k).1
  = match buildParts (upload svc k) files [] with
    | (_, inl parts) =>
        filter (fun c => truthy c = true)
          (chunks (sendMessageStream svc k (parts ++ [textPart msg])))
    | (_, inr _) => []
    end.
Proof.
  unfold tryOnce. pose proof (buildParts_effects (upload svc k) files []) as Hup.
  apply uploads_no_attempts in Hup as (_ & _ & Hy & _).
  destruct (buildParts (upload svc k) files []) as [tr [parts|err]]; simpl in *.
  - unfold yields in *. simpl. rewrite omap_app, Hy. simpl.
    generalize (filter (fun c => truthy c = true)
                  (chunks (sendMessageStream svc k (parts ++ [textPart msg])))).
    intros l. induction l as [|c l IH]; [done|]. cbn. by f_equal.
  - unfold yields in *. simpl. by rewrite Hy.
Qed.

End Retry.

Section RetryCases.
Import GeminiService.
Variables (svc : Service) (msg : jsstring) (files : list FileData).

(** The three rounds of the loop written out. *)
Lemma attemptLoop_cases :
  let t := tryOnce svc msg files in
  attemptLoop svc msg files maxAttempts 0 =
  match (t 0).2 with
  | None => mkGen (t 0).1 Returned
  | Some e0 =>
      if retryable e0 then
        match (t 1).2 with
        | None => mkGen ((t 0).1 ++ EDelay 1000 :: (t 1).1) Returned
        | Some e1 =>
            if retryable e1 then
              match (t 2).2 with
              | None =>
                  mkGen ((t 0).1 ++ EDelay 1000 :: (t 1).1 ++ EDelay 2000 :: (t 2).1)
                    Returned
              | Some e2 =>
                  mkGen ((t 0).1 ++ EDelay 1000 :: (t 1).1 ++ EDelay 2000 :: (t 2).1)
                    (Thrown (friendlyError e2))
              end
            else mkGen ((t 0).1 ++ EDelay 1000 :: (t 1).1) (Thrown (friendlyError e1))
        end
      else mkGen (t 0).1 (Thrown (friendlyError e0))
  end.
Proof.
  intros t. subst t. unfold maxAttempts. rewrite attemptLoop_unfold.
  destruct (tryOnce svc msg files 0) as [tr0 [e0|]]; [|done]. cbn [fst snd].
  destruct (retryable e0); [|done]. cbn [andb Nat.ltb Nat.leb Nat.add].
  rewrite attemptLoop_unfold.
  destruct (tryOnce svc msg files 1) as [tr1 [e1|]]; [|done]. cbn [fst snd].
  destruct (retryable e1); [|done]. cbn [andb Nat.ltb Nat.leb Nat.add].
  rewrite attemptLoop_unfold.
  destruct (tryOnce svc msg files 2) as [tr2 [e2|]]; [|done]. cbn [fst snd].
  rewrite andb_false_r. done.
Qed.

(** The six ways a call can go. *)
Lemma retry_shape :
  sessionFailure svc = None ->
  let run := streamMessage svc msg files in
  let err := attemptError svc msg files in
  let att := attempts (effects run) in
  let del := delays (effects run) in
  (err 0 = None /\ att = [0] /\ del = [] /\ outcome run = Returned) \/
  (exists e0, err 0 = Some e0 /\ retryable e0 = false /\
     att = [0] /\ del = [] /\ outcome run = Thrown (friendlyError e0)) \/
  (exists e0, err 0 = Some e0 /\ retryable e0 = true /\ err 1 = None /\
     att = [0; 1] /\ del = [1000] /\ outcome run = Returned) \/
  (exists e0 e1, err 0 = Some e0 /\ retryable e0 = true /\
     err 1 = Some e1 /\ retryable e1 = false /\
     att = [0; 1] /\ del = [1000] /\ outcome run = Thrown (friendlyError e1)) \/
  (exists e0 e1, err 0 = Some e0 /\ retryable e0 = true /\
     err 1 = Some e1 /\ retryable e1 = true /\ err 2 = None /\
     att = [0; 1; 2] /\ del = [1000; 2000] /\ outcome run = Returned) \/
  (exists e0 e1 e2, err 0 = Some e0 /\ retryable e0 = true /\
     err 1 = Some e1 /\ retryable e1 = true /\ err 2 = Some e2 /\
     att = [0; 1; 2] /\ del = [1000; 2000] /\
     outcome run = Thrown (friendlyError e2)).
Proof.
  intros Hs run err att del.
  assert (run = attemptLoop svc msg files maxAttempts 0) as Hrun
    by (subst run; unfold streamMessage; by rewrite Hs).
  rewrite attemptLoop_cases in Hrun. cbv zeta in Hrun.
  subst err att del. unfold attemptError.
  pose proof (tryOnce_attempts svc msg files 0) as [A0 D0].
  pose proof (tryOnce_attempts svc msg files 1) as [A1 D1].
  pose proof (tryOnce_attempts svc msg files 2) as [A2 D2].
  clearbody run.
  destruct (tryOnce svc msg files 0) as [tr0 [e0|]]; cbn [fst snd] in *.
  2:{ left. subst run. by cbn [effects outcome]. }
  destruct (retryable e0) eqn:R0.
  2:{ right; left. exists e0. subst run. by cbn [effects outcome]. }
  assert (attempts (tr0 ++ EDelay 1000 :: (tryOnce svc msg files 1).1) = [0; 1] /\
          delays (tr0 ++ EDelay 1000 :: (tryOnce svc msg files 1).1) = [1000])
    as [A01 D01].
  { unfold attempts, delays in *. rewrite !omap_app, A0, D0. cbn [omap list_omap app].
    by rewrite A1, D1. }
  assert (forall tr2, attempts tr2 = [2] -> delays tr2 = [] ->
            attempts (tr0 ++ EDelay 1000 :: (tryOnce svc msg files 1).1
                      ++ EDelay 2000 :: tr2) = [0; 1; 2] /\
            delays (tr0 ++ EDelay 1000 :: (tryOnce svc msg files 1).1
                    ++ EDelay 2000 :: tr2) = [1000; 2000]) as A012.
  { intros tr2 B2 C2. unfold attempts, delays in *.
    rewrite !omap_app, A0, D0. cbn [omap list_omap app].
    rewrite !omap_app, A1, D1. cbn [omap list_omap app]. by rewrite B2, C2. }
  destruct (tryOnce svc msg files 1) as [tr1 [e1|]]; cbn [fst snd] in *.
  2:{ do 2 right; left. exists e0. subst run. by cbn [effects outcome]. }
  destruct (retryable e1) eqn:R1.
  2:{ do 3 right; left. exists e0, e1. subst run. by cbn [effects outcome]. }
  destruct (A012 _ A2 D2) as [A D].
  destruct (tryOnce svc msg files 2) as [tr2 [e2|]]; cbn [fst snd] in *.
  - do 5 right. exists e0, e1, e2. subst run. by cbn [effects outcome].
  - do 4 right; left. exists e0, e1. subst run. by cbn [effects outcome].
Qed.

End RetryCases.

Section RetryTest.
Import GeminiService.


End RetryTest.





(** C3 (as stated, refuted). A file whose estimated size is exactly 9 MB is
    at the threshold, yet it is embedded inline and no upload is tried; and
    for a file at the ceiling whose upload fails with an overload message,
    the thrown error is retried, so the exchange does not fail at once. *)
Lemma threshold_is_exclusive :
  let atThreshold := GeminiService.mkFile (js "a.pdf")
                       (replicate (N.to_nat 12582912) 65%N) (js "application/pdf") in
  let atCeiling := GeminiService.mkFile (js "b.pdf")
                       (replicate (N.to_nat 25165824) 65%N) (js "application/pdf") in
  let svc := GeminiService.mkService None
               (fun _ _ => GeminiService.UploadFailed (Some (js "503 Service Unavailable")))
               (fun _ _ => GeminiService.mkStream [] None) in
  (GeminiService.sizeMB atThreshold == 9)%Q /\
  GeminiService.resolveFile (fun _ => GeminiService.Uploaded (js "application/pdf") (js "uri"))
    atThreshold
  = inl (GeminiService.inlineData (GeminiService.mimeType atThreshold)
           (GeminiService.data atThreshold)) /\
  (GeminiService.sizeMB atCeiling == 18)%Q /\
  GeminiService.attempts
    (GeminiService.effects (GeminiService.streamMessage svc (js "go") [atCeiling]))
  = [0; 1; 2].
Proof.
  intros atThreshold atCeiling svc.
  assert (GeminiService.sizeMB atThreshold == 9)%Q as H9
    by (unfold atThreshold; rewrite sizeMB_replicate; vm_compute; reflexivity).
  assert (GeminiService.sizeMB atCeiling == 18)%Q as H18
    by (unfold atCeiling; rewrite sizeMB_replicate; vm_compute; reflexivity).
  assert (GeminiService.aboveThreshold atThreshold = false) as Hlow
    by (apply aboveThreshold_false; rewrite H9; apply Qle_refl).
  assert (GeminiService.aboveThreshold atCeiling = true) as Hhigh
    by (apply aboveThreshold_spec; rewrite H18; reflexivity).
  assert (GeminiService.belowCeiling atCeiling = false) as Hceil
    by (apply belowCeiling_false; rewrite H18; apply Qle_refl).
  assert (GeminiService.retryable
            (GeminiService.newError
               (GeminiService.tooLargeMessage atCeiling (Some (js "503 Service Unavailable"))))
          = true) as Hretry.
  { unfold GeminiService.tooLargeMessage, atCeiling. rewrite sizeMB_replicate.
    vm_compute. reflexivity. }
  assert (GeminiService.resolveFile
            (fun _ => GeminiService.Uploaded (js "application/pdf") (js "uri")) atThreshold
          = inl (GeminiService.inlineData (GeminiService.mimeType atThreshold)
                   (GeminiService.data atThreshold))) as Hres.
  { unfold GeminiService.resolveFile. by rewrite Hlow. }
  clearbody atThreshold atCeiling.
  split; [exact H9|]. split; [exact Hres|]. split; [exact H18|].
  assert (forall k, GeminiService.attemptError svc (js "go") [atCeiling] k
                    = Some (GeminiService.newError
                              (GeminiService.tooLargeMessage atCeiling
                                 (Some (js "503 Service Unavailable"))))) as Herr.
  { intros k. apply tryOnce_throws. cbn [GeminiService.buildParts].
    unfold GeminiService.resolveFile. cbn [GeminiService.upload svc].
    by rewrite Hhigh, Hceil. }
  destruct (retry_shape svc (js "go") [atCeiling] eq_refl)
    as [(E0 & _)
      |[(e0 & E0 & R0 & _)
      |[(e0 & E0 & R0 & E1 & _)
      |[(e0 & e1 & E0 & R0 & E1 & R1 & _)
      |[(e0 & e1 & E0 & R0 & E1 & R1 & E2 & _)
      |(e0 & e1 & e2 & E0 & R0 & E1 & R1 & E2 & HA & _)]]]]];
    rewrite ?Herr in *; simplify_eq; try congruence.
Qed.

(** C3 (amended). For each file of a request, in the attempt numbered [k]:
    an estimated size of at most 9 MB gives an inline part; a size above 9 MB
    gives a reference to the uploaded file when the upload succeeds; when the
    upload fails, a size below 18 MB gives an inline part, and a size of
    18 MB or more makes the attempt throw the too-large error, with no
    request sent in that attempt. (What the call does with that error is
    decided by the retry rule, as for any other error.) *)
Theorem attachment_routes (svc : GeminiService.Service) (msg : jsstring)
    (files : list GeminiService.FileData) (k : nat) (file : GeminiService.FileData) :
  let up := GeminiService.upload svc k in
  let inline := GeminiService.inlineData (GeminiService.mimeType file)
                  (GeminiService.data file) in
  ((GeminiService.sizeMB file <= 9)%Q ->
     GeminiService.resolveFile up file = inl inline) /\
  ((9 < GeminiService.sizeMB file)%Q ->
     forall mime uri, up file = GeminiService.Uploaded mime uri ->
     GeminiService.resolveFile up file = inl (GeminiService.fileData mime uri)) /\
  ((9 < GeminiService.sizeMB file)%Q -> (GeminiService.sizeMB file < 18)%Q ->
     forall m, up file = GeminiService.UploadFailed m ->
     GeminiService.resolveFile up file = inl inline) /\
  ((18 <= GeminiService.sizeMB file)%Q ->
     forall m, up file = GeminiService.UploadFailed m ->
     GeminiService.resolveFile up file
       = inr (GeminiService.newError (GeminiService.tooLargeMessage file m)) /\
     (file ∈ files ->
      exists e, GeminiService.attemptError svc msg files k = Some e /\
                GeminiService.sends (GeminiService.tryOnce svc msg files k).1 = [])).
Proof.
  intros up inline. unfold GeminiService.resolveFile.
  split; [|split; [|split]].
  - intros H%aboveThreshold_false. by rewrite H.
  - intros H%aboveThreshold_spec mime uri Hup. by rewrite H, Hup.
  - intros H%aboveThreshold_spec Hc%belowCeiling_spec m Hup. by rewrite H, Hup, Hc.
  - intros Hc m Hup.
    assert (GeminiService.aboveThreshold file = true) as H.
    { apply aboveThreshold_spec. eapply Qlt_le_trans; [|exact Hc]. reflexivity. }
    apply belowCeiling_false in Hc.
    assert (GeminiService.resolveFile up file
            = inr (GeminiService.newError (GeminiService.tooLargeMessage file m))) as Hres.
    { unfold GeminiService.resolveFile. by rewrite H, Hup, Hc. }
    split; [exact Hres|]. intros Hin.
    destruct (buildParts_throws up files [] file _ Hin Hres) as [e He].
    exists e. by apply tryOnce_throws.
Qed.

(** A small file is embedded inline. *)
Lemma attachment_routes_witness :
  let file := GeminiService.mkFile (js "a.pdf") (js "JVBERi0xLjQ=") (js "application/pdf") in
  let svc := GeminiService.mkService None
               (fun _ _ => GeminiService.UploadFailed None)
               (fun _ _ => GeminiService.mkStream [] None) in
  (GeminiService.sizeMB file <= 9)%Q /\
  GeminiService.resolveFile (GeminiService.upload svc 0) file
  = inl (GeminiService.inlineData (js "application/pdf") (js "JVBERi0xLjQ=")).
Proof.
  intros file svc.
  assert (GeminiService.sizeMB file <= 9)%Q as H by (vm_compute; discriminate).
  split; [exact H|].
  exact (proj1 (attachment_routes svc (js "go") [file] 0 file) H).
Defined.

(** ** Plan execution *)

(** The setters on a state that is written out. *)
Lemma setMessages_mk f a b c d e g h i j k l m :
  App.setMessages f (App.mkState a b c d e g h i j k l m)
  = App.mkState a (f b) c d e g h i j k l m.
Proof. reflexivity. Qed.

Lemma setInput_mk v a b c d e g h i j k l m :
  App.setInput v (App.mkState a b c d e g h i j k l m)
  = App.mkState a b v d e g h i j k l m.
Proof. reflexivity. Qed.

Lemma setAppState_mk v a b c d e g h i j k l m :
  App.setAppState v (App.mkState a b c d e g h i j k l m)
  = App.mkState a b c v e g h i j k l m.
Proof. reflexivity. Qed.

Lemma setSentFileNames_mk f a b c d e g h i j k l m :
  App.setSentFileNames f (App.mkState a b c d e g h i j k l m)
  = App.mkState a b c d (f e) g h i j k l m.
Proof. reflexivity. Qed.

Lemma setCurrentPlan_mk v a b c d e g h i j k l m :
  App.setCurrentPlan v (App.mkState a b c d e g h i j k l m)
  = App.mkState a b c d e v h i j k l m.
Proof. reflexivity. Qed.

Lemma setExecutionStep_mk v a b c d e g h i j k l m :
  App.setExecutionStep v (App.mkState a b c d e g h i j k l m)
  = App.mkState a b c d e g v i j k l m.
Proof. reflexivity. Qed.

Lemma setAbortController_mk v a b c d e g h i j k l m :
  App.setAbortController v (App.mkState a b c d e g h i j k l m)
  = App.mkState a b c d e g h v j k l m.
Proof. reflexivity. Qed.

Lemma setNextId_mk v a b c d e g h i j k l m :
  App.setNextId v (App.mkState a b c d e g h i j k l m)
  = App.mkState a b c d e g h i v k l m.
Proof. reflexivity. Qed.

Lemma setTasks_mk f a b c d e g h i j k l m :
  App.setTasks f (App.mkState a b c d e g h i j k l m)
  = App.mkState a b c d e g h i j (f k) l m.
Proof. reflexivity. Qed.

Lemma setNextTask_mk v a b c d e g h i j k l m :
  App.setNextTask v (App.mkState a b c d e g h i j k l m)
  = App.mkState a b c d e g h i j k v m.
Proof. reflexivity. Qed.

Lemma addLog_mk tr a b c d e g h i j k l m :
  App.addLog tr (App.mkState a b c d e g h i j k l m)
  = App.mkState a b c d e g h i j k l (m ++ tr).
Proof. reflexivity. Qed.

(** From here on the setters are rewritten by these equations only. *)
Opaque App.setMessages App.setInput App.setAppState App.setSentFileNames
  App.setCurrentPlan App.setExecutionStep App.setAbortController App.setNextId
  App.setTasks App.setNextTask App.addLog.

Ltac fields :=
  repeat (progress rewrite ?setMessages_mk, ?setInput_mk, ?setAppState_mk,
            ?setSentFileNames_mk, ?setCurrentPlan_mk, ?setExecutionStep_mk,
            ?setAbortController_mk, ?setNextId_mk, ?setTasks_mk, ?setNextTask_mk,
            ?addLog_mk);
  cbn [App.files App.messages App.input App.appState App.sentFileNames
       App.currentPlan App.executionStep App.abortControllerRef App.nextId
       App.tasks App.nextTask App.log].

Ltac fields_everywhere :=
  repeat (progress rewrite ?setMessages_mk, ?setInput_mk, ?setAppState_mk,
            ?setSentFileNames_mk, ?setCurrentPlan_mk, ?setExecutionStep_mk,
            ?setAbortController_mk, ?setNextId_mk, ?setTasks_mk, ?setNextTask_mk,
            ?addLog_mk in *);
  cbn [App.files App.messages App.input App.appState App.sentFileNames
       App.currentPlan App.executionStep App.abortControllerRef App.nextId
       App.tasks App.nextTask App.log] in *.

Section PlanExecution.
Import ChatInterface GeminiService App.
Variable JSON_parse : jsstring -> option (option ExecutionPlan).

Lemma nextYield_some tr pre c rest :
  nextYield tr = (pre, Some (c, rest)) ->
  tr = pre ++ rest /\ yields tr = c :: yields rest.
Proof.
  revert pre; induction tr as [|e tr IH]; intros pre; [done|].
  destruct e; simpl;
    try (destruct (nextYield tr) as [d r]; intros [= <- ->];
         destruct (IH d eq_refl) as [-> Hy]; by split).
  intros [= <- <- <-]. done.
Qed.

Lemma nextYield_none tr pre :
  nextYield tr = (pre, None) -> pre = tr /\ yields tr = [].
Proof.
  revert pre; induction tr as [|e tr IH]; intros pre; [by intros [= <-]|].
  destruct e; simpl;
    try (destruct (nextYield tr) as [d r]; intros [= <- ->];
         destruct (IH d eq_refl) as [-> Hy]; by split).
Qed.

Lemma nextYield_no_yields tr :
  yields tr = [] -> nextYield tr = (tr, None).
Proof.
  intros Hy. destruct (nextYield tr) as [pre [[c rest]|]] eqn:N.
  - apply nextYield_some in N as [_ N]. congruence.
  - by apply nextYield_none in N as [-> _].
Qed.

(** Updating the last message of the transcript by its id. *)
Lemma updateMessage_last target f base m :
  Forall (fun m' => id m' < target) base -> id m = target ->
  updateMessage target f (base ++ [m]) = base ++ [f m].
Proof.
  intros Hbase Hid. unfold updateMessage. rewrite fmap_app. simpl.
  rewrite Hid, Nat.eqb_refl. f_equal.
  induction Hbase as [|m' base Hm _ IH]; [done|]. simpl.
  destruct (Nat.eqb_spec (id m') target); [lia|]. f_equal. exact IH.
Qed.

Context (frame : State) (others : gmap nat Task) (tid : nat)
        (plan : ExecutionPlan) (services : nat -> Service).

(** A chunk arrives for the running step. *)
Lemma pull_chunk i base mid txt resp lu tr out L now pre c rest :
  Forall (fun m => id m < mid) base ->
  nextYield tr = (pre, Some (c, rest)) ->
  exists txt' lu',
    pull JSON_parse tid now
      (atStep frame others tid plan services i base mid txt resp lu (mkGen tr out) L)
    = atStep frame others tid plan services i base mid txt' (resp ++ c) lu'
        (mkGen rest out) (L ++ pre)
    /\ (txt' = txt \/ stepHeader i (stepText plan i) `prefix_of` txt').
Proof.
  intros Hbase Hy. unfold pull, atStep. cbn [tasks].
  rewrite lookup_insert_eq. unfold pullPlan. cbn [effects outcome]. rewrite Hy.
  cbn [aborted addLog abortControllerRef].
  destruct (200 <? now - lu)%Z.
  - eexists _, _. fields.
    rewrite updateMessage_last by done. rewrite insert_insert_eq.
    split; [reflexivity|]. right. by apply prefix_app_r.
  - eexists _, _. fields. rewrite insert_insert_eq. split; [reflexivity | by left].
Qed.

(** All the chunks of the running step arrive. *)
Lemma pull_chunks i base mid out nows :
  Forall (fun m => id m < mid) base ->
  forall tr txt resp lu L,
  length nows = length (yields tr) ->
  stepHeader i (stepText plan i) `prefix_of` txt ->
  exists txt' lu' pre tail,
    run JSON_parse
      (atStep frame others tid plan services i base mid txt resp lu (mkGen tr out) L)
      (Pull tid <$> nows)
    = atStep frame others tid plan services i base mid txt'
        (resp ++ concat (yields tr)) lu' (mkGen tail out) (L ++ pre)
    /\ tr = pre ++ tail /\ yields tail = []
    /\ stepHeader i (stepText plan i) `prefix_of` txt'.
Proof.
  intros Hbase. induction nows as [|now nows IH]; intros tr txt resp lu L Hlen Htxt.
  - destruct (yields tr) eqn:Hy; [|done].
    exists txt, lu, [], tr. cbn. by rewrite !app_nil_r.
  - simpl in Hlen. destruct (nextYield tr) as [pre [[c rest]|]] eqn:N.
    2:{ apply nextYield_none in N as [_ N]. rewrite N in Hlen. done. }
    destruct (pull_chunk i base mid txt resp lu tr out L now pre c rest Hbase N)
      as (txt1 & lu1 & Hpull & Htxt1).
    apply nextYield_some in N as [-> Hy]. rewrite Hy in Hlen. simpl in Hlen.
    destruct (IH rest txt1 (resp ++ c) lu1 (L ++ pre))
      as (txt' & lu' & pre' & tail & Hrun & -> & Htail & Htxt'); [lia| |].
    { by destruct Htxt1 as [->|]. }
    exists txt', lu', (pre ++ pre'), tail. unfold run in *.
    cbn [foldl fmap list_fmap step]. rewrite Hpull, Hrun, Hy. cbn [concat].
    by rewrite <- !(assoc_L (++)).
Qed.

(** The stream of the running step ends normally: the step message is
    completed and the loop goes on with the next step, or ends. *)
Lemma pull_end_ok i base mid txt resp lu tail L now :
  Forall (fun m => id m < mid) base ->
  yields tail = [] ->
  pull JSON_parse tid now
    (atStep frame others tid plan services i base mid txt resp lu (mkGen tail Returned) L)
  = let transcript :=
      base ++ [mkMessage mid model (stepHeader i (stepText plan i) ++ resp)
                 false false None] in
    match steps plan !! (i + 1) with
    | Some _ =>
        atStep frame others tid plan services (i + 1) transcript (S mid)
          (stepHeader (i + 1) (stepText plan (i + 1))) [] now
          (stepRun plan services (i + 1)) (L ++ tail)
    | None => planEnded frame others tid transcript (S mid) (L ++ tail)
    end.
Proof.
  intros Hbase Hy. unfold pull, atStep. cbn [tasks].
  rewrite lookup_insert_eq. unfold pullPlan. cbn [effects outcome].
  rewrite (nextYield_no_yields _ Hy). unfold stepDone. fields.
  cbn [aborted abortControllerRef]. fields.
  rewrite updateMessage_last by done. rewrite updateMessage_last by done.
  unfold startStep, stepText. fields. cbn [aborted abortControllerRef].
  destruct (steps plan !! (i + 1)) as [next|] eqn:Hnext; cbn zeta.
  - fields. unfold atStep, stepRun, stepText. rewrite Hnext. cbn [default].
    rewrite insert_insert_eq. reflexivity.
  - unfold planDone, planEnded. fields. by rewrite delete_insert_eq.
Qed.

(** The stream of the running step throws: the step message is marked as
    an error and the handler returns. *)
Lemma pull_end_throw i base mid txt resp lu tail L now errorMessage :
  Forall (fun m => id m < mid) base ->
  yields tail = [] ->
  pull JSON_parse tid now
    (atStep frame others tid plan services i base mid txt resp lu
       (mkGen tail (Thrown errorMessage)) L)
  = planFailed frame others tid
      (base ++ [mkMessage mid model
                  (txt ++ executionStopped
                   ++ (if truthy errorMessage then errorMessage
                       else js "Unknown error occurred."))
                  true false None])
      i (S mid) (L ++ tail).
Proof.
  intros Hbase Hy. unfold pull, atStep. cbn [tasks].
  rewrite lookup_insert_eq. unfold pullPlan. cbn [effects outcome].
  rewrite (nextYield_no_yields _ Hy). fields.
  rewrite updateMessage_last by done.
  unfold planFailed. by rewrite delete_insert_eq.
Qed.

Lemma run_app st evs1 evs2 :
  run JSON_parse st (evs1 ++ evs2) = run JSON_parse (run JSON_parse st evs1) evs2.
Proof. unfold run. apply foldl_app. Qed.

(** A list of [S n] time stamps has a last one. *)
Lemma split_last (nows : list Z) n :
  length nows = S n -> exists front now, nows = front ++ [now] /\ length front = n.
Proof.
  destruct nows as [|a l] using rev_ind; [done|]. rewrite length_app. simpl.
  intros H. exists l, a. split; [done | lia].
Qed.

(** A whole step that succeeds. *)
Lemma run_step_ok i base mid L now0 nows :
  Forall (fun m => id m < mid) base ->
  outcome (stepRun plan services i) = Returned ->
  length nows = pullsOfStep plan services i ->
  exists now,
    run JSON_parse
      (atStep frame others tid plan services i base mid
         (stepHeader i (stepText plan i)) [] now0 (stepRun plan services i) L)
      (Pull tid <$> nows)
    = let transcript :=
        base ++ [mkMessage mid model
                   (stepHeader i (stepText plan i)
                    ++ concat (yields (effects (stepRun plan services i))))
                   false false None] in
      match steps plan !! (i + 1) with
      | Some _ =>
          atStep frame others tid plan services (i + 1) transcript (S mid)
            (stepHeader (i + 1) (stepText plan (i + 1))) [] now
            (stepRun plan services (i + 1)) (L ++ effects (stepRun plan services i))
      | None =>
          planEnded frame others tid transcript (S mid)
            (L ++ effects (stepRun plan services i))
      end.
Proof.
  intros Hbase Hout Hlen. unfold pullsOfStep in Hlen.
  destruct (split_last _ _ Hlen) as (front & now & -> & Hfront).
  exists now. rewrite fmap_app, run_app.
  destruct (stepRun plan services i) as [tr out] eqn:Hrun. cbn [effects outcome] in *.
  subst out.
  destruct (pull_chunks i base mid Returned front Hbase tr
              (stepHeader i (stepText plan i)) [] now0 L Hfront)
    as (txt' & lu' & pre & tail & -> & -> & Htail & _); [done|].
  cbn [fmap list_fmap run foldl step]. rewrite pull_end_ok by done.
  by rewrite <- (assoc_L (++)).
Qed.

(** A whole step that throws. *)
Lemma run_step_throw i base mid L now0 nows errorMessage :
  Forall (fun m => id m < mid) base ->
  outcome (stepRun plan services i) = Thrown errorMessage ->
  length nows = pullsOfStep plan services i ->
  exists txt,
    stepHeader i (stepText plan i) `prefix_of` txt /\
    run JSON_parse
      (atStep frame others tid plan services i base mid
         (stepHeader i (stepText plan i)) [] now0 (stepRun plan services i) L)
      (Pull tid <$> nows)
    = planFailed frame others tid
        (base ++ [mkMessage mid model txt true false None])
        i (S mid) (L ++ effects (stepRun plan services i)).
Proof.
  intros Hbase Hout Hlen. unfold pullsOfStep in Hlen.
  destruct (split_last _ _ Hlen) as (front & now & -> & Hfront).
  rewrite fmap_app, run_app.
  destruct (stepRun plan services i) as [tr out] eqn:Hrun. cbn [effects outcome] in *.
  subst out.
  destruct (pull_chunks i base mid (Thrown errorMessage) front Hbase tr
              (stepHeader i (stepText plan i)) [] now0 L Hfront)
    as (txt' & lu' & pre & tail & -> & -> & Htail & Htxt); [done|].
  cbn [fmap list_fmap run foldl step]. rewrite pull_end_throw by done.
  eexists. split; [|by rewrite <- (assoc_L (++))].
  by apply prefix_app_r.
Qed.

(** [k] steps in a row that succeed, from step [i] on. *)
Lemma run_steps_ok firstId k :
  forall i base L now0 nows,
  Forall (fun m => id m < firstId + i) base ->
  i < length (steps plan) -> i + k <= length (steps plan) ->
  (forall j, i <= j < i + k -> outcome (stepRun plan services j) = Returned) ->
  length nows = pullsOfSteps plan services i k ->
  exists now,
    run JSON_parse
      (atStep frame others tid plan services i base (firstId + i)
         (stepHeader i (stepText plan i)) [] now0 (stepRun plan services i) L)
      (Pull tid <$> nows)
    = let transcript := base ++ (completedStep firstId plan services <$> seq i k) in
      let logged := L ++ concat ((fun j => effects (stepRun plan services j)) <$> seq i k) in
      match steps plan !! (i + k) with
      | Some _ =>
          atStep frame others tid plan services (i + k) transcript (firstId + (i + k))
            (stepHeader (i + k) (stepText plan (i + k))) [] now
            (stepRun plan services (i + k)) logged
      | None => planEnded frame others tid transcript (firstId + (i + k)) logged
      end.
Proof.
  induction k as [|k IH]; intros i base L now0 nows Hbase Hi Hik Hok Hlen.
  - destruct nows; [|done]. exists now0. cbn. rewrite Nat.add_0_r, !app_nil_r.
    destruct (lookup_lt_is_Some_2 _ _ Hi) as [x ->]. reflexivity.
  - cbn [pullsOfSteps] in Hlen.
    assert (nows = take (pullsOfStep plan services i) nows
                   ++ drop (pullsOfStep plan services i) nows) as Hsplit
      by (by rewrite take_drop).
    rewrite Hsplit, fmap_app, run_app.
    destruct (run_step_ok i base (firstId + i) L now0
                (take (pullsOfStep plan services i) nows)) as [now1 ->];
      [done | apply Hok; lia | rewrite length_take; lia |].
    cbn zeta. cbn [seq fmap list_fmap concat].
    replace (i + S k) with (i + 1 + k) by lia.
    destruct (steps plan !! (i + 1)) as [next|] eqn:Hnext.
    + replace (S (firstId + i)) with (firstId + (i + 1)) by lia.
      replace (S i) with (i + 1) by lia.
      apply lookup_lt_Some in Hnext.
      destruct (IH (i + 1)
                  (base ++ [mkMessage (firstId + i) model
                     (stepHeader i (stepText plan i)
                      ++ concat (yields (effects (stepRun plan services i))))
                     false false None])
                  (L ++ effects (stepRun plan services i)) now1
                  (drop (pullsOfStep plan services i) nows)) as [now2 ->].
      * apply Forall_app. split.
        -- eapply Forall_impl; [exact Hbase|]. simpl. intros; lia.
        -- constructor; [simpl; lia | constructor].
      * done.
      * lia.
      * intros j Hj. apply Hok. lia.
      * rewrite length_drop. lia.
      * exists now2. cbn zeta. unfold completedStep at 2 4.
        by rewrite <- !(assoc_L (++)).
    + apply lookup_ge_None in Hnext. assert (k = 0) as -> by lia.
      exists now1. replace (i + 1 + 0) with (i + 1) by lia.
      rewrite (proj2 (lookup_ge_None _ _) Hnext).
      replace (drop (pullsOfStep plan services i) nows) with (@nil Z).
      2:{ symmetry. apply length_zero_iff_nil. rewrite length_drop.
          cbn [pullsOfSteps] in Hlen. lia. }
      cbn. unfold completedStep.
      replace (S (firstId + i)) with (firstId + (i + 1)) by lia.
      by rewrite !app_nil_r.
Qed.

Lemma pullsOfSteps_snoc i k :
  pullsOfSteps plan services i (S k)
  = pullsOfSteps plan services i k + pullsOfStep plan services (i + k).
Proof.
  revert i; induction k as [|k IH]; intros i.
  - cbn [pullsOfSteps]. rewrite !Nat.add_0_r. reflexivity.
  - change (pullsOfSteps plan services i (S (S k)))
      with (pullsOfStep plan services i + pullsOfSteps plan services (i + 1) (S k)).
    rewrite IH. cbn [pullsOfSteps]. replace (i + 1 + k) with (i + S k) by lia. lia.
Qed.

(** [executePlan] up to the first call of [streamMessage]. *)
Lemma executePlan_start st now0 :
  currentPlan st = Some plan -> 0 < length (steps plan) ->
  executePlan now0 services st
  = atStep (setNextTask (S (nextTask st)) st) (tasks st) (nextTask st) plan services 0
      (messages st) (nextId st) (stepHeader 0 (stepText plan 0)) [] now0
      (stepRun plan services 0) (log st).
Proof.
  intros Hplan Hlen. unfold executePlan. rewrite Hplan.
  destruct st as [fs ms inp state sent cp es ab nid ts nt lg]. cbn in Hplan. subst cp.
  fields. unfold startStep, stepRun, stepText.
  destruct (lookup_lt_is_Some_2 _ _ Hlen) as [step0 ->].
  cbn [aborted abortControllerRef default]. fields.
  unfold atStep. fields. reflexivity.
Qed.

End PlanExecution.

(** ** Message ids *)

Section MessageIds.
Import ChatInterface GeminiService App.
Variable JSON_parse : jsstring -> option (option ExecutionPlan).

Lemma ids_update n target f ms :
  (forall m, id (f m) = id m) ->
  Forall (fun m => id m < n) ms ->
  Forall (fun m => id m < n) (updateMessage target f ms).
Proof.
  intros Hf Hms. unfold updateMessage. apply Forall_fmap.
  eapply Forall_impl; [exact Hms|]. intros m Hm. simpl.
  destruct (id m =? target); [by rewrite Hf | done].
Qed.

Lemma ids_weaken n ms :
  Forall (fun m => id m < n) ms -> Forall (fun m => id m < S n) ms.
Proof. intros H. eapply Forall_impl; [exact H|]. simpl. intros; lia. Qed.

Lemma ids_snoc n ms m :
  Forall (fun m => id m < n) ms -> id m < n ->
  Forall (fun m => id m < n) (ms ++ [m]).
Proof. intros H Hm. apply Forall_app. split; [done | by constructor]. Qed.

Lemma ids_removelast n (ms : list Message) :
  Forall (fun m => id m < n) ms -> Forall (fun m => id m < n) (removelast ms).
Proof.
  induction 1 as [|m ms Hm Hms IH]; [constructor|].
  simpl. destruct ms; [constructor|]. by constructor.
Qed.

Lemma ids_last n (ms : list Message) m :
  Forall (fun m => id m < n) ms -> last ms = Some m -> id m < n.
Proof.
  intros H Hl. apply last_Some in Hl as [ms' ->].
  by apply Forall_app in H as [_ [? _]%Forall_cons].
Qed.

Ltac ids :=
  repeat first
    [ assumption
    | apply ids_update; [by intros [] |]
    | apply ids_snoc; [| cbn [id]; lia]
    | apply ids_weaken
    | apply ids_removelast ].

(** The handlers keep the ids of the transcript below the next fresh id, so
    a message added later never shares its id with an earlier one. *)
Lemma idsInUse_step st ev : idsInUse st -> idsInUse (step JSON_parse st ev).
Proof.
  unfold idsInUse. destruct st as [fs ms inp state sent cp es ab nid ts nt lg].
  cbn [messages nextId]. intros Hms.
  destruct ev; cbn [step];
    unfold handleSendMessage, stopGeneration, executePlan, cancelPlan, pull,
      pullSend, pullPlan, sendDone, stepDone, startStep, planDone, aborted;
    fields; try done;
    repeat (case_match; fields_everywhere; simplify_eq; try done);
    try (by ids).
  all: apply ids_snoc; [by ids|]. 
  all: cbn [id withText withStreaming]; by eapply ids_last.
Qed.

Lemma idsInUse_run st evs : idsInUse st -> idsInUse (run JSON_parse st evs).
Proof.
  revert st; induction evs as [|ev evs IH]; intros st Hst; [done|].
  cbn. apply IH. by apply idsInUse_step.
Qed.

Lemma idsInUse_initial fs : idsInUse (initial fs).
Proof. constructor. Qed.

End MessageIds.

(** C2. Let a plan be approved in a state whose message ids are all in use
    (as they are in every state the handlers reach), let its steps before
    step [k] succeed and step [k] throw, and let the handler be resumed as
    often as these steps need, at any times. Then the state is idle and the
    handler is gone; the transcript is the one before, unchanged, followed by
    the completed messages of the steps before [k] and by the message of step
    [k], marked as an error and no longer streaming; and the effects
    performed are those of steps [0] to [k] only, so no later step was
    started. *)
Theorem failed_step_halts_plan (JSON_parse : jsstring -> option (option App.ExecutionPlan))
    (st : App.State) (plan : App.ExecutionPlan)
    (services : nat -> GeminiService.Service) (now0 : Z) (nows : list Z)
    (k : nat) (errorMessage : jsstring) :
  App.currentPlan st = Some plan ->
  App.idsInUse st ->
  k < length (App.steps plan) ->
  (forall j, j < k ->
     GeminiService.outcome (App.stepRun plan services j) = GeminiService.Returned) ->
  GeminiService.outcome (App.stepRun plan services k)
    = GeminiService.Thrown errorMessage ->
  length nows = App.pullsOfSteps plan services 0 (S k) ->
  let tid := App.nextTask st in
  let st' := App.run JSON_parse (App.executePlan now0 services st)
               (App.Pull tid <$> nows) in
  App.appState st' = App.idle /\
  App.tasks st' !! tid = None /\
  (exists failed,
     App.messages st'
     = App.messages st
       ++ (App.completedStep (App.nextId st) plan services <$> seq 0 k) ++ [failed] /\
     App.id failed = App.nextId st + k /\
     App.isError failed = true /\ App.isStreaming failed = false /\
     App.stepHeader k (App.stepText plan k) `prefix_of` App.text failed) /\
  App.log st'
  = App.log st
    ++ concat ((fun j => GeminiService.effects (App.stepRun plan services j))
               <$> seq 0 (S k)).
Proof.
  intros Hplan Hids Hk Hok Hfail Hlen tid st'. subst tid st'.
  rewrite (executePlan_start plan services st now0 Hplan) by lia.
  rewrite pullsOfSteps_snoc in Hlen. cbn [Nat.add] in Hlen.
  rewrite <- (take_drop (App.pullsOfSteps plan services 0 k) nows).
  rewrite fmap_app, run_app.
  set (frame := App.setNextTask (S (App.nextTask st)) st).
  destruct (run_steps_ok JSON_parse frame (App.tasks st) (App.nextTask st) plan services
              (App.nextId st) k 0 (App.messages st) (App.log st) now0
              (take (App.pullsOfSteps plan services 0 k) nows)) as [now1 Hrun].
  { eapply Forall_impl; [exact Hids|]. simpl. intros; lia. }
  { lia. }
  { lia. }
  { intros j Hj. apply Hok. lia. }
  { rewrite length_take. lia. }
  rewrite Nat.add_0_r in Hrun. rewrite Hrun. clear Hrun. cbn zeta.
  change (0 + k) with k.
  destruct (lookup_lt_is_Some_2 _ _ Hk) as [stepk ->].
  destruct (run_step_throw JSON_parse frame (App.tasks st) (App.nextTask st) plan services
              k (App.messages st ++ (App.completedStep (App.nextId st) plan services <$> seq 0 k))
              (App.nextId st + k)
              (App.log st ++ concat ((fun j => GeminiService.effects (App.stepRun plan services j))
                                     <$> seq 0 k))
              now1 (drop (App.pullsOfSteps plan services 0 k) nows) errorMessage)
    as (txt & Htxt & ->).
  { apply Forall_app. split.
    - eapply Forall_impl; [exact Hids|]. simpl. intros; lia.
    - apply Forall_fmap, Forall_forall. intros j Hj%elem_of_seq. simpl. lia. }
  { done. }
  { rewrite length_drop. lia. }
  unfold App.planFailed. fields.
  split; [done|]. split; [apply lookup_delete_eq|]. split.
  - eexists. split; [by rewrite <- (assoc_L (++))|]. by repeat split.
  - rewrite seq_S, fmap_app, concat_app. cbn. by rewrite app_nil_r, <- (assoc_L (++)).
Qed.

(** The plan ["T"] with steps ["a"], ["b"], ["c"], whose second step is
    rejected by the safety filter. *)
Lemma failed_step_halts_plan_witness :
  let plan := App.mkPlan (js "T") [js "a"; js "b"; js "c"] in
  let services := fun i : nat =>
    GeminiService.mkService None
      (fun _ _ => GeminiService.UploadFailed None)
      (fun _ _ =>
         match i with
         | 0 => GeminiService.mkStream [js "one"] None
         | 1 => GeminiService.mkStream []
                  (Some (GeminiService.newError (js "blocked: SAFETY")))
         | _ => GeminiService.mkStream [js "three"] None
         end) in
  let st := App.mkState [] [] [] App.waiting_approval ∅ (Some plan) 0 None 0 ∅ 0 [] in
  let st' := App.run (fun _ => None) (App.executePlan 0 services st)
               (App.Pull 0 <$> [10; 20; 30]%Z) in
  App.appState st' = App.idle /\
  App.tasks st' !! 0 = None /\
  App.isError <$> App.messages st' = [false; true] /\
  App.isStreaming <$> App.messages st' = [false; false] /\
  GeminiService.attempts (App.log st') = [0; 0].
Proof.
  intros plan services st st'.
  assert (GeminiService.outcome (App.stepRun plan services 1)
          = GeminiService.Thrown
              (js "Safety Filter Triggered: The content was flagged by safety settings."))
    as Hfail by (vm_compute; reflexivity).
  assert (forall j, j < 1 ->
            GeminiService.outcome (App.stepRun plan services j) = GeminiService.Returned)
    as Hok.
  { intros j Hj. assert (j = 0) as -> by lia. vm_compute. reflexivity. }
  assert (1 < length (App.steps plan)) as Hk by (simpl; lia).
  destruct (failed_step_halts_plan (fun _ => None) st plan services 0 [10; 20; 30]%Z 1 _
              eq_refl (Forall_nil_2 _) Hk Hok Hfail eq_refl)
    as (Hidle & Htask & _ & _).
  split; [exact Hidle|]. split; [exact Htask|].
  repeat split; vm_compute; reflexivity.
Defined.

(** ** Sending while an exchange is in flight *)

Section Sending.
Import ChatInterface GeminiService App.

Lemma streamingCount_app st extra :
  length (filter (fun m => isStreaming m = true) (messages st ++ extra))
  = streamingCount st + length (filter (fun m => isStreaming m = true) extra).
Proof. unfold streamingCount. by rewrite filter_app, length_app. Qed.

(** [handleSendMessage] starts an exchange in every state but [executing]:
    a second streaming message is added next to one that is there. *)
Lemma handleSendMessage_starts_exchange st text now svc :
  blank text = false -> appState st <> executing -> files st <> [] ->
  streamingCount (handleSendMessage text now svc st) = S (streamingCount st) /\
  appState (handleSendMessage text now svc st) = planning.
Proof.
  intros Htext Hstate Hfiles. unfold handleSendMessage. rewrite Htext.
  rewrite bool_decide_eq_false_2 by done. cbn [orb].
  destruct st as [fs ms inp state sent cp es ab nid ts nt lg]. cbn [files] in *.
  destruct fs as [|f fs]; [done|]. fields.
  split; [|done]. unfold streamingCount. fields.
  rewrite <- (assoc_L (++)). rewrite filter_app, length_app.
  cbn [filter list_filter app length]. rewrite !decide_False by done.
  rewrite decide_True by done. cbn [length]. lia.
Qed.

(** The send button, unlike the Enter key, is refused outside [idle]. *)
Lemma clickSend_refused JSON_parse st now svc :
  appState st <> idle -> step JSON_parse st (ClickSend now svc) = st.
Proof.
  intros Hstate. cbn [step]. unfold sendButtonDisabled.
  rewrite (bool_decide_eq_false_2 (appState st = idle)) by done.
  cbn [negb]. by rewrite !orb_true_r.
Qed.

End Sending.

(** C9 (the code at the failing input). With one file uploaded, the user
    sends ["one"] with the Enter key; while that exchange is streaming (state
    [planning]) the send button is refused, but typing ["two"] and pressing
    Enter starts a second exchange: two messages are streaming and two
    handler calls are suspended. *)
Theorem enter_sends_while_planning :
  let file := GeminiService.mkFile (js "a.pdf") (js "JVBERi0xLjQ=") (js "application/pdf") in
  let svc := GeminiService.mkService None
               (fun _ _ => GeminiService.UploadFailed None)
               (fun _ _ => GeminiService.mkStream [js "reply"] None) in
  let parse := fun _ : jsstring => @None (option App.ExecutionPlan) in
  let st1 := App.run parse (App.initial [file])
               [App.TypeInput (js "one"); App.KeyEnter 0 svc] in
  let st2 := App.run parse st1 [App.TypeInput (js "two"); App.KeyEnter 5 svc] in
  App.appState st1 = App.planning /\
  App.streamingCount st1 = 1 /\
  App.step parse st1 (App.ClickSend 5 svc) = st1 /\
  App.appState st2 = App.planning /\
  App.streamingCount st2 = 2 /\
  App.isStreaming <$> App.messages st2 = [false; true; false; true] /\
  size (App.tasks st2) = 2.
Proof.
  intros file svc parse st1 st2.
  split; [vm_compute; reflexivity|]. split; [vm_compute; reflexivity|].
  split; [apply clickSend_refused; vm_compute; discriminate|].
  repeat split; vm_compute; reflexivity.
Qed.

(** ** Stopping a stream *)

Section Stopping.
Import ChatInterface GeminiService App.
Variable JSON_parse : jsstring -> option (option ExecutionPlan).

(** No handler ever finds the abort flag set: the only call of [abort()] is
    followed at once by setting the ref to null. *)
Lemma abort_flag_never_seen st ev :
  aborted st = false -> aborted (step JSON_parse st ev) = false.
Proof.
  intros Hst. unfold aborted in *.
  destruct st as [fs ms inp state sent cp es ab nid ts nt lg].
  cbn [abortControllerRef] in Hst. destruct ab as [[|]|]; [done| |];
  (destruct ev; cbn [step];
    unfold handleSendMessage, stopGeneration, executePlan, cancelPlan, pull,
      pullSend, pullPlan, sendDone, stepDone, startStep, planDone, aborted;
    fields; try done;
    repeat (case_match; fields_everywhere; simplify_eq; try done)).
Qed.

Lemma abort_flag_never_seen_run st evs :
  aborted st = false -> aborted (run JSON_parse st evs) = false.
Proof.
  revert st; induction evs as [|ev evs IH]; intros st Hst; [done|].
  cbn. apply IH. by apply abort_flag_never_seen.
Qed.

End Stopping.

(** C6 (the code at the failing input). The first attempt yields ["Hel"] and
    then fails with an overload error; the user presses Stop after that
    delta. The message then reads ["Hel"] with the stopped marker and the
    state is idle. But the handler is still suspended; when it is resumed,
    the generator waits, starts attempt 1 and yields ["Hello"], which is
    consumed, and the text of the message becomes ["HelHello"], without the
    marker. *)
Theorem stop_does_not_end_exchange :
  let file := GeminiService.mkFile (js "a.pdf") (js "JVBERi0xLjQ=") (js "application/pdf") in
  let svc := GeminiService.mkService None
    (fun _ _ => GeminiService.UploadFailed None)
    (fun k _ =>
       match k with
       | 0 => GeminiService.mkStream [js "Hel"]
                (Some (GeminiService.newError (js "503 Service Unavailable")))
       | _ => GeminiService.mkStream [js "Hello"] None
       end) in
  let parse := fun _ : jsstring => @None (option App.ExecutionPlan) in
  let stopped := App.run parse (App.initial [file])
                   [App.TypeInput (js "hi"); App.KeyEnter 0 svc;
                    App.Pull 0 1000; App.ClickStop] in
  let final := App.run parse stopped [App.Pull 0 2000; App.Pull 0 3000] in
  App.text <$> App.messages stopped
    = [js "hi"; js "Hel" ++ [10; 10]%N ++ js "**[Stopped by User]**"] /\
  App.appState stopped = App.idle /\
  App.abortControllerRef stopped = None /\
  is_Some (App.tasks stopped !! 0) /\
  GeminiService.attempts (App.log stopped) = [0] /\
  GeminiService.yields (App.log stopped) = [js "Hel"] /\
  App.text <$> App.messages final = [js "hi"; js "HelHello"] /\
  GeminiService.attempts (App.log final) = [0; 1] /\
  GeminiService.delays (App.log final) = [1000] /\
  GeminiService.yields (App.log final) = [js "Hel"; js "Hello"].
Proof.
  intros file svc parse stopped final.
  repeat split; try (vm_compute; reflexivity).
  vm_compute. eexists. reflexivity.
Qed.

(** ** The end of a plan *)

Section PlanEnd.
Import ChatInterface GeminiService App.
Variable JSON_parse : jsstring -> option (option ExecutionPlan).

(** When every step of an approved plan succeeds, the component ends in the
    state [completed], with the plan cleared and the step counter reset. *)
Lemma plan_success_ends_completed st plan services now0 nows :
  currentPlan st = Some plan ->
  Forall (fun m => id m < nextId st) (messages st) ->
  0 < length (steps plan) ->
  (forall j, j < length (steps plan) -> outcome (stepRun plan services j) = Returned) ->
  length nows = pullsOfSteps plan services 0 (length (steps plan)) ->
  run JSON_parse (executePlan now0 services st) (Pull (nextTask st) <$> nows)
  = planEnded (setNextTask (S (nextTask st)) st) (tasks st) (nextTask st)
      (messages st
       ++ (completedStep (nextId st) plan services <$> seq 0 (length (steps plan))))
      (nextId st + length (steps plan))
      (log st ++ concat ((fun j => effects (stepRun plan services j))
                         <$> seq 0 (length (steps plan)))).
Proof.
  intros Hplan Hids Hlen Hok Hnows.
  rewrite (executePlan_start plan services st now0 Hplan) by done.
  destruct (run_steps_ok JSON_parse (setNextTask (S (nextTask st)) st) (tasks st)
              (nextTask st) plan services (nextId st) (length (steps plan)) 0
              (messages st) (log st) now0 nows) as [now1 Hrun]; try done.
  { eapply Forall_impl; [exact Hids|]. simpl. intros; lia. }
  { intros j Hj. apply Hok. lia. }
  rewrite Nat.add_0_r in Hrun. rewrite Hrun. cbn zeta.
  change (0 + length (steps plan)) with (length (steps plan)).
  by rewrite (proj2 (lookup_ge_None (steps plan) (length (steps plan)))) by lia.
Qed.

(** In the state [completed] the text area and the send button are out of
    use. *)
Lemma completed_blocks_sending st now svc value :
  appState st = completed ->
  step JSON_parse st (KeyEnter now svc) = st /\
  step JSON_parse st (ClickSend now svc) = st /\
  step JSON_parse st (TypeInput value) = st.
Proof.
  intros Hstate. cbn [step]. unfold textareaDisabled, stopButtonShown. rewrite Hstate.
  cbn. by rewrite !orb_true_r.
Qed.

End PlanEnd.

(** C5 (the code at the failing input). The model answers a request with a
    plan of the single step ["a"]; the user approves it and the step
    succeeds. The state is then [completed], with the plan cleared, and it is
    not [idle]; in that state neither the Enter key nor the send button nor
    typing does anything. Only a press on the stop button, which is the one
    shown, brings the state to [idle]. *)
Theorem completed_plan_is_not_idle :
  let plan := App.mkPlan (js "T") [js "a"] in
  let quoted := fun s : string => [34%N] ++ js s ++ [34%N] in
  let planJson := js "{" ++ quoted "title"%string ++ js ":" ++ quoted "T"%string
                  ++ js "," ++ quoted "steps"%string ++ js ":["
                  ++ quoted "a"%string ++ js "]}" in
  let parse := fun captured : jsstring =>
    if bool_decide (captured = planJson) then Some (Some plan) else None in
  let planner := GeminiService.mkService None
    (fun _ _ => GeminiService.UploadFailed None)
    (fun _ _ => GeminiService.mkStream
                  [js "This is a large task. ```json" ++ [10%N] ++ planJson
                   ++ [10%N] ++ js "```"] None) in
  let services := fun _ : nat =>
    GeminiService.mkService None
      (fun _ _ => GeminiService.UploadFailed None)
      (fun _ _ => GeminiService.mkStream [js "done"] None) in
  let file := GeminiService.mkFile (js "a.pdf") (js "JVBERi0xLjQ=") (js "application/pdf") in
  let proposed := App.run parse (App.initial [file])
    [App.TypeInput (js "Create a full course"); App.KeyEnter 0 planner;
     App.Pull 0 10; App.Pull 0 20] in
  let st' := App.run parse proposed
    [App.ClickApprove 30 services; App.Pull 1 40; App.Pull 1 50] in
  App.appState proposed = App.waiting_approval /\
  App.currentPlan proposed = Some plan /\
  App.appState st' = App.completed /\
  App.appState st' <> App.idle /\
  App.currentPlan st' = None /\
  App.executionStep st' = 0 /\
  App.tasks st' = ∅ /\
  App.isStreaming <$> App.messages st' = [false; false; false] /\
  App.step parse st' (App.KeyEnter 60 planner) = st' /\
  App.step parse (App.step parse st' (App.TypeInput (js "next"))) (App.ClickSend 60 planner)
    = st' /\
  App.stopButtonShown st' = true /\
  App.appState (App.step parse st' App.ClickStop) = App.idle.
Proof.
  intros plan quoted planJson parse planner services file proposed st'.
  assert (App.appState st' = App.completed) as Hstate by (vm_compute; reflexivity).
  destruct (completed_blocks_sending parse st' 60 planner (js "next") Hstate)
    as (Henter & Hsend & Htype).
  do 2 (split; [vm_compute; reflexivity|]).
  split; [exact Hstate|]. split; [rewrite Hstate; discriminate|].
  do 4 (split; [vm_compute; reflexivity|]).
  split; [exact Henter|]. split; [rewrite Htype; exact Hsend|].
  split; vm_compute; reflexivity.
Qed.

(** ** A retry after a partial response *)

Section SendStreaming.
Import ChatInterface GeminiService App.
Variable JSON_parse : jsstring -> option (option ExecutionPlan).
Context (frame : State) (others : gmap nat Task) (tid : nat).

(** A chunk arrives for the reply that is streaming. *)
Lemma pull_send_chunk base mid txt fs full lu tr out L now pre c rest :
  Forall (fun m => id m < mid) base ->
  nextYield tr = (pre, Some (c, rest)) ->
  exists txt' lu',
    pull JSON_parse tid now
      (atSend frame others tid base mid txt fs full lu (mkGen tr out) L)
    = atSend frame others tid base mid txt' fs (full ++ c) lu' (mkGen rest out) (L ++ pre).
Proof.
  intros Hbase Hy. unfold pull, atSend. cbn [tasks].
  rewrite lookup_insert_eq. unfold pullSend. cbn [effects outcome]. rewrite Hy.
  cbn [aborted addLog abortControllerRef].
  destruct (200 <? now - lu)%Z.
  - eexists _, _. fields.
    rewrite updateMessage_last by done. rewrite insert_insert_eq. reflexivity.
  - eexists _, _. fields. rewrite insert_insert_eq. reflexivity.
Qed.

(** All the chunks of the reply arrive: the handler has put them together,
    in order, in [fullResponse]. *)
Lemma pull_send_chunks base mid fs out nows :
  Forall (fun m => id m < mid) base ->
  forall tr txt full lu L,
  length nows = length (yields tr) ->
  exists txt' lu' pre tail,
    run JSON_parse
      (atSend frame others tid base mid txt fs full lu (mkGen tr out) L)
      (Pull tid <$> nows)
    = atSend frame others tid base mid txt' fs (full ++ concat (yields tr)) lu'
        (mkGen tail out) (L ++ pre)
    /\ tr = pre ++ tail /\ yields tail = [].
Proof.
  intros Hbase. induction nows as [|now nows IH]; intros tr txt full lu L Hlen.
  - destruct (yields tr) eqn:Hy; [|done].
    exists txt, lu, [], tr. cbn. by rewrite !app_nil_r.
  - simpl in Hlen. destruct (nextYield tr) as [pre [[c rest]|]] eqn:N.
    2:{ apply nextYield_none in N as [_ N]. rewrite N in Hlen. done. }
    destruct (pull_send_chunk base mid txt fs full lu tr out L now pre c rest Hbase N)
      as (txt1 & lu1 & Hpull).
    apply nextYield_some in N as [-> Hy]. rewrite Hy in Hlen. simpl in Hlen.
    destruct (IH rest txt1 (full ++ c) lu1 (L ++ pre))
      as (txt' & lu' & pre' & tail & Hrun & -> & Htail); [lia|].
    exists txt', lu', (pre ++ pre'), tail. unfold run in *.
    cbn [foldl fmap list_fmap step]. rewrite Hpull, Hrun, Hy. cbn [concat].
    by rewrite <- !(assoc_L (++)).
Qed.

End SendStreaming.

Section SendStart.
Import ChatInterface GeminiService App.

(** [handleSendMessage] up to the call of [streamMessage]. *)
Lemma handleSendMessage_start st text now svc :
  blank text = false -> appState st <> executing -> files st <> [] ->
  let fs := filter (fun f => name f ∉ sentFileNames st) (files st) in
  exists userMessage,
    handleSendMessage text now svc st
    = atSend (setInput [] (setNextTask (S (nextTask st)) st)) (tasks st) (nextTask st)
        (messages st ++ [userMessage]) (S (nextId st)) [] fs [] now
        (streamMessage svc text fs) (log st)
    /\ id userMessage = nextId st /\ role userMessage = user.
Proof.
  intros Htext Hstate Hfiles fs. subst fs. unfold handleSendMessage. rewrite Htext.
  rewrite bool_decide_eq_false_2 by done. cbn [orb].
  destruct st as [fs ms inp state sent cp es ab nid ts nt lg]. cbn [files] in *.
  destruct fs as [|f rest]; [done|]. fields.
  exists (mkMessage nid user
            (if includes (js "[STRICT VISUAL INSTRUCTION") text 0
             then js "**Generating Custom MCQs...** (Applying visual settings)"
             else text) false false None).
  split; [|split; reflexivity].
  unfold atSend. fields. by rewrite <- (assoc_L (++)).
Qed.

End SendStart.

(** C10. When the first attempt of a call fails with a transient error after
    having yielded chunks and the second attempt succeeds, the call yields
    the chunks of the first attempt followed by all the chunks of the second
    and returns normally; nothing takes the first chunks back. And when
    [handleSendMessage] has received all these chunks, at any times, its
    [fullResponse] is the partial response of the first attempt followed by
    the complete response of the second. *)
Theorem retry_keeps_partial_output (JSON_parse : jsstring -> option (option App.ExecutionPlan))
    (st : App.State) (text : jsstring) (now : Z) (svc : GeminiService.Service)
    (e : GeminiService.JsError) (nows : list Z) :
  blank text = false -> App.appState st <> App.executing -> App.files st <> [] ->
  App.idsInUse st ->
  let fs := filter (fun f => GeminiService.name f ∉ App.sentFileNames st) (App.files st) in
  GeminiService.sessionFailure svc = None ->
  GeminiService.attemptError svc text fs 0 = Some e ->
  GeminiService.retryable e = true ->
  GeminiService.attemptError svc text fs 1 = None ->
  let run := GeminiService.streamMessage svc text fs in
  let first := GeminiService.yields (GeminiService.tryOnce svc text fs 0).1 in
  let second := GeminiService.yields (GeminiService.tryOnce svc text fs 1).1 in
  length nows = length (GeminiService.yields (GeminiService.effects run)) ->
  let st' := App.run JSON_parse (App.handleSendMessage text now svc st)
               (App.Pull (App.nextTask st) <$> nows) in
  GeminiService.yields (GeminiService.effects run) = first ++ second /\
  GeminiService.attempts (GeminiService.effects run) = [0; 1] /\
  GeminiService.outcome run = GeminiService.Returned /\
  exists lastUpdate tail,
    App.tasks st' !! App.nextTask st
    = Some (App.SendTask (S (App.nextId st)) fs (concat first ++ concat second)
              lastUpdate (GeminiService.mkGen tail GeminiService.Returned)) /\
    GeminiService.yields tail = [].
Proof.
  intros Htext Hstate Hfiles Hids fs Hs E0 R0 E1 run first second Hlen st'.
  assert (GeminiService.effects run
          = (GeminiService.tryOnce svc text fs 0).1
            ++ GeminiService.EDelay 1000 :: (GeminiService.tryOnce svc text fs 1).1
          /\ GeminiService.outcome run = GeminiService.Returned) as [Heff Hout].
  { subst run. unfold GeminiService.streamMessage, GeminiService.attemptError in *.
    rewrite Hs, attemptLoop_cases. cbn zeta. by rewrite E0, R0, E1. }
  assert (GeminiService.yields (GeminiService.effects run) = first ++ second) as Hy.
  { rewrite Heff. unfold GeminiService.yields. by rewrite omap_app. }
  split; [exact Hy|]. split.
  { rewrite Heff. destruct (tryOnce_attempts svc text fs 0) as [A0 _].
    destruct (tryOnce_attempts svc text fs 1) as [A1 _].
    unfold GeminiService.attempts in *. rewrite omap_app. cbn. by rewrite A0, A1. }
  split; [exact Hout|].
  destruct (handleSendMessage_start st text now svc Htext Hstate Hfiles)
    as (userMessage & Hstart & Hid & _).
  subst st'. rewrite Hstart. fold fs. fold run.
  destruct run as [tr out] eqn:Hrun. cbn [GeminiService.effects GeminiService.outcome] in *.
  subst out.
  destruct (pull_send_chunks JSON_parse
              (App.setInput [] (App.setNextTask (S (App.nextTask st)) st))
              (App.tasks st) (App.nextTask st) (App.messages st ++ [userMessage])
              (S (App.nextId st)) fs GeminiService.Returned nows)
    with (tr := tr) (txt := @nil N) (full := @nil N) (lu := now) (L := App.log st)
    as (txt' & lu' & pre & tail & -> & _ & Htail); [|done|].
  { apply Forall_app. split.
    - eapply Forall_impl; [exact Hids|]. simpl. intros; lia.
    - constructor; [lia | constructor]. }
  exists lu', tail. split; [|done].
  unfold App.atSend. cbn [App.tasks]. rewrite lookup_insert_eq.
  by rewrite Hy, concat_app.
Qed.

(** A first attempt that fails after ["Hel"], then a full response ["Hello"]:
    the handler holds ["HelHello"], and this is the text of the message once
    the stream has ended. *)
Lemma retry_keeps_partial_output_witness :
  let flaky := GeminiService.mkService None
    (fun _ _ => GeminiService.UploadFailed None)
    (fun k _ =>
       match k with
       | 0 => GeminiService.mkStream [js "Hel"]
                (Some (GeminiService.newError (js "503 Service Unavailable")))
       | _ => GeminiService.mkStream [js "Hello"] None
       end) in
  let file := GeminiService.mkFile (js "a.pdf") (js "JVBERi0xLjQ=") (js "application/pdf") in
  let parse := fun _ : jsstring => @None (option App.ExecutionPlan) in
  let st' := App.run parse (App.handleSendMessage (js "hi") 0 flaky (App.initial [file]))
               (App.Pull 0 <$> [10; 20]%Z) in
  (exists lastUpdate tail,
     App.tasks st' !! 0
     = Some (App.SendTask 1 [file] (concat [js "Hel"] ++ concat [js "Hello"])
               lastUpdate (GeminiService.mkGen tail GeminiService.Returned)) /\
     GeminiService.yields tail = []) /\
  App.text <$> App.messages (App.run parse st' [App.Pull 0 30])
  = [js "hi"; js "HelHello"].
Proof.
  intros flaky file parse st'. split; [|vm_compute; reflexivity].
  assert (blank (js "hi") = false) as Htext by (vm_compute; reflexivity).
  assert (App.appState (App.initial [file]) <> App.executing) as Hstate by discriminate.
  assert (App.files (App.initial [file]) <> []) as Hfiles by discriminate.
  assert (GeminiService.attemptError flaky (js "hi") [file] 0
          = Some (GeminiService.newError (js "503 Service Unavailable"))) as E0
    by (vm_compute; reflexivity).
  assert (GeminiService.retryable (GeminiService.newError (js "503 Service Unavailable"))
          = true) as R0 by (vm_compute; reflexivity).
  assert (GeminiService.attemptError flaky (js "hi") [file] 1 = None) as E1
    by (vm_compute; reflexivity).
  exact (proj2 (proj2 (proj2
    (retry_keeps_partial_output parse (App.initial [file]) (js "hi") 0 flaky _ [10; 20]%Z
       Htext Hstate Hfiles (Forall_nil_2 _) eq_refl E0 R0 E1 eq_refl)))).
Defined.

(* ================================================================== *)
(** * Further properties of the code *)


(** ** Fences and white space around an extracted block *)

Section Fences.
Import ChatInterface.
Implicit Types (pat s : jsstring).

Lemma startsWith_take pat s n :
  startsWith pat (take n s) = true -> startsWith pat s = true.
Proof.
  revert s n; induction pat as [|p pat IH]; intros [|c s] [|n]; simpl; try done.
  intros [-> H]%andb_prop. by rewrite (IH _ _ H).
Qed.

(** There is no occurrence before the leftmost one. *)
Lemma find_take_none pat s j m :
  pat <> [] -> find pat s = Some j -> m <= j -> find pat (take m s) = None.
Proof.
  intros Hne. revert j m; induction s as [|c s IH]; intros j m; simpl.
  - destruct pat; [done|]. done.
  - destruct (startsWith pat (c :: s)) eqn:E.
    + intros [= <-] Hm. assert (m = 0) as -> by lia. simpl. by destruct pat.
    + destruct (find pat s) as [j'|] eqn:F; [|done]. simpl. intros [= <-] Hm.
      destruct m as [|m]; simpl; [by destruct pat|].
      destruct (startsWith pat (c :: take m s)) eqn:E'.
      * apply (startsWith_take pat (c :: s) (S m)) in E'. congruence.
      * rewrite (IH j' m) by (done || lia). done.
Qed.

Lemma find_drop_none pat s k :
  find pat s = None -> find pat (drop k s) = None.
Proof.
  revert k; induction s as [|c s IH]; intros k; [by destruct k|].
  intros H. destruct k as [|k]; [done|]. simpl in *.
  destruct (startsWith pat (c :: s)); [done|].
  destruct (find pat s); [done|]. by apply IH.
Qed.

(** An occurrence of a pattern that starts with a character other than
    white space lies behind the white space at the head of the string. *)
Lemma find_behind_spaces p pat s j :
  isSpace p = false -> find (p :: pat) s = Some j -> spaceRun s <= j.
Proof.
  intros Hp. revert j; induction s as [|c s IH]; intros j; simpl; [lia|].
  destruct (p =? c)%N eqn:Ec.
  - apply N.eqb_eq in Ec as <-. rewrite Hp. lia.
  - simpl. destruct (find (p :: pat) s) as [j'|]; [|done]. simpl. intros [= <-].
    specialize (IH j' eq_refl). destruct (isSpace c); lia.
Qed.

Lemma indexOf_behind_spaces s from :
  indexOf endMarker s (from + spaceRun (drop from s)) = indexOf endMarker s from.
Proof.
  unfold indexOf. rewrite <- drop_drop.
  destruct (find endMarker (drop from s)) as [j|] eqn:F.
  - pose proof (find_behind_spaces 96%N (js "``") _ _ eq_refl F) as Hj.
    rewrite (find_drop _ _ _ _ F Hj). simpl. f_equal. lia.
  - by rewrite (find_drop_none _ _ _ F).
Qed.

Lemma spaceRun_drop s : spaceRun (drop (spaceRun s) s) = 0.
Proof.
  induction s as [|c s IH]; [done|]. simpl.
  destruct (isSpace c) eqn:E; simpl; [done | by rewrite E].
Qed.

Lemma spaceRun_take s n : spaceRun s = 0 -> spaceRun (take n s) = 0.
Proof.
  destruct s as [|c s], n as [|n]; simpl; try done.
  destruct (isSpace c); done.
Qed.

Lemma spaceRun_blank s : blank s = bool_decide (spaceRun s = length s).
Proof.
  unfold blank. induction s as [|c s IH]; [done|]. simpl.
  destruct (isSpace c); simpl.
  - rewrite IH. pose proof (spaceRun_le s).
    apply bool_decide_ext. lia.
  - done.
Qed.

Lemma removeFirstBlock_length openTag s :
  length (removeFirstBlock openTag s) <= length s.
Proof.
  unfold removeFirstBlock. destruct (find openTag s) as [i|] eqn:F; [|lia].
  destruct (indexOf endMarker s (i + length openTag)) as [e|] eqn:E; [|lia].
  apply indexOf_bound in E as [Hge _].
  rewrite length_app, length_take, length_drop. lia.
Qed.

Lemma stripHtml_length htmlContent s :
  length (stripHtml htmlContent s) <= length s.
Proof.
  unfold stripHtml. destruct htmlContent as [[|c html]|]; [lia| |lia].
  cbn zeta. pose proof (removeFirstBlock_length startMarker s).
  destruct (indexOf startMarker (removeFirstBlock startMarker s) 0); [|lia].
  destruct (negb _); [|lia].
  unfold substring. rewrite length_take, length_drop. lia.
Qed.

Lemma find_take_None pat s n : find pat s = None -> find pat (take n s) = None.
Proof.
  revert n; induction s as [|c s IH]; intros n; [by destruct n|].
  intros H. destruct n as [|n]; simpl in *.
  - destruct pat; [done|]. done.
  - destruct (startsWith pat (c :: s)) eqn:E; [done|].
    destruct (find pat s) eqn:F; [done|].
    destruct (startsWith pat (c :: take n s)) eqn:E'.
    + apply (startsWith_take pat (c :: s) (S n)) in E'. congruence.
    + by rewrite IH.
Qed.

(** The HTML stage on a text whose block is still open. *)
Lemma stripHtml_open (text : jsstring) (i : nat) :
  find startMarker text = Some i ->
  indexOf endMarker text (i + length startMarker) = None ->
  stripHtml (extractHtml text) text
  = if blank (drop (i + length startMarker) text) then text else take i text.
Proof.
  intros Hopen Hend.
  assert (extractHtml text
          = Some (drop (spaceRun (drop (i + length startMarker) text))
                    (drop (i + length startMarker) text))) as ->.
  { unfold extractHtml, extract, matchOpen.
    rewrite Hopen. rewrite Nat.add_assoc, indexOf_behind_spaces, Hend.
    simpl. by rewrite drop_drop. }
  rewrite spaceRun_blank.
  remember (length startMarker) as k.
  remember (drop (i + k) text) as rest.
  pose proof (spaceRun_le rest) as Hle.
  destruct (drop (spaceRun rest) rest) as [|c html] eqn:Hd.
  - apply (f_equal length) in Hd. rewrite length_drop in Hd. simpl in Hd.
    rewrite bool_decide_eq_true_2 by lia. done.
  - apply (f_equal length) in Hd. rewrite length_drop in Hd. simpl in Hd.
    rewrite bool_decide_eq_false_2 by lia.
    unfold stripHtml. cbn zeta.
    assert (removeFirstBlock startMarker text = text) as ->.
    { unfold removeFirstBlock. rewrite Hopen, <- Heqk, Hend. done. }
    unfold indexOf at 1. rewrite drop_0, Hopen.
    cbn [fmap option_fmap option_map Nat.add].
    unfold includes. rewrite <- Heqk, Hend. cbn [negb].
    unfold substring. by rewrite drop_0, Nat.sub_0_r.
Qed.

End Fences.

(** X1. Whatever the text, the HTML handed to the preview holds no fence and
    does not start with white space: it ends before the first fence after
    the opening marker, and the white space after the marker is skipped. *)
Theorem extractHtml_clean (text htmlContent : jsstring) :
  ChatInterface.extractHtml text = Some htmlContent ->
  includes ChatInterface.endMarker htmlContent 0 = false /\
  spaceRun htmlContent = 0.
Proof.
  unfold ChatInterface.extractHtml, ChatInterface.extract, ChatInterface.matchOpen.
  destruct (find ChatInterface.startMarker text) as [i|]; [|done].
  remember (length ChatInterface.startMarker) as k.
  remember (drop (i + k) text) as rest eqn:Hrest.
  assert (drop (i + (k + spaceRun rest)) text = drop (spaceRun rest) rest) as Hdrop.
  { subst rest. rewrite drop_drop. f_equal. lia. }
  unfold includes, indexOf at 2. rewrite (drop_0 htmlContent).
  unfold indexOf, substring. rewrite Hdrop.
  destruct (find ChatInterface.endMarker (drop (spaceRun rest) rest)) as [j|] eqn:F;
    simpl; intros [= <-].
  - replace (i + (k + spaceRun rest) + j - (i + (k + spaceRun rest))) with j by lia.
    rewrite (find_take_none _ _ j j) by done.
    split; [done|]. apply spaceRun_take, spaceRun_drop.
  - rewrite F. split; [done|]. apply spaceRun_drop.
Qed.

(** The reply ["Here: ```html <p>a</p>``` done"]. *)
Lemma extractHtml_clean_witness :
  ChatInterface.extractHtml (js "Here: ```html <p>a</p>``` done") = Some (js "<p>a</p>") /\
  includes ChatInterface.endMarker (js "<p>a</p>") 0 = false /\
  spaceRun (js "<p>a</p>") = 0.
Proof.
  assert (ChatInterface.extractHtml (js "Here: ```html <p>a</p>``` done")
          = Some (js "<p>a</p>")) as H by (vm_compute; reflexivity).
  split; [exact H|]. exact (extractHtml_clean _ _ H).
Defined.

(** X2. While an HTML block is still open (an opening marker with no fence
    after it), the display text of a model message is computed from the text
    before the marker alone: the text is cut at the marker and a plan block
    is then removed from what is left, so nothing of the open block is
    handed to the Markdown renderer. But as long as only white space has
    followed the marker, the extracted HTML is empty and nothing is cut at
    the marker: the display text is the whole text less a plan block, which
    is the whole text, marker included, when it holds no plan marker. *)
Theorem open_block_is_hidden (text : jsstring) (i : nat) :
  find ChatInterface.startMarker text = Some i ->
  indexOf ChatInterface.endMarker text (i + length ChatInterface.startMarker) = None ->
  let rest := drop (i + length ChatInterface.startMarker) text in
  ChatInterface.displayFullText ChatInterface.model text
  = ChatInterface.removeFirstBlock ChatInterface.jsonMarker
      (if blank rest then text else take i text) /\
  (find ChatInterface.jsonMarker text = None ->
   ChatInterface.displayFullText ChatInterface.model text
   = if blank rest then text else take i text).
Proof.
  intros Hopen Hend rest.
  assert (ChatInterface.displayFullText ChatInterface.model text
          = ChatInterface.removeFirstBlock ChatInterface.jsonMarker
              (if blank rest then text else take i text)) as Hdisplay.
  { unfold ChatInterface.displayFullText. f_equal.
    exact (stripHtml_open text i Hopen Hend). }
  split; [exact Hdisplay|].
  intros Hjson. rewrite Hdisplay. unfold ChatInterface.removeFirstBlock.
  destruct (blank rest); [by rewrite Hjson|].
  by rewrite (find_take_None _ _ i Hjson).
Qed.

(** A block that is streaming; one of which only the marker and a line
    break have arrived; and such a block behind the marker of a plan block,
    which is then cut up to the fence of the HTML marker. *)
Lemma open_block_is_hidden_witness :
  ChatInterface.displayFullText ChatInterface.model (js "Here: ```html <p>a")
  = js "Here: " /\
  ChatInterface.displayFullText ChatInterface.model (js "Here: ```html ")
  = js "Here: ```html " /\
  ChatInterface.displayFullText ChatInterface.model (js "```json x ```html ")
  = js "html ".
Proof.
  split; [|split].
  - rewrite (proj2 (open_block_is_hidden (js "Here: ```html <p>a") 6 eq_refl eq_refl) eq_refl).
    vm_compute; reflexivity.
  - rewrite (proj2 (open_block_is_hidden (js "Here: ```html ") 6 eq_refl eq_refl) eq_refl).
    vm_compute; reflexivity.
  - rewrite (proj1 (open_block_is_hidden (js "```json x ```html ") 10 eq_refl eq_refl)).
    vm_compute; reflexivity.
Defined.

(** X3. The text handed to the Markdown renderer for a model message is
    never longer than the message text when that has at most 5,000,000
    code units after stripping; otherwise it is the first 5,000,000 code
    units of the stripped text followed by the truncation notice. Stripping
    itself never adds text. *)
Theorem rendered_text_is_bounded (text : jsstring) :
  let stripped := ChatInterface.displayFullText ChatInterface.model text in
  let shown := MessageBubble.renderedText text in
  length stripped <= length text /\
  (N.of_nat (length shown)
   <= MessageBubble.textLimit + N.of_nat (length MessageBubble.truncationNotice))%N /\
  take (N.to_nat MessageBubble.textLimit) shown
  = take (N.to_nat MessageBubble.textLimit) stripped /\
  ((N.of_nat (length stripped) <= MessageBubble.textLimit)%N -> shown = stripped) /\
  ((MessageBubble.textLimit < N.of_nat (length stripped))%N ->
   shown = take (N.to_nat MessageBubble.textLimit) stripped
           ++ MessageBubble.truncationNotice).
Proof.
  intros stripped shown.
  assert (length stripped <= length text) as Hlen.
  { subst stripped. unfold ChatInterface.displayFullText.
    etrans; [apply removeFirstBlock_length | apply stripHtml_length]. }
  split; [exact Hlen|].
  subst shown. unfold MessageBubble.renderedText. fold stripped.
  unfold MessageBubble.safeDisplayText, MessageBubble.isTextTooLarge.
  clearbody stripped. remember MessageBubble.textLimit as limit.
  unfold substring. rewrite drop_0, Nat.sub_0_r.
  destruct (N.ltb_spec limit (N.of_nat (length stripped))) as [Hbig|Hsmall].
  - split; [rewrite length_app, length_take; lia|].
    split; [|split; [lia | done]].
    rewrite take_app_le by (rewrite length_take; lia).
    by rewrite take_take, Nat.min_id.
  - split; [lia|]. split; [done|]. split; [done | lia].
Qed.

Lemma rendered_text_is_bounded_witness :
  MessageBubble.renderedText (js "Here: ```html <p>a</p>``` done")
  = ChatInterface.displayFullText ChatInterface.model (js "Here: ```html <p>a</p>``` done").
Proof.
  assert ((N.of_nat (length (ChatInterface.displayFullText ChatInterface.model
                               (js "Here: ```html <p>a</p>``` done")))
           <= MessageBubble.textLimit)%N) as Hsmall by (vm_compute; discriminate).
  exact (proj1 (proj2 (proj2 (proj2
           (rendered_text_is_bounded (js "Here: ```html <p>a</p>``` done"))))) Hsmall).
Defined.

(** ** The plan block *)

Section PlanBlock.
Import ChatInterface App.

Lemma jsonMatch_cases (s : jsstring) :
  match find jsonMarker s with
  | None => jsonMatch s = None /\ removeFirstBlock jsonMarker s = s
  | Some i =>
      match indexOf endMarker s (i + length jsonMarker) with
      | None => jsonMatch s = None /\ removeFirstBlock jsonMarker s = s
      | Some e =>
          let start := i + length jsonMarker
                       + spaceRun (drop (i + length jsonMarker) s) in
          let body := substring s start e in
          jsonMatch s = Some (take (length body - spaceRun (reverse body)) body) /\
          removeFirstBlock jsonMarker s = take i s ++ drop (e + length endMarker) s /\
          i + length jsonMarker <= start <= e /\ e + length endMarker <= length s /\
          find endMarker (drop start s) = Some (e - start)
      end
  end.
Proof.
  unfold jsonMatch, removeFirstBlock.
  destruct (find jsonMarker s) as [i|] eqn:F; [|done].
  rewrite indexOf_behind_spaces.
  remember (length jsonMarker) as k.
  destruct (indexOf endMarker s (i + k)) as [e|] eqn:E; [|done].
  cbn zeta. split; [done|]. split; [done|].
  pose proof E as E'. rewrite <- indexOf_behind_spaces in E'.
  pose proof (indexOf_bound _ _ _ _ E') as [Hge Hb]. specialize (Hb endMarker_nonempty).
  split; [lia|]. split; [done|].
  unfold indexOf in E'.
  destruct (find endMarker (drop (i + k + spaceRun (drop (i + k) s)) s)) as [j|]; [|done].
  simpl in E'. injection E' as <-. f_equal. lia.
Qed.

Lemma spaceRun_reverse_take (body : jsstring) :
  spaceRun (reverse (take (length body - spaceRun (reverse body)) body)) = 0.
Proof.
  pose proof (spaceRun_le (reverse body)) as Hle. rewrite length_reverse in Hle.
  rewrite reverse_take.
  replace (length body - (length body - spaceRun (reverse body)))
    with (spaceRun (reverse body)) by lia.
  apply spaceRun_drop.
Qed.

End PlanBlock.

(** X4. A response is taken to hold a plan block exactly when the removal of
    the JSON block changes it: the test for a plan and the clean-up of the
    text agree on every response. The text given to [JSON.parse] has no
    white space at either end and holds no fence. *)
Theorem plan_block_detection (fullResponse : jsstring) :
  (is_Some (App.jsonMatch fullResponse)
   <-> ChatInterface.removeFirstBlock ChatInterface.jsonMarker fullResponse
       <> fullResponse) /\
  (forall captured,
     App.jsonMatch fullResponse = Some captured ->
     spaceRun captured = 0 /\ spaceRun (reverse captured) = 0 /\
     includes ChatInterface.endMarker captured 0 = false).
Proof.
  pose proof (jsonMatch_cases fullResponse) as H.
  destruct (find ChatInterface.jsonMarker fullResponse) as [i|] eqn:F.
  2:{ destruct H as [-> ->]. split; [|done]. split; [by intros [? ?] | done]. }
  remember (length ChatInterface.jsonMarker) as k.
  destruct (indexOf ChatInterface.endMarker fullResponse (i + k)) as [e|] eqn:E.
  2:{ destruct H as [-> ->]. split; [|done]. split; [by intros [? ?] | done]. }
  cbn zeta in H. destruct H as (-> & -> & Hstart & He & Hfind).
  apply find_bound in F.
  split.
  - split; [|by eauto]. intros _ Heq. apply (f_equal length) in Heq.
    rewrite length_app, length_take, length_drop in Heq.
    assert (0 < length ChatInterface.endMarker) by (vm_compute; lia). lia.
  - intros captured [= <-].
    remember (i + k + spaceRun (drop (i + k) fullResponse)) as start.
    assert (spaceRun (drop start fullResponse) = 0) as Hsp.
    { subst start. rewrite <- drop_drop. apply spaceRun_drop. }
    split; [by apply spaceRun_take, spaceRun_take|].
    split; [apply spaceRun_reverse_take|].
    unfold includes, indexOf. rewrite drop_0. unfold substring.
    rewrite take_take.
    by rewrite (find_take_none _ _ (e - start) _ endMarker_nonempty Hfind) by lia.
Qed.

Lemma plan_block_detection_witness :
  App.jsonMatch (js "Plan: ```json  {}  ``` ok") = Some (js "{}") /\
  spaceRun (js "{}") = 0 /\ spaceRun (reverse (js "{}")) = 0 /\
  includes ChatInterface.endMarker (js "{}") 0 = false.
Proof.
  assert (App.jsonMatch (js "Plan: ```json  {}  ``` ok") = Some (js "{}")) as H
    by (vm_compute; reflexivity).
  split; [exact H|].
  exact (proj2 (plan_block_detection (js "Plan: ```json  {}  ``` ok")) _ H).
Defined.

(** ** What a call sends, uploads and yields *)

Section Requests.
Import GeminiService Observations.
Variables (svc : Service) (msg : jsstring) (files : list FileData).

(** A property of every effect of the attempts and of every wait is a
    property of every effect of the call. *)
Lemma attemptLoop_Forall (P : Effect -> Prop) remaining attempt :
  (forall k, Forall P (tryOnce svc msg files k).1) ->
  (forall ms, P (EDelay ms)) ->
  Forall P (effects (attemptLoop svc msg files remaining attempt)).
Proof.
  intros Htry Hdelay. revert attempt.
  induction remaining as [|remaining IH]; intros attempt; [constructor|].
  rewrite attemptLoop_unfold. specialize (Htry attempt).
  destruct (tryOnce svc msg files attempt) as [tr [e|]]; cbn [fst] in Htry; [|done].
  destruct (retryable e && (attempt + 1 <? maxAttempts)); [|done].
  cbn [effects]. apply Forall_app. split; [done|]. constructor; [apply Hdelay | apply IH].
Qed.

Lemma streamMessage_Forall (P : Effect -> Prop) :
  (forall k, Forall P (tryOnce svc msg files k).1) ->
  (forall ms, P (EDelay ms)) ->
  Forall P (effects (streamMessage svc msg files)).
Proof.
  intros Htry Hdelay. unfold streamMessage.
  destruct (sessionFailure svc); [constructor|]. by apply attemptLoop_Forall.
Qed.

Lemma resolveFile_partOf up file part :
  resolveFile up file = inl part -> partOf file part.
Proof.
  unfold resolveFile, partOf, inlinePart.
  destruct (aboveThreshold file); [|intros [= <-]; by left].
  destruct (up file) as [mime uri|m].
  - intros [= <-]. right. eauto.
  - destruct (belowCeiling file); [|done]. intros [= <-]. by left.
Qed.

(** The loop over the files pushes one part per file, in order. *)
Lemma buildParts_parts up fs acc tr parts :
  buildParts up fs acc = (tr, inl parts) ->
  exists new, parts = acc ++ new /\ Forall2 partOf fs new.
Proof.
  revert acc tr; induction fs as [|f fs IH]; intros acc tr; simpl.
  - intros [= <- <-]. exists []. by rewrite app_nil_r.
  - destruct (resolveFile up f) as [part|e] eqn:R; [|done].
    destruct (buildParts up fs (acc ++ [part])) as [tr' r] eqn:B.
    intros [= <- ->]. destruct (IH _ _ B) as (new & -> & Hnew).
    exists (part :: new). rewrite <- (assoc_L (++)). split; [done|].
    constructor; [by eapply resolveFile_partOf | done].
Qed.

(** The uploads of the loop over the files, when it does not throw. *)
Lemma buildParts_uploads up fs acc tr parts :
  buildParts up fs acc = (tr, inl parts) ->
  uploads tr = name <$> filter (fun f => aboveThreshold f = true) fs.
Proof.
  revert acc tr; induction fs as [|f fs IH]; intros acc tr; simpl.
  - by intros [= <- <-].
  - destruct (resolveFile up f) as [part|e] eqn:R; [|done].
    destruct (buildParts up fs (acc ++ [part])) as [tr' r] eqn:B.
    intros [= <- ->]. apply IH in B. unfold uploads in *.
    rewrite omap_app, B, filter_cons.
    destruct (aboveThreshold f); [by rewrite decide_True | by rewrite decide_False].
Qed.

(** With every file below the ceiling, the loop over the files does not
    throw. *)
Lemma buildParts_below_ceiling up fs acc :
  Forall (fun f => belowCeiling f = true) fs ->
  exists tr parts, buildParts up fs acc = (tr, inl parts).
Proof.
  intros Hfs. revert acc. induction Hfs as [|f fs Hf _ IH]; intros acc; simpl; [eauto|].
  assert (exists part, resolveFile up f = inl part) as [part ->].
  { unfold resolveFile. rewrite Hf.
    destruct (aboveThreshold f); [destruct (up f)|]; eauto. }
  destruct (IH (acc ++ [part])) as (tr & parts & ->). eauto.
Qed.

Lemma uploads_yield (cs : list jsstring) : uploads (EYield <$> cs) = [].
Proof. by apply omap_yield. Qed.

Lemma tryOnce_uploads k :
  Forall (fun f => belowCeiling f = true) files ->
  uploads (tryOnce svc msg files k).1
  = name <$> filter (fun f => aboveThreshold f = true) files.
Proof.
  intros Hfs. unfold tryOnce.
  destruct (buildParts_below_ceiling (upload svc k) files [] Hfs) as (tr & parts & B).
  rewrite B. apply buildParts_uploads in B. cbn [fst].
  change (EAttempt k :: tr ++ ?l) with ([EAttempt k] ++ tr ++ l).
  unfold uploads in *. rewrite !omap_app, B. cbn [omap list_omap app].
  change (omap _ (EYield <$> ?cs)) with (uploads (EYield <$> cs)).
  by rewrite uploads_yield, app_nil_r.
Qed.

Lemma attemptLoop_uploads remaining attempt :
  Forall (fun f => belowCeiling f = true) files ->
  let run := attemptLoop svc msg files remaining attempt in
  uploads (effects run)
  = concat (replicate (length (attempts (effects run)))
              (name <$> filter (fun f => aboveThreshold f = true) files)).
Proof.
  intros Hfs. revert attempt.
  induction remaining as [|remaining IH]; intros attempt; [done|].
  cbn zeta in *. rewrite attemptLoop_unfold.
  pose proof (tryOnce_uploads attempt Hfs) as Hup.
  pose proof (tryOnce_attempts svc msg files attempt) as [Hatt _].
  destruct (tryOnce svc msg files attempt) as [tr [e|]]; cbn [fst] in *.
  2:{ cbn [effects]. rewrite Hatt, Hup. cbn. by rewrite app_nil_r. }
  destruct (retryable e && (attempt + 1 <? maxAttempts)).
  2:{ cbn [effects]. rewrite Hatt, Hup. cbn. by rewrite app_nil_r. }
  cbn [effects]. unfold uploads, attempts in *.
  rewrite !omap_app, Hatt, Hup. cbn [omap list_omap app length replicate concat].
  f_equal. apply IH.
Qed.

Lemma friendlyError_nonempty e : friendlyError e <> [].
Proof.
  unfold friendlyError.
  destruct (message e) as [[|c m]|]; [| |];
    repeat (match goal with |- context [if ?b then _ else _] => destruct b end);
    try discriminate;
    destruct (statusText e) as [[|c' t]|]; discriminate.
Qed.

Lemma friendlyError_shape e :
  friendlyError e ∈ fixedTexts \/
  exists detail,
    detail <> [] /\ friendlyError e = js "API Error: " ++ detail /\
    (message e = Some detail \/
     (truthy (default [] (message e)) = false /\ statusText e = Some detail)).
Proof.
  unfold friendlyError, fixedTexts.
  destruct (message e) as [[|c m]|].
  - destruct (statusText e) as [[|c' t]|]; [left; apply list_elem_of_here| |left; apply list_elem_of_here].
    right. exists (c' :: t). by repeat split; [|right].
  - repeat (match goal with
            | |- context [if ?b then _ else _] => destruct b
            end);
      try (left; repeat first [apply list_elem_of_here | apply list_elem_of_further]; fail).
    right. exists (c :: m). by repeat split; [|left].
  - destruct (statusText e) as [[|c' t]|]; [left; apply list_elem_of_here| |left; apply list_elem_of_here].
    right. exists (c' :: t). by repeat split; [|right].
Qed.

Lemma attemptLoop_thrown remaining attempt m :
  outcome (attemptLoop svc msg files remaining attempt) = Thrown m ->
  exists e, m = friendlyError e.
Proof.
  revert attempt; induction remaining as [|remaining IH]; intros attempt; [done|].
  rewrite attemptLoop_unfold.
  destruct (tryOnce svc msg files attempt) as [tr [e|]]; [|done].
  destruct (retryable e && (attempt + 1 <? maxAttempts)).
  - cbn [outcome]. apply IH.
  - intros [= <-]. eauto.
Qed.

End Requests.

(** X5. No call ever yields an empty chunk: chunks without text are dropped
    in every attempt, so each delta that reaches the handlers adds text. *)
Theorem no_empty_chunk_is_yielded (svc : GeminiService.Service) (msg : jsstring)
    (files : list GeminiService.FileData) :
  Forall (fun chunk => chunk <> [])
    (GeminiService.yields
       (GeminiService.effects (GeminiService.streamMessage svc msg files))).
Proof.
  assert (Forall (fun e => forall c, e = GeminiService.EYield c -> c <> [])
            (GeminiService.effects (GeminiService.streamMessage svc msg files))) as H.
  { apply streamMessage_Forall; [|done]. intros k. unfold GeminiService.tryOnce.
    pose proof (buildParts_effects (GeminiService.upload svc k) files []) as Hup.
    destruct (GeminiService.buildParts (GeminiService.upload svc k) files [])
      as [tr [parts|e]]; cbn [fst] in *.
    - constructor; [done|]. apply Forall_app. split.
      + eapply Forall_impl; [exact Hup|]. by intros ? [n ->].
      + constructor; [done|]. apply Forall_fmap, Forall_forall.
        intros c [Hc _]%list_elem_of_filter c' [= <-]. by destruct c.
    - constructor; [done|]. eapply Forall_impl; [exact Hup|]. by intros ? [n ->]. }
  induction H as [|e tr He _ IH]; [constructor|].
  unfold GeminiService.yields in *. destruct e; cbn; try done.
  constructor; [by apply He | done].
Qed.

(** X6. Every request sent during a call, in whichever attempt, holds one
    part per file, in the order of the files, followed by the text of the
    message as its last part. The part of a file embeds the file's own data
    under its own MIME type, or refers to an upload, and the latter only
    for a file above 9 MB. *)
Theorem request_shape (svc : GeminiService.Service) (msg : jsstring)
    (files : list GeminiService.FileData) :
  Forall (fun request =>
            exists parts,
              request = parts ++ [GeminiService.textPart msg] /\
              Forall2 Observations.partOf files parts)
    (GeminiService.sends
       (GeminiService.effects (GeminiService.streamMessage svc msg files))).
Proof.
  set (ok := fun request =>
               exists parts,
                 request = parts ++ [GeminiService.textPart msg] /\
                 Forall2 Observations.partOf files parts).
  assert (Forall (fun e => forall ps, e = GeminiService.ESend ps -> ok ps)
            (GeminiService.effects (GeminiService.streamMessage svc msg files))) as H.
  { apply streamMessage_Forall; [|done]. intros k. unfold GeminiService.tryOnce.
    pose proof (buildParts_effects (GeminiService.upload svc k) files []) as Hup.
    destruct (GeminiService.buildParts (GeminiService.upload svc k) files [])
      as [tr [parts|e]] eqn:B; cbn [fst] in *.
    - constructor; [done|]. apply Forall_app. split.
      + eapply Forall_impl; [exact Hup|]. by intros ? [n ->].
      + constructor.
        * intros ps [= <-]. apply buildParts_parts in B as (new & -> & Hnew).
          by exists new.
        * apply Forall_fmap, Forall_forall. done.
    - constructor; [done|]. eapply Forall_impl; [exact Hup|]. by intros ? [n ->]. }
  induction H as [|e tr He _ IH]; [constructor|].
  unfold GeminiService.sends in *. destruct e; cbn; try done.
  constructor; [by apply He | done].
Qed.

(** X7. When every file is below 18 MB, each attempt of a call uploads every
    file above 9 MB again, in the order of the files: the uploads of the
    call are those of one attempt repeated once per attempt, and a call
    with no file above 9 MB uploads nothing. *)
Theorem uploads_repeat_per_attempt (svc : GeminiService.Service) (msg : jsstring)
    (files : list GeminiService.FileData) :
  Forall (fun f => (GeminiService.sizeMB f < 18)%Q) files ->
  let run := GeminiService.streamMessage svc msg files in
  let large := filter (fun f => GeminiService.aboveThreshold f = true) files in
  Observations.uploads (GeminiService.effects run)
  = concat (replicate (length (GeminiService.attempts (GeminiService.effects run)))
              (GeminiService.name <$> large)) /\
  (Forall (fun f => (GeminiService.sizeMB f <= 9)%Q) files ->
   Observations.uploads (GeminiService.effects run) = []).
Proof.
  intros Hfs run large.
  assert (Forall (fun f => GeminiService.belowCeiling f = true) files) as Hbelow.
  { eapply Forall_impl; [exact Hfs|]. intros f Hf. by apply belowCeiling_spec. }
  assert (Observations.uploads (GeminiService.effects run)
          = concat (replicate (length (GeminiService.attempts (GeminiService.effects run)))
                      (GeminiService.name <$> large))) as Heq.
  { subst run. unfold GeminiService.streamMessage.
    destruct (GeminiService.sessionFailure svc); [done|].
    by apply attemptLoop_uploads. }
  split; [exact Heq|]. intros Hsmall. rewrite Heq.
  assert (large = []) as ->.
  { subst large. clear -Hsmall. induction Hsmall as [|f fs Hf _ IH]; [done|].
    rewrite filter_cons, decide_False; [done|].
    apply aboveThreshold_false in Hf. congruence. }
  clear. induction (length _) as [|n IH]; [done|]. exact IH.
Qed.

Lemma uploads_repeat_per_attempt_witness :
  let file := GeminiService.mkFile (js "a.pdf") (js "JVBERi0xLjQ=") (js "application/pdf") in
  let svc := GeminiService.mkService None
    (fun _ _ => GeminiService.UploadFailed None)
    (fun k _ =>
       match k with
       | 0 => GeminiService.mkStream []
                (Some (GeminiService.newError (js "503 Service Unavailable")))
       | _ => GeminiService.mkStream [js "done"] None
       end) in
  Observations.uploads
    (GeminiService.effects (GeminiService.streamMessage svc (js "hi") [file])) = [].
Proof.
  intros file svc.
  assert (Forall (fun f => (GeminiService.sizeMB f < 18)%Q) [file]) as Hlt
    by (constructor; [vm_compute; reflexivity | constructor]).
  assert (Forall (fun f => (GeminiService.sizeMB f <= 9)%Q) [file]) as Hle
    by (constructor; [vm_compute; discriminate | constructor]).
  exact (proj2 (uploads_repeat_per_attempt svc (js "hi") [file] Hlt) Hle).
Defined.

(** X8. A call whose session is available never throws an empty message, so
    the fallback text of the handlers is not used for such a call. The
    message it throws is one of the seven fixed texts, or ["API Error: "]
    followed by a text that is not empty. *)
Theorem thrown_message_is_nonempty (svc : GeminiService.Service) (msg : jsstring)
    (files : list GeminiService.FileData) (errorMessage : jsstring) :
  GeminiService.sessionFailure svc = None ->
  GeminiService.outcome (GeminiService.streamMessage svc msg files)
    = GeminiService.Thrown errorMessage ->
  truthy errorMessage = true /\
  (if truthy errorMessage then errorMessage else js "Error processing request.")
  = errorMessage /\
  (errorMessage ∈ Observations.fixedTexts \/
   exists detail, detail <> [] /\ errorMessage = js "API Error: " ++ detail).
Proof.
  intros Hs. unfold GeminiService.streamMessage. rewrite Hs.
  intros [e ->]%attemptLoop_thrown.
  pose proof (friendlyError_nonempty e) as Hne.
  assert (truthy (GeminiService.friendlyError e) = true) as Ht
    by (by destruct (GeminiService.friendlyError e)).
  rewrite Ht. repeat split.
  destruct (friendlyError_shape e) as [H|(detail & Hd & -> & _)]; [by left|].
  right. by exists detail.
Qed.

(** A call whose only attempt is blocked by the safety filter. *)
Lemma thrown_message_is_nonempty_witness :
  let svc := GeminiService.mkService None
    (fun _ _ => GeminiService.UploadFailed None)
    (fun _ _ => GeminiService.mkStream []
                  (Some (GeminiService.newError (js "blocked: SAFETY")))) in
  let thrown := js "Safety Filter Triggered: The content was flagged by safety settings." in
  GeminiService.sessionFailure svc = None /\
  GeminiService.outcome (GeminiService.streamMessage svc (js "hi") [])
  = GeminiService.Thrown thrown /\
  truthy thrown = true.
Proof.
  intros svc thrown.
  assert (GeminiService.outcome (GeminiService.streamMessage svc (js "hi") [])
          = GeminiService.Thrown thrown)
    as Hout by (vm_compute; reflexivity).
  split; [reflexivity|]. split; [exact Hout|].
  exact (proj1 (thrown_message_is_nonempty svc (js "hi") [] thrown eq_refl Hout)).
Defined.

(** ** The end of an exchange *)

Section SendEnd.
Import ChatInterface GeminiService App AppFiles.
Variable JSON_parse : jsstring -> option (option ExecutionPlan).
Context (frame : State) (others : gmap nat Task) (tid : nat).

(** The stream of the reply ends normally. *)
Lemma pull_send_end_ok base mid txt fs full lu tail L now :
  Forall (fun m => id m < mid) base ->
  yields tail = [] ->
  pull JSON_parse tid now
    (atSend frame others tid base mid txt fs full lu (mkGen tail Returned) L)
  = let sent := sentFileNames frame ∪ list_to_set (name <$> fs) in
    match jsonMatch full ≫= JSON_parse with
    | Some planData =>
        sendEnded frame others tid
          (base ++ [mkMessage mid model (removeFirstBlock jsonMarker full)
                      false false planData])
          (S mid) waiting_approval sent planData (L ++ tail)
    | None =>
        sendEnded frame others tid
          (base ++ [mkMessage mid model full false false None])
          (S mid) idle sent (currentPlan frame) (L ++ tail)
    end.
Proof.
  intros Hbase Hy. unfold pull, atSend. cbn [tasks].
  rewrite lookup_insert_eq. unfold pullSend. cbn [effects outcome].
  rewrite (nextYield_no_yields _ Hy). unfold sendDone. fields.
  cbn [aborted abortControllerRef]. fields.
  rewrite updateMessage_last by done.
  unfold sendEnded. rewrite delete_insert_eq.
  destruct (jsonMatch full) as [captured|]; cbn [mbind option_bind].
  - destruct (JSON_parse captured) as [planData|]; fields.
    + rewrite updateMessage_last by done. reflexivity.
    + rewrite updateMessage_last by done. reflexivity.
  - fields. rewrite updateMessage_last by done. reflexivity.
Qed.

(** The stream of the reply throws. *)
Lemma pull_send_end_throw base mid txt fs full lu tail L now errorMessage :
  Forall (fun m => id m < mid) base ->
  yields tail = [] ->
  pull JSON_parse tid now
    (atSend frame others tid base mid txt fs full lu
       (mkGen tail (Thrown errorMessage)) L)
  = sendEnded frame others tid
      (base ++ [mkMessage mid model
                  (if truthy errorMessage then errorMessage
                   else js "Error processing request.")
                  true false None])
      (S mid) idle (sentFileNames frame) (currentPlan frame) (L ++ tail).
Proof.
  intros Hbase Hy. unfold pull, atSend. cbn [tasks].
  rewrite lookup_insert_eq. unfold pullSend. cbn [effects outcome].
  rewrite (nextYield_no_yields _ Hy). fields.
  rewrite updateMessage_last by done.
  unfold sendEnded. by rewrite delete_insert_eq.
Qed.

End SendEnd.

Section Exchange.
Import ChatInterface GeminiService App AppFiles.
Variable JSON_parse : jsstring -> option (option ExecutionPlan).

(** A whole exchange, from the call of [handleSendMessage] to the end of
    the stream. *)
Lemma exchange_end st text now svc nows :
  blank text = false -> appState st <> executing -> files st <> [] ->
  idsInUse st ->
  let stream := streamMessage svc text (filesToSend st) in
  length nows = S (length (yields (effects stream))) ->
  let fullResponse := concat (yields (effects stream)) in
  let frame := setInput [] (setNextTask (S (nextTask st)) st) in
  let sent := sentFileNames st ∪ list_to_set (name <$> filesToSend st) in
  exists userMessage,
    role userMessage = user /\
    run JSON_parse (handleSendMessage text now svc st) (Pull (nextTask st) <$> nows)
    = match outcome stream with
      | Returned =>
          match jsonMatch fullResponse ≫= JSON_parse with
          | Some planData =>
              sendEnded frame (tasks st) (nextTask st)
                ((messages st ++ [userMessage])
                 ++ [mkMessage (S (nextId st)) model
                       (removeFirstBlock jsonMarker fullResponse)
                       false false planData])
                (S (S (nextId st))) waiting_approval sent planData
                (log st ++ effects stream)
          | None =>
              sendEnded frame (tasks st) (nextTask st)
                ((messages st ++ [userMessage])
                 ++ [mkMessage (S (nextId st)) model fullResponse false false None])
                (S (S (nextId st))) idle sent (currentPlan st)
                (log st ++ effects stream)
          end
      | Thrown errorMessage =>
          sendEnded frame (tasks st) (nextTask st)
            ((messages st ++ [userMessage])
             ++ [mkMessage (S (nextId st)) model
                   (if truthy errorMessage then errorMessage
                    else js "Error processing request.")
                   true false None])
            (S (S (nextId st))) idle (sentFileNames st) (currentPlan st)
            (log st ++ effects stream)
      end.
Proof.
  intros Htext Hstate Hfiles Hids stream Hlen fullResponse frame sent.
  destruct (handleSendMessage_start st text now svc Htext Hstate Hfiles)
    as (userMessage & Hstart & Hid & Hrole).
  exists userMessage. split; [exact Hrole|].
  rewrite Hstart. fold (filesToSend st). fold stream. fold frame.
  destruct (split_last _ _ Hlen) as (front & last & -> & Hfront).
  rewrite fmap_app, run_app.
  assert (Forall (fun m => id m < S (nextId st)) (messages st ++ [userMessage])) as Hbase.
  { apply Forall_app. split.
    - eapply Forall_impl; [exact Hids|]. simpl. intros; lia.
    - constructor; [lia | constructor]. }
  subst fullResponse.
  destruct stream as [tr out]. cbn [effects outcome] in *.
  destruct (pull_send_chunks JSON_parse frame (tasks st) (nextTask st)
              (messages st ++ [userMessage]) (S (nextId st)) (filesToSend st) out front
              Hbase tr [] [] now (log st) Hfront)
    as (txt' & lu' & pre & tail & -> & -> & Htail).
  cbn [fmap list_fmap run foldl step app].
  assert (filesToSend st = filesToSend frame) as Hfs.
  { subst frame. by destruct st. }
  assert (sent = sentFileNames frame ∪ list_to_set (name <$> filesToSend st)) as Hsent.
  { subst sent frame. by destruct st. }
  assert (sentFileNames st = sentFileNames frame) as Hsent0.
  { subst frame. by destruct st. }
  assert (currentPlan st = currentPlan frame) as Hplan.
  { subst frame. by destruct st. }
  rewrite Hsent, Hsent0, Hplan. clearbody frame sent.
  destruct out as [|errorMessage].
  - rewrite pull_send_end_ok by done. cbn zeta. cbn [app].
    by rewrite <- (assoc_L (++) (log st) pre tail).
  - rewrite pull_send_end_throw by done.
    by rewrite <- (assoc_L (++) (log st) pre tail).
Qed.

End Exchange.

(** X9. An exchange whose stream ends normally, with its chunks received at
    any times: the reply holds every chunk in order (the throttled updates
    lose none), it is no longer streaming, and the handler is gone. If the
    response holds a plan block whose text parses, the block is cut from the
    reply, the reply and the component take the parsed value as their plan,
    and the component waits for approval, also when the value is [null] and
    there is no plan to approve; otherwise the text is kept whole, the plan
    that was current stays, and the component is idle. *)
Theorem exchange_completes (JSON_parse : jsstring -> option (option App.ExecutionPlan))
    (st : App.State) (text : jsstring) (now : Z) (svc : GeminiService.Service)
    (nows : list Z) :
  blank text = false -> App.appState st <> App.executing -> App.files st <> [] ->
  App.idsInUse st ->
  let stream := GeminiService.streamMessage svc text (AppFiles.filesToSend st) in
  GeminiService.outcome stream = GeminiService.Returned ->
  length nows = S (length (GeminiService.yields (GeminiService.effects stream))) ->
  let fullResponse := concat (GeminiService.yields (GeminiService.effects stream)) in
  let parsed : option (option App.ExecutionPlan) :=
    App.jsonMatch fullResponse ≫= JSON_parse in
  let st' := App.run JSON_parse (App.handleSendMessage text now svc st)
               (App.Pull (App.nextTask st) <$> nows) in
  (exists userMessage,
     App.role userMessage = ChatInterface.user /\
     App.messages st'
     = App.messages st
       ++ [userMessage;
           match parsed with
           | Some planData =>
               App.mkMessage (S (App.nextId st)) ChatInterface.model
                 (ChatInterface.removeFirstBlock ChatInterface.jsonMarker fullResponse)
                 false false planData
           | None =>
               App.mkMessage (S (App.nextId st)) ChatInterface.model fullResponse
                 false false None
           end]) /\
  App.appState st'
  = match parsed with Some _ => App.waiting_approval | None => App.idle end /\
  App.currentPlan st'
  = match parsed with Some planData => planData | None => App.currentPlan st end /\
  App.abortControllerRef st' = None /\
  App.tasks st' !! App.nextTask st = None /\
  App.log st' = App.log st ++ GeminiService.effects stream.
Proof.
  intros Htext Hstate Hfiles Hids stream Hout Hlen fullResponse parsed st'.
  destruct (exchange_end JSON_parse st text now svc nows Htext Hstate Hfiles Hids Hlen)
    as (userMessage & Hrole & Hrun).
  fold stream in Hrun. rewrite Hout in Hrun. fold fullResponse in Hrun. fold parsed in Hrun.
  fold st' in Hrun. clearbody st' parsed fullResponse stream. subst st'.
  destruct parsed as [planData|]; unfold AppFiles.sendEnded; fields;
    (split; [exists userMessage; split; [done|]; by rewrite <- (assoc_L (++))|]);
    repeat split; try done; apply lookup_delete_eq.
Qed.

(** A reply in two chunks whose plan block holds [null]: the component waits
    for approval and has no plan. *)
Lemma exchange_completes_witness :
  let file := GeminiService.mkFile (js "a.pdf") (js "JVBERi0xLjQ=") (js "application/pdf") in
  let svc := GeminiService.mkService None
               (fun _ _ => GeminiService.UploadFailed None)
               (fun _ _ => GeminiService.mkStream [js "Plan: ```json nu"; js "ll ```"] None) in
  let parse := fun s : jsstring =>
                 if bool_decide (s = js "null") then Some (@None App.ExecutionPlan)
                 else None in
  let st' := App.run parse (App.handleSendMessage (js "hi") 0 svc (App.initial [file]))
               (App.Pull (App.nextTask (App.initial [file])) <$> [10; 20; 30]%Z) in
  App.appState st' = App.waiting_approval /\
  App.currentPlan st' = None /\
  App.abortControllerRef st' = None /\
  App.tasks st' !! App.nextTask (App.initial [file]) = None.
Proof.
  intros file svc parse st'.
  assert (blank (js "hi") = false) as Htext by (vm_compute; reflexivity).
  assert (App.appState (App.initial [file]) <> App.executing) as Hstate by discriminate.
  assert (App.files (App.initial [file]) <> []) as Hfiles by discriminate.
  assert (App.idsInUse (App.initial [file])) as Hids by constructor.
  assert (GeminiService.outcome
            (GeminiService.streamMessage svc (js "hi")
               (AppFiles.filesToSend (App.initial [file])))
          = GeminiService.Returned) as Hout by (vm_compute; reflexivity).
  assert (length [10; 20; 30]%Z
          = S (length (GeminiService.yields
                         (GeminiService.effects
                            (GeminiService.streamMessage svc (js "hi")
                               (AppFiles.filesToSend (App.initial [file])))))))
    as Hlen by (vm_compute; reflexivity).
  assert (App.jsonMatch
            (concat (GeminiService.yields
                       (GeminiService.effects
                          (GeminiService.streamMessage svc (js "hi")
                             (AppFiles.filesToSend (App.initial [file]))))))
            ≫= parse = Some None) as Hparsed by (vm_compute; reflexivity).
  destruct (exchange_completes parse (App.initial [file]) (js "hi") 0 svc [10; 20; 30]%Z
              Htext Hstate Hfiles Hids Hout Hlen)
    as (_ & Hstate' & Hplan & Habort & Htask & _).
  rewrite Hparsed in Hstate', Hplan.
  repeat split; assumption.
Defined.

(** X10. After an exchange whose stream has ended normally, the name of every
    uploaded file is marked as sent, and the next message passes no file on:
    a file reaches the model in one request of one exchange only. (A file is
    known by its name alone.) *)
Theorem files_are_sent_once (JSON_parse : jsstring -> option (option App.ExecutionPlan))
    (st : App.State) (text : jsstring) (now : Z) (svc : GeminiService.Service)
    (nows : list Z) :
  blank text = false -> App.appState st <> App.executing -> App.files st <> [] ->
  App.idsInUse st ->
  let stream := GeminiService.streamMessage svc text (AppFiles.filesToSend st) in
  GeminiService.outcome stream = GeminiService.Returned ->
  length nows = S (length (GeminiService.yields (GeminiService.effects stream))) ->
  let st' := App.run JSON_parse (App.handleSendMessage text now svc st)
               (App.Pull (App.nextTask st) <$> nows) in
  App.files st' = App.files st /\
  App.sentFileNames st'
  = App.sentFileNames st ∪ list_to_set (GeminiService.name <$> AppFiles.filesToSend st) /\
  Forall (fun f => GeminiService.name f ∈ App.sentFileNames st') (App.files st') /\
  AppFiles.filesToSend st' = [].
Proof.
  intros Htext Hstate Hfiles Hids stream Hout Hlen st'.
  destruct (exchange_end JSON_parse st text now svc nows Htext Hstate Hfiles Hids Hlen)
    as (userMessage & Hrole & Hrun).
  fold stream in Hrun. rewrite Hout in Hrun. fold st' in Hrun.
  assert (App.files st' = App.files st /\
          App.sentFileNames st'
          = App.sentFileNames st
            ∪ list_to_set (GeminiService.name <$> AppFiles.filesToSend st)) as [Hf Hs].
  { clearbody st' stream. subst st'.
    destruct (App.jsonMatch _ ≫= JSON_parse); unfold AppFiles.sendEnded; fields;
      destruct st; fields; done. }
  assert (Forall (fun f => GeminiService.name f ∈ App.sentFileNames st') (App.files st'))
    as Hall.
  { rewrite Hf, Hs. unfold AppFiles.filesToSend. apply Forall_forall. intros f Hin.
    destruct (decide (GeminiService.name f ∈ App.sentFileNames st)) as [Hin'|Hnot];
      [by apply elem_of_union_l|].
    apply elem_of_union_r, elem_of_list_to_set, list_elem_of_fmap.
    exists f. split; [done|]. by apply list_elem_of_filter. }
  split; [exact Hf|]. split; [exact Hs|]. split; [exact Hall|].
  unfold AppFiles.filesToSend. clear -Hall.
  induction Hall as [|f fs Hf _ IH]; [done|].
  rewrite filter_cons, decide_False; [exact IH|]. by intros H; apply H.
Qed.

Lemma files_are_sent_once_witness :
  let file := GeminiService.mkFile (js "a.pdf") (js "JVBERi0xLjQ=") (js "application/pdf") in
  let svc := GeminiService.mkService None
               (fun _ _ => GeminiService.UploadFailed None)
               (fun _ _ => GeminiService.mkStream [js "Hel"; js "lo"] None) in
  let parse := fun _ : jsstring => @None (option App.ExecutionPlan) in
  let st' := App.run parse (App.handleSendMessage (js "hi") 0 svc (App.initial [file]))
               (App.Pull (App.nextTask (App.initial [file])) <$> [10; 20; 30]%Z) in
  AppFiles.filesToSend st' = [].
Proof.
  intros file svc parse st'.
  assert (blank (js "hi") = false) as Htext by (vm_compute; reflexivity).
  assert (App.appState (App.initial [file]) <> App.executing) as Hstate by discriminate.
  assert (App.files (App.initial [file]) <> []) as Hfiles by discriminate.
  assert (App.idsInUse (App.initial [file])) as Hids by constructor.
  assert (GeminiService.outcome
            (GeminiService.streamMessage svc (js "hi")
               (AppFiles.filesToSend (App.initial [file])))
          = GeminiService.Returned) as Hout by (vm_compute; reflexivity).
  assert (length [10; 20; 30]%Z
          = S (length (GeminiService.yields
                         (GeminiService.effects
                            (GeminiService.streamMessage svc (js "hi")
                               (AppFiles.filesToSend (App.initial [file])))))))
    as Hlen by (vm_compute; reflexivity).
  destruct (files_are_sent_once parse (App.initial [file]) (js "hi") 0 svc [10; 20; 30]%Z
              Htext Hstate Hfiles Hids Hout Hlen) as (_ & _ & _ & Hsend).
  exact Hsend.
Defined.

(** X11. An exchange whose stream throws: the reply is marked as an error, it
    is no longer streaming, and its text is the error message alone, in
    place of whatever had streamed before; the component is idle and the
    handler is gone. No file is marked as sent, so the next message passes
    the same files on again. *)
Theorem exchange_fails (JSON_parse : jsstring -> option (option App.ExecutionPlan))
    (st : App.State) (text : jsstring) (now : Z) (svc : GeminiService.Service)
    (nows : list Z) (errorMessage : jsstring) :
  blank text = false -> App.appState st <> App.executing -> App.files st <> [] ->
  App.idsInUse st ->
  let stream := GeminiService.streamMessage svc text (AppFiles.filesToSend st) in
  GeminiService.outcome stream = GeminiService.Thrown errorMessage ->
  length nows = S (length (GeminiService.yields (GeminiService.effects stream))) ->
  let st' := App.run JSON_parse (App.handleSendMessage text now svc st)
               (App.Pull (App.nextTask st) <$> nows) in
  (exists userMessage,
     App.role userMessage = ChatInterface.user /\
     App.messages st'
     = App.messages st
       ++ [userMessage;
           App.mkMessage (S (App.nextId st)) ChatInterface.model
             (if truthy errorMessage then errorMessage
              else js "Error processing request.")
             true false None]) /\
  App.appState st' = App.idle /\
  App.abortControllerRef st' = None /\
  App.tasks st' !! App.nextTask st = None /\
  App.currentPlan st' = App.currentPlan st /\
  App.sentFileNames st' = App.sentFileNames st /\
  AppFiles.filesToSend st' = AppFiles.filesToSend st /\
  App.log st' = App.log st ++ GeminiService.effects stream.
Proof.
  intros Htext Hstate Hfiles Hids stream Hout Hlen st'.
  destruct (exchange_end JSON_parse st text now svc nows Htext Hstate Hfiles Hids Hlen)
    as (userMessage & Hrole & Hrun).
  fold stream in Hrun. rewrite Hout in Hrun. fold st' in Hrun.
  clearbody st' stream. subst st'.
  unfold AppFiles.sendEnded, AppFiles.filesToSend; fields.
  split; [exists userMessage; split; [done|]; by rewrite <- (assoc_L (++))|].
  split; [done|]. split; [done|]. split; [apply lookup_delete_eq|].
  split; [done|]. split; [done|]. split; [|done].
  destruct st; fields; done.
Qed.

(** A chunk, then a failure with the message ["boom"]: the reply shows
    ["API Error: boom"]. *)
Lemma exchange_fails_witness :
  let file := GeminiService.mkFile (js "a.pdf") (js "JVBERi0xLjQ=") (js "application/pdf") in
  let svc := GeminiService.mkService None
               (fun _ _ => GeminiService.UploadFailed None)
               (fun _ _ => GeminiService.mkStream [js "Hel"]
                             (Some (GeminiService.newError (js "boom")))) in
  let parse := fun _ : jsstring => @None (option App.ExecutionPlan) in
  let st' := App.run parse (App.handleSendMessage (js "hi") 0 svc (App.initial [file]))
               (App.Pull (App.nextTask (App.initial [file])) <$> [10; 20]%Z) in
  (exists userMessage,
     App.role userMessage = ChatInterface.user /\
     App.messages st'
     = [userMessage;
        App.mkMessage 1 ChatInterface.model (js "API Error: boom") true false None]) /\
  App.appState st' = App.idle /\
  AppFiles.filesToSend st' = AppFiles.filesToSend (App.initial [file]).
Proof.
  intros file svc parse st'.
  assert (blank (js "hi") = false) as Htext by (vm_compute; reflexivity).
  assert (App.appState (App.initial [file]) <> App.executing) as Hstate by discriminate.
  assert (App.files (App.initial [file]) <> []) as Hfiles by discriminate.
  assert (App.idsInUse (App.initial [file])) as Hids by constructor.
  assert (GeminiService.outcome
            (GeminiService.streamMessage svc (js "hi")
               (AppFiles.filesToSend (App.initial [file])))
          = GeminiService.Thrown (js "API Error: boom"))
    as Hout by (vm_compute; reflexivity).
  assert (length [10; 20]%Z
          = S (length (GeminiService.yields
                         (GeminiService.effects
                            (GeminiService.streamMessage svc (js "hi")
                               (AppFiles.filesToSend (App.initial [file])))))))
    as Hlen by (vm_compute; reflexivity).
  destruct (exchange_fails parse (App.initial [file]) (js "hi") 0 svc [10; 20]%Z _
              Htext Hstate Hfiles Hids Hout Hlen)
    as (Hmsgs & Hidle & _ & _ & _ & _ & Hsend & _).
  split; [exact Hmsgs|]. split; [exact Hidle | exact Hsend].
Defined.

(** ** The transcript in every reachable state *)

Section Transcript.
Import ChatInterface GeminiService App AppFiles.
Variable JSON_parse : jsstring -> option (option ExecutionPlan).

Lemma fmap_id_update target f ms :
  (forall m, id (f m) = id m) -> id <$> updateMessage target f ms = id <$> ms.
Proof.
  intros Hf. unfold updateMessage. rewrite <- list_fmap_compose.
  apply list_fmap_ext. intros _ m _. simpl. destruct (id m =? target); [apply Hf | done].
Qed.

Lemma fmap_id_last (ms : list Message) lastMsg m' :
  last ms = Some lastMsg -> id m' = id lastMsg ->
  id <$> (removelast ms ++ [m']) = id <$> ms.
Proof.
  intros [ms' ->]%last_Some Hid. rewrite removelast_last, !fmap_app. cbn. by rewrite Hid.
Qed.

(** One event appends at most two messages, with the next fresh ids, and
    leaves the ids of the others as they are. *)
Lemma messageIds_step st ev :
  exists k,
    AppFiles.messageIds (step JSON_parse st ev)
    = AppFiles.messageIds st ++ seq (nextId st) k /\
    nextId (step JSON_parse st ev) = nextId st + k.
Proof.
  unfold AppFiles.messageIds. destruct st as [fs ms inp state sent cp es ab nid ts nt lg].
  cbn [messages nextId].
  destruct ev; cbn [step];
    unfold handleSendMessage, stopGeneration, executePlan, cancelPlan, pull,
      pullSend, pullPlan, sendDone, stepDone, startStep, planDone, aborted;
    fields; try (by exists 0; rewrite app_nil_r, Nat.add_0_r);
    repeat (case_match; fields_everywhere; simplify_eq;
            try (by exists 0; rewrite app_nil_r, Nat.add_0_r));
    repeat first
      [ rewrite fmap_id_update by (by intros [])
      | erewrite fmap_id_last by (eassumption || reflexivity)
      | rewrite fmap_app ];
    cbn [fmap list_fmap id];
    first [ by exists 0; rewrite app_nil_r, Nat.add_0_r
          | by exists 1; split; [|lia]
          | by exists 2; rewrite <- (assoc_L (++)); split; [|lia] ].
Qed.

Lemma messageIds_run st evs :
  exists k,
    AppFiles.messageIds (run JSON_parse st evs)
    = AppFiles.messageIds st ++ seq (nextId st) k /\
    nextId (run JSON_parse st evs) = nextId st + k.
Proof.
  revert st; induction evs as [|ev evs IH]; intros st.
  - exists 0. cbn. by rewrite app_nil_r, Nat.add_0_r.
  - cbn [run foldl]. destruct (messageIds_step st ev) as (k1 & H1 & N1).
    destruct (IH (step JSON_parse st ev)) as (k2 & H2 & N2).
    exists (k1 + k2). unfold run in *. rewrite H2, N2, H1, N1.
    rewrite seq_app, (assoc_L (++)). split; [done | lia].
Qed.

Lemma plain_update target f ms :
  (forall m, streamingIsPlain m -> streamingIsPlain (f m)) ->
  Forall streamingIsPlain ms -> Forall streamingIsPlain (updateMessage target f ms).
Proof.
  intros Hf Hms. unfold updateMessage. apply Forall_fmap.
  eapply Forall_impl; [exact Hms|]. intros m Hm. simpl.
  destruct (id m =? target); [by apply Hf | done].
Qed.

Lemma plain_snoc ms m :
  Forall streamingIsPlain ms -> streamingIsPlain m -> Forall streamingIsPlain (ms ++ [m]).
Proof. intros H Hm. apply Forall_app. split; [done | by constructor]. Qed.

Lemma plain_removelast (ms : list Message) :
  Forall streamingIsPlain ms -> Forall streamingIsPlain (removelast ms).
Proof.
  induction 1 as [|m ms Hm Hms IH]; [constructor|].
  simpl. destruct ms; [constructor|]. by constructor.
Qed.

Ltac plain :=
  repeat first
    [ assumption
    | apply plain_update; [by intros [] ? | ]
    | apply plain_update; [intros [] H; exact H | ]
    | apply plain_snoc; [| by intros ?]
    | apply plain_snoc; [| done]
    | apply plain_removelast ].

Lemma plain_step st ev :
  Forall streamingIsPlain (messages st) ->
  Forall streamingIsPlain (messages (step JSON_parse st ev)).
Proof.
  destruct st as [fs ms inp state sent cp es ab nid ts nt lg].
  cbn [messages]. intros Hms.
  destruct ev; cbn [step];
    unfold handleSendMessage, stopGeneration, executePlan, cancelPlan, pull,
      pullSend, pullPlan, sendDone, stepDone, startStep, planDone, aborted;
    fields; try done;
    repeat (case_match; fields_everywhere; simplify_eq; try done);
    plain.
Qed.

End Transcript.

(** X13. In every state the handlers reach, a message that shows the
    streaming cursor is a model message that carries neither an error nor a
    plan: a reply is marked as failed, or given its plan card, only in the
    update that ends its streaming. *)
Theorem streaming_messages_are_plain (JSON_parse : jsstring -> option (option App.ExecutionPlan))
    (st : App.State) (events : list App.Event) :
  Forall AppFiles.streamingIsPlain (App.messages st) ->
  Forall AppFiles.streamingIsPlain (App.messages (App.run JSON_parse st events)).
Proof.
  revert st; induction events as [|ev events IH]; intros st Hst; [done|].
  cbn. apply IH. by apply plain_step.
Qed.

Lemma streaming_messages_are_plain_witness :
  let file := GeminiService.mkFile (js "a.pdf") (js "JVBERi0xLjQ=") (js "application/pdf") in
  let svc := GeminiService.mkService None
               (fun _ _ => GeminiService.UploadFailed None)
               (fun _ _ => GeminiService.mkStream [js "reply"] None) in
  let parse := fun _ : jsstring => @None (option App.ExecutionPlan) in
  Forall AppFiles.streamingIsPlain
    (App.messages (App.run parse (App.initial [file])
                     [App.TypeInput (js "one"); App.KeyEnter 0 svc; App.Pull 0 10])).
Proof.
  intros file svc parse.
  apply (streaming_messages_are_plain parse (App.initial [file])). constructor.
Defined.

(** X14. Starting from a state in which the abort flag is not set, no event
    leads to a state in which a handler could read it as set: [abort()] is
    called in [stopGeneration] only, which clears the ref in the same
    breath. So none of the [signal.aborted] tests in the loops of
    [handleSendMessage] and [executePlan] ever succeeds, and pressing Stop
    ends no loop. *)
Theorem abort_checks_never_fire (JSON_parse : jsstring -> option (option App.ExecutionPlan))
    (st : App.State) (events : list App.Event) :
  App.aborted st = false ->
  App.aborted (App.run JSON_parse st events) = false /\
  App.aborted (App.stopGeneration (App.run JSON_parse st events)) = false.
Proof.
  intros Hst.
  pose proof (abort_flag_never_seen_run JSON_parse st events Hst) as Hrun.
  split; [exact Hrun|].
  destruct (App.run JSON_parse st events) as [fs ms inp state sent cp es ab nid ts nt lg].
  unfold App.stopGeneration, App.aborted in *. cbn [App.abortControllerRef] in *.
  destruct ab as [flag|]; fields; done.
Qed.

Lemma abort_checks_never_fire_witness :
  let file := GeminiService.mkFile (js "a.pdf") (js "JVBERi0xLjQ=") (js "application/pdf") in
  let svc := GeminiService.mkService None
               (fun _ _ => GeminiService.UploadFailed None)
               (fun _ _ => GeminiService.mkStream [js "re"; js "ply"] None) in
  let parse := fun _ : jsstring => @None (option App.ExecutionPlan) in
  App.aborted (App.run parse (App.initial [file])
                 [App.TypeInput (js "one"); App.KeyEnter 0 svc; App.Pull 0 10;
                  App.ClickStop; App.Pull 0 20]) = false.
Proof.
  intros file svc parse.
  exact (proj1 (abort_checks_never_fire parse (App.initial [file]) _ eq_refl)).
Defined.

(** ** The state after a plan *)

Section PlanOutcome.
Import ChatInterface GeminiService App.
Variable JSON_parse : jsstring -> option (option ExecutionPlan).

(** The component after step [k] of an approved plan has thrown. *)
Lemma failed_plan_state st plan services now0 nows k errorMessage :
  currentPlan st = Some plan ->
  idsInUse st ->
  k < length (steps plan) ->
  (forall j, j < k -> outcome (stepRun plan services j) = Returned) ->
  outcome (stepRun plan services k) = Thrown errorMessage ->
  length nows = pullsOfSteps plan services 0 (S k) ->
  exists txt,
    run JSON_parse (executePlan now0 services st) (Pull (nextTask st) <$> nows)
    = planFailed (setNextTask (S (nextTask st)) st) (tasks st) (nextTask st)
        ((messages st ++ (completedStep (nextId st) plan services <$> seq 0 k))
         ++ [mkMessage (nextId st + k) model txt true false None])
        k (S (nextId st + k))
        ((log st ++ concat ((fun j => effects (stepRun plan services j)) <$> seq 0 k))
         ++ effects (stepRun plan services k)).
Proof.
  intros Hplan Hids Hk Hok Hfail Hlen.
  rewrite (executePlan_start plan services st now0 Hplan) by lia.
  rewrite pullsOfSteps_snoc in Hlen. cbn [Nat.add] in Hlen.
  rewrite <- (take_drop (pullsOfSteps plan services 0 k) nows).
  rewrite fmap_app, run_app.
  set (frame := setNextTask (S (nextTask st)) st).
  destruct (run_steps_ok JSON_parse frame (tasks st) (nextTask st) plan services
              (nextId st) k 0 (messages st) (log st) now0
              (take (pullsOfSteps plan services 0 k) nows)) as [now1 Hrun].
  { eapply Forall_impl; [exact Hids|]. simpl. intros; lia. }
  { lia. }
  { lia. }
  { intros j Hj. apply Hok. lia. }
  { rewrite length_take. lia. }
  rewrite Nat.add_0_r in Hrun. rewrite Hrun. clear Hrun. cbn zeta.
  change (0 + k) with k.
  destruct (lookup_lt_is_Some_2 _ _ Hk) as [stepk ->].
  destruct (run_step_throw JSON_parse frame (tasks st) (nextTask st) plan services
              k (messages st ++ (completedStep (nextId st) plan services <$> seq 0 k))
              (nextId st + k)
              (log st ++ concat ((fun j => effects (stepRun plan services j)) <$> seq 0 k))
              now1 (drop (pullsOfSteps plan services 0 k) nows) errorMessage)
    as (txt & Htxt & ->).
  { apply Forall_app. split.
    - eapply Forall_impl; [exact Hids|]. simpl. intros; lia.
    - apply Forall_fmap, Forall_forall. intros j Hj%elem_of_seq. simpl. lia. }
  { done. }
  { rewrite length_drop. lia. }
  by exists txt.
Qed.

End PlanOutcome.

(** X15. When every step of an approved plan succeeds, with the chunks
    received at any times, the component ends in the state [completed] with
    the plan cleared, the step counter back at 0 and the status bar gone;
    the transcript has gained one finished message per step, in order, each
    with the step's header followed by all of its response; and the effects
    are those of the steps, in order. *)
Theorem approved_plan_runs_to_completion
    (JSON_parse : jsstring -> option (option App.ExecutionPlan))
    (st : App.State) (plan : App.ExecutionPlan)
    (services : nat -> GeminiService.Service) (now0 : Z) (nows : list Z) :
  App.currentPlan st = Some plan ->
  App.idsInUse st ->
  0 < length (App.steps plan) ->
  (forall j, j < length (App.steps plan) ->
     GeminiService.outcome (App.stepRun plan services j) = GeminiService.Returned) ->
  length nows = App.pullsOfSteps plan services 0 (length (App.steps plan)) ->
  let st' := App.run JSON_parse (App.executePlan now0 services st)
               (App.Pull (App.nextTask st) <$> nows) in
  App.appState st' = App.completed /\
  App.currentPlan st' = None /\
  App.executionStep st' = 0 /\
  MessageBubble.statusBarShown st' = false /\
  App.abortControllerRef st' = None /\
  App.tasks st' !! App.nextTask st = None /\
  App.messages st'
  = App.messages st
    ++ (App.completedStep (App.nextId st) plan services
          <$> seq 0 (length (App.steps plan))) /\
  App.log st'
  = App.log st
    ++ concat ((fun j => GeminiService.effects (App.stepRun plan services j))
               <$> seq 0 (length (App.steps plan))).
Proof.
  intros Hplan Hids Hlen Hok Hnows st'. subst st'.
  rewrite (plan_success_ends_completed JSON_parse st plan services now0 nows)
    by done.
  unfold App.planEnded, MessageBubble.statusBarShown. fields.
  repeat split; try done. apply lookup_delete_eq.
Qed.

(** The plan ["T"] with the steps ["a"] and ["b"], both of which succeed. *)
Lemma approved_plan_runs_to_completion_witness :
  let plan := App.mkPlan (js "T") [js "a"; js "b"] in
  let services := fun _ : nat =>
    GeminiService.mkService None
      (fun _ _ => GeminiService.UploadFailed None)
      (fun _ _ => GeminiService.mkStream [js "done"] None) in
  let st := App.mkState [] [] [] App.waiting_approval ∅ (Some plan) 0 None 0 ∅ 0 [] in
  let st' := App.run (fun _ => None) (App.executePlan 0 services st)
               (App.Pull (App.nextTask st) <$> [10; 20; 30; 40]%Z) in
  App.appState st' = App.completed /\ MessageBubble.statusBarShown st' = false.
Proof.
  intros plan services st st'.
  assert (forall j, j < length (App.steps plan) ->
            GeminiService.outcome (App.stepRun plan services j) = GeminiService.Returned)
    as Hok.
  { intros [|[|j]] Hj; [vm_compute; reflexivity | vm_compute; reflexivity |].
    simpl in Hj. lia. }
  assert (0 < length (App.steps plan)) as Hlen by (simpl; lia).
  assert (length [10; 20; 30; 40]%Z
          = App.pullsOfSteps plan services 0 (length (App.steps plan))) as Hnows
    by (vm_compute; reflexivity).
  destruct (approved_plan_runs_to_completion (fun _ => None) st plan services 0
              [10; 20; 30; 40]%Z eq_refl (Forall_nil_2 _) Hlen Hok Hnows)
    as (Hstate & _ & _ & Hbar & _).
  split; [exact Hstate | exact Hbar].
Defined.

(** X16. After a step of an approved plan has thrown, the component is idle
    but keeps the plan and the number of the failed step, so the status bar
    ["EXECUTION IN PROGRESS"] stays on the screen; the stop handler leaves
    it there, and it goes away when the plan is cancelled. *)
Theorem failed_plan_keeps_status_bar
    (JSON_parse : jsstring -> option (option App.ExecutionPlan))
    (st : App.State) (plan : App.ExecutionPlan)
    (services : nat -> GeminiService.Service) (now0 : Z) (nows : list Z)
    (k : nat) (errorMessage : jsstring) :
  App.currentPlan st = Some plan ->
  App.idsInUse st ->
  k < length (App.steps plan) ->
  (forall j, j < k ->
     GeminiService.outcome (App.stepRun plan services j) = GeminiService.Returned) ->
  GeminiService.outcome (App.stepRun plan services k)
    = GeminiService.Thrown errorMessage ->
  length nows = App.pullsOfSteps plan services 0 (S k) ->
  let st' := App.run JSON_parse (App.executePlan now0 services st)
               (App.Pull (App.nextTask st) <$> nows) in
  App.appState st' = App.idle /\
  App.currentPlan st' = Some plan /\
  App.executionStep st' = k + 1 /\
  MessageBubble.statusBarShown st' = true /\
  MessageBubble.statusBarShown (App.stopGeneration st') = true /\
  MessageBubble.statusBarShown (App.cancelPlan st') = false.
Proof.
  intros Hplan Hids Hk Hok Hfail Hlen st'. subst st'.
  destruct (failed_plan_state JSON_parse st plan services now0 nows k errorMessage
              Hplan Hids Hk Hok Hfail Hlen) as [txt ->].
  unfold App.planFailed, MessageBubble.statusBarShown, MessageBubble.totalSteps,
    App.stopGeneration, App.cancelPlan.
  destruct st as [fs ms inp state sent cp es ab nid ts nt lg].
  cbn [App.currentPlan] in Hplan. subst cp. fields.
  assert ((0 <? k + 1) && (k + 1 <=? length (App.steps plan)) = true) as Hbar.
  { apply andb_true_intro. split; [apply Nat.ltb_lt | apply Nat.leb_le]; lia. }
  repeat split; try done. by rewrite Nat.add_1_r.
Qed.

(** The plan ["T"] with the steps ["a"], ["b"], ["c"], whose second step is
    rejected by the safety filter. *)
Lemma failed_plan_keeps_status_bar_witness :
  let plan := App.mkPlan (js "T") [js "a"; js "b"; js "c"] in
  let services := fun i : nat =>
    GeminiService.mkService None
      (fun _ _ => GeminiService.UploadFailed None)
      (fun _ _ =>
         match i with
         | 0 => GeminiService.mkStream [js "one"] None
         | 1 => GeminiService.mkStream []
                  (Some (GeminiService.newError (js "blocked: SAFETY")))
         | _ => GeminiService.mkStream [js "three"] None
         end) in
  let st := App.mkState [] [] [] App.waiting_approval ∅ (Some plan) 0 None 0 ∅ 0 [] in
  let st' := App.run (fun _ => None) (App.executePlan 0 services st)
               (App.Pull (App.nextTask st) <$> [10; 20; 30]%Z) in
  App.appState st' = App.idle /\ MessageBubble.statusBarShown st' = true.
Proof.
  intros plan services st st'.
  assert (GeminiService.outcome (App.stepRun plan services 1)
          = GeminiService.Thrown
              (js "Safety Filter Triggered: The content was flagged by safety settings."))
    as Hfail by (vm_compute; reflexivity).
  assert (forall j, j < 1 ->
            GeminiService.outcome (App.stepRun plan services j) = GeminiService.Returned)
    as Hok.
  { intros j Hj. assert (j = 0) as -> by lia. vm_compute. reflexivity. }
  assert (1 < length (App.steps plan)) as Hk by (simpl; lia).
  destruct (failed_plan_keeps_status_bar (fun _ => None) st plan services 0
              [10; 20; 30]%Z 1 _ eq_refl (Forall_nil_2 _) Hk Hok Hfail eq_refl)
    as (Hidle & _ & _ & Hbar & _).
  split; [exact Hidle | exact Hbar].
Defined.

(** The stop handler on a state that is written out. *)
Lemma stopGeneration_mk fs ms inp state sent cp es ab nid ts nt lg :
  App.stopGeneration (App.mkState fs ms inp state sent cp es ab nid ts nt lg)
  = App.mkState fs
      match last ms with
      | Some lastMsg =>
          match App.role lastMsg with
          | ChatInterface.model =>
              if App.isStreaming lastMsg
              then removelast ms
                   ++ [App.withText (App.text lastMsg ++ App.stoppedByUser)
                         (App.withStreaming false lastMsg)]
              else ms
          | ChatInterface.user => ms
          end
      | None => ms
      end inp App.idle sent cp es None nid ts nt lg.
Proof. destruct ab as [flag|]; unfold App.stopGeneration; fields; reflexivity. Qed.

(** X17. Pressing Stop twice does what pressing it once does; the stop
    handler changes no message but the last, and it removes none. *)
Theorem stopGeneration_idempotent (st : App.State) :
  App.stopGeneration (App.stopGeneration st) = App.stopGeneration st /\
  removelast (App.messages (App.stopGeneration st)) = removelast (App.messages st) /\
  length (App.messages (App.stopGeneration st)) = length (App.messages st).
Proof.
  destruct st as [fs ms inp state sent cp es ab nid ts nt lg].
  rewrite !stopGeneration_mk. cbn [App.messages].
  destruct (last ms) as [lastMsg|] eqn:Hlast; [|by rewrite Hlast].
  destruct (App.role lastMsg) eqn:Hrole; [by rewrite Hlast, Hrole|].
  destruct (App.isStreaming lastMsg) eqn:Hstr; [|by rewrite Hlast, Hrole, Hstr].
  rewrite last_snoc. cbn [App.role App.withText App.withStreaming App.isStreaming].
  rewrite Hrole.
  apply last_Some in Hlast as [ms' ->].
  rewrite !removelast_last, !length_app. done.
Qed.

(** ** The list of files *)

Section FileList.
Import ChatInterface GeminiService App AppFiles.

Lemma totalSize_from (fs : list FileData) (acc : N) :
  foldl (fun acc f => (acc + N.of_nat (length (data f)))%N) acc fs
  = (acc + totalSize fs)%N.
Proof.
  unfold totalSize. revert acc; induction fs as [|f fs IH]; intros acc; simpl; [lia|].
  rewrite (IH (acc + _)%N), (IH (0 + _)%N). lia.
Qed.

Lemma totalSize_app (fs gs : list FileData) :
  totalSize (fs ++ gs) = (totalSize fs + totalSize gs)%N.
Proof. unfold totalSize at 1. rewrite foldl_app, totalSize_from. fold (totalSize fs). lia. Qed.

Lemma totalSize_cons (f : FileData) (fs : list FileData) :
  totalSize (f :: fs) = (N.of_nat (length (data f)) + totalSize fs)%N.
Proof. change (f :: fs) with ([f] ++ fs). rewrite totalSize_app. by cbn. Qed.

Lemma totalSize_delete (fs : list FileData) i :
  (totalSize (delete i fs) <= totalSize fs)%N.
Proof.
  revert i; induction fs as [|f fs IH]; intros [|i]; simpl; try lia.
  - rewrite totalSize_cons. lia.
  - rewrite !totalSize_cons. specialize (IH i). lia.
Qed.

Lemma setFiles_mk f a b c d e g h i j k l m :
  setFiles f (mkState a b c d e g h i j k l m) = mkState (f a) b c d e g h i j k l m.
Proof. reflexivity. Qed.

(** [handleFilesSelected] when the batch is taken. *)
Lemma handleFilesSelected_taken fs ms inp state sent cp es ab nid ts nt lg files newFiles :
  (totalSize files + totalSize newFiles <= MAX_PAYLOAD_SIZE)%N ->
  exists statusText,
    handleFilesSelected files newFiles (mkState fs ms inp state sent cp es ab nid ts nt lg)
    = match files with
      | [] =>
          (mkState (fs ++ newFiles) [mkMessage nid model statusText false false None]
             inp state ∅ cp es ab (S nid) ts nt lg, true)
      | _ :: _ =>
          (mkState (fs ++ newFiles)
             (ms ++ [mkMessage nid model statusText false false None])
             inp state sent cp es ab (S nid) ts nt lg, false)
      end.
Proof.
  intros Hfit. unfold handleFilesSelected.
  destruct (N.ltb_spec MAX_PAYLOAD_SIZE (totalSize files + totalSize newFiles)) as [|_];
    [lia|].
  rewrite setFiles_mk. destruct files as [|f files]; fields; eauto.
Qed.

End FileList.

Section WholeTranscript.
Import ChatInterface GeminiService App AppFiles.
Variable JSON_parse : jsstring -> option (option ExecutionPlan).

Lemma messageIds_handleSendMessage st text now svc :
  exists k,
    messageIds (handleSendMessage text now svc st) = messageIds st ++ seq (nextId st) k /\
    nextId (handleSendMessage text now svc st) = nextId st + k.
Proof.
  unfold messageIds. destruct st as [fs ms inp state sent cp es ab nid ts nt lg].
  cbn [messages nextId].
  unfold handleSendMessage; fields;
    repeat (case_match; fields_everywhere; simplify_eq;
            try (by exists 0; rewrite app_nil_r, Nat.add_0_r));
    rewrite ?fmap_app; cbn [fmap list_fmap id];
    first [ by exists 0; rewrite app_nil_r, Nat.add_0_r
          | by exists 1; split; [|lia]
          | by exists 2; rewrite <- (assoc_L (++)); split; [|lia] ].
Qed.

(** One event appends messages with the next fresh ids, after it has
    dropped the transcript (a batch of files read on an empty list) or, as
    every other event, nothing. *)
Lemma messageIds_event st ev :
  exists k j,
    messageIds (AppEvents.step JSON_parse st ev)
    = drop j (messageIds st ++ seq (nextId st) k) /\
    nextId (AppEvents.step JSON_parse st ev) = nextId st + k /\
    j <= length (messageIds st) /\
    (AppEvents.onEmptyList ev = false -> j = 0).
Proof.
  destruct ev as [ev|text now svc|files newFiles|index]; cbn [AppEvents.step].
  - destruct (messageIds_step JSON_parse st ev) as (k & H & N).
    exists k, 0. rewrite drop_0. repeat split; [done|done|lia].
  - destruct (messageIds_handleSendMessage st text now svc) as (k & H & N).
    exists k, 0. rewrite drop_0. repeat split; [done|done|lia].
  - destruct (N.ltb_spec MAX_PAYLOAD_SIZE (totalSize files + totalSize newFiles))
      as [Hbig|Hfit].
    + unfold handleFilesSelected.
      destruct (N.ltb_spec MAX_PAYLOAD_SIZE (totalSize files + totalSize newFiles));
        [|lia].
      exists 0, 0. cbn [fst]. rewrite drop_0, app_nil_r, Nat.add_0_r.
      repeat split; [lia].
    + destruct st as [fs ms inp state sent cp es ab nid ts nt lg].
      destruct (handleFilesSelected_taken fs ms inp state sent cp es ab nid ts nt lg
                  files newFiles Hfit) as (statusText & ->).
      destruct files as [|f files]; cbn [fst]; unfold messageIds; cbn [messages nextId].
      * exists 1, (length (id <$> ms)). rewrite drop_app_length.
        repeat split; [lia | lia | done].
      * exists 1, 0. rewrite drop_0, fmap_app.
        repeat split; [lia | lia].
  - exists 0, 0. rewrite drop_0, app_nil_r, Nat.add_0_r.
    unfold handleRemoveFile, messageIds.
    destruct (files st !! index); [|repeat split; lia].
    destruct st; repeat split; lia.
Qed.

Lemma messageIds_events st evs :
  exists k j,
    messageIds (AppEvents.run JSON_parse st evs)
    = drop j (messageIds st ++ seq (nextId st) k) /\
    nextId (AppEvents.run JSON_parse st evs) = nextId st + k /\
    j <= length (messageIds st) + k /\
    (forallb (fun ev => negb (AppEvents.onEmptyList ev)) evs = true -> j = 0).
Proof.
  revert st; induction evs as [|ev evs IH]; intros st.
  - exists 0, 0. cbn. rewrite app_nil_r, Nat.add_0_r. repeat split; lia.
  - cbn [AppEvents.run foldl forallb].
    destruct (messageIds_event st ev) as (k1 & j1 & H1 & N1 & L1 & Z1).
    destruct (IH (AppEvents.step JSON_parse st ev)) as (k2 & j2 & H2 & N2 & L2 & Z2).
    exists (k1 + k2), (j1 + j2). unfold AppEvents.run in *.
    rewrite H2, N2, H1, N1 in *.
    rewrite length_drop, length_app, length_seq in L2.
    repeat split.
    + rewrite seq_app, (assoc_L (++)).
      rewrite <- drop_drop. f_equal.
      symmetry. apply drop_app_le. rewrite length_app, length_seq. lia.
    + lia.
    + lia.
    + intros [Hev Hevs]%andb_prop. apply negb_true_iff in Hev.
      rewrite (Z1 Hev), (Z2 Hevs). done.
Qed.

End WholeTranscript.

(** X12. Whatever happens to the component (events of the chat, prompts of
    the quick actions, batches of files, removals of files) and however the
    streams go, the handlers add to the transcript at its end, each new
    message with the next fresh id, and remove or move no message, with one
    exception: a batch of files taken by the handler of a render in which
    the list of files was empty replaces the whole transcript by its status
    message. So the transcript is at any time a final part of the sequence
    of all messages added so far, and the whole of it when there was no
    such batch; ids that are distinct and in use stay so, and a message is
    only ever updated under its own id. *)
Theorem transcript_only_grows (JSON_parse : jsstring -> option (option App.ExecutionPlan))
    (st : App.State) (events : list AppEvents.Event) :
  let st' := AppEvents.run JSON_parse st events in
  (exists k j,
     AppFiles.messageIds st'
     = drop j (AppFiles.messageIds st ++ seq (App.nextId st) k) /\
     App.nextId st' = App.nextId st + k /\
     (forallb (fun ev => negb (AppEvents.onEmptyList ev)) events = true -> j = 0)) /\
  (App.idsInUse st -> NoDup (AppFiles.messageIds st) ->
   NoDup (AppFiles.messageIds st') /\ App.idsInUse st').
Proof.
  intros st'. subst st'.
  destruct (messageIds_events JSON_parse st events) as (k & j & Hids & Hnext & _ & Hj).
  split; [by exists k, j|]. intros Huse Hdup.
  assert (Forall (fun i => i < App.nextId st) (AppFiles.messageIds st)) as Hold.
  { unfold AppFiles.messageIds. by apply Forall_fmap. }
  split.
  - rewrite Hids. eapply sublist_NoDup; [|apply sublist_drop].
    apply NoDup_app. split; [done|]. split; [|apply NoDup_seq].
    intros i Hi Hseq. apply elem_of_seq in Hseq.
    rewrite Forall_forall in Hold. specialize (Hold i Hi). lia.
  - unfold App.idsInUse.
    apply (Forall_fmap App.id (fun i => i < App.nextId (AppEvents.run JSON_parse st events))).
    fold (AppFiles.messageIds (AppEvents.run JSON_parse st events)).
    rewrite Hids, Hnext. apply Forall_drop, Forall_app. split.
    + eapply Forall_impl; [exact Hold|]. simpl. intros; lia.
    + apply Forall_forall. intros i Hi%elem_of_seq. lia.
Qed.

(** A message is sent and answered, then a file is removed, then a batch
    read while the list was empty arrives, and a second message is sent. *)
Lemma transcript_only_grows_witness :
  let file := GeminiService.mkFile (js "a.pdf") (js "JVBERi0xLjQ=") (js "application/pdf") in
  let svc := GeminiService.mkService None
               (fun _ _ => GeminiService.UploadFailed None)
               (fun _ _ => GeminiService.mkStream [js "reply"] None) in
  let parse := fun _ : jsstring => @None (option App.ExecutionPlan) in
  let st' := AppEvents.run parse (App.initial [file])
               [AppEvents.Chat (App.TypeInput (js "one"));
                AppEvents.Chat (App.KeyEnter 0 svc);
                AppEvents.Chat (App.Pull 0 10); AppEvents.Chat (App.Pull 0 20);
                AppEvents.ClickRemove 0;
                AppEvents.FilesRead [] [file];
                AppEvents.Prompt (js "two") 30 svc] in
  NoDup (AppFiles.messageIds st') /\ App.idsInUse st'.
Proof.
  intros file svc parse st'.
  apply (transcript_only_grows parse (App.initial [file])).
  - constructor.
  - constructor.
Defined.

(** X18. The limit on the total payload: a batch that would take the sum of
    the data lengths above 500 * 1024 * 1024 is refused and changes
    nothing; a batch that fits is appended to the list. So, when the list
    has not changed while the batch was read, the sum never exceeds the
    limit; and ids that are distinct and in use stay so. *)
Theorem payload_limit_is_kept (st : App.State) (newFiles : list GeminiService.FileData) :
  let result := AppFiles.handleFilesSelected (App.files st) newFiles st in
  ((AppFiles.MAX_PAYLOAD_SIZE
    < AppFiles.totalSize (App.files st) + AppFiles.totalSize newFiles)%N ->
   result = (st, false)) /\
  ((AppFiles.totalSize (App.files st) + AppFiles.totalSize newFiles
    <= AppFiles.MAX_PAYLOAD_SIZE)%N ->
   App.files result.1 = App.files st ++ newFiles) /\
  ((AppFiles.totalSize (App.files st) <= AppFiles.MAX_PAYLOAD_SIZE)%N ->
   (AppFiles.totalSize (App.files result.1) <= AppFiles.MAX_PAYLOAD_SIZE)%N) /\
  (App.idsInUse st -> NoDup (AppFiles.messageIds st) ->
   App.idsInUse result.1 /\ NoDup (AppFiles.messageIds result.1)).
Proof.
  intros result.
  destruct (N.ltb_spec AppFiles.MAX_PAYLOAD_SIZE
              (AppFiles.totalSize (App.files st) + AppFiles.totalSize newFiles))
    as [Hbig|Hfit].
  - assert (result = (st, false)) as ->.
    { subst result. unfold AppFiles.handleFilesSelected.
      by rewrite (proj2 (N.ltb_lt _ _) Hbig). }
    split; [done|]. split; [lia|]. done.
  - destruct st as [fs ms inp state sent cp es ab nid ts nt lg]. cbn [App.files] in *.
    destruct (handleFilesSelected_taken fs ms inp state sent cp es ab nid ts nt lg
                fs newFiles Hfit) as [statusText Hres].
    fold result in Hres. clearbody result. subst result.
    split; [lia|].
    assert (forall ids : list nat, NoDup ids -> Forall (fun i => i < nid) ids ->
              NoDup (ids ++ [nid])) as Hsnoc.
    { intros ids Hdup Hlt. apply NoDup_app. split; [done|].
      split; [|apply NoDup_singleton].
      intros i Hi ->%list_elem_of_singleton. rewrite Forall_forall in Hlt.
      specialize (Hlt _ Hi). lia. }
    unfold App.idsInUse, AppFiles.messageIds.
    destruct fs as [|f fs]; cbn [fst App.files App.messages App.nextId].
    + split; [done|]. split; [by rewrite totalSize_app|]. intros _ _.
      split; [|apply NoDup_singleton]. constructor; [cbn; lia | constructor].
    + split; [done|]. split; [by rewrite totalSize_app|]. intros Huse Hdup. split.
      * apply Forall_app. split; [|constructor; [cbn; lia | constructor]].
        eapply Forall_impl; [exact Huse|]. cbn. intros; lia.
      * rewrite fmap_app. apply Hsnoc; [done|]. by apply Forall_fmap.
Qed.

(** A second small file added to a first one. *)
Lemma payload_limit_is_kept_witness :
  let a := GeminiService.mkFile (js "a.pdf") (js "JVBERi0xLjQ=") (js "application/pdf") in
  let b := GeminiService.mkFile (js "b.png") (js "iVBORw0KGgo=") (js "image/png") in
  App.files (AppFiles.handleFilesSelected [a] [b] (App.initial [a])).1 = [a; b] /\
  (AppFiles.totalSize
     (App.files (AppFiles.handleFilesSelected [a] [b] (App.initial [a])).1)
   <= AppFiles.MAX_PAYLOAD_SIZE)%N.
Proof.
  intros a b.
  destruct (payload_limit_is_kept (App.initial [a]) [b]) as (_ & Hadd & Hlimit & _).
  split.
  - apply Hadd. vm_compute. discriminate.
  - apply Hlimit. vm_compute. discriminate.
Defined.

(** X19. Removing the file at an index of the list takes that file, and no
    other, out of the list, and never raises the total size; at an index
    beyond the list the handler throws. The name of the removed file is no
    longer marked as sent, so a file that is left under the same name is
    passed on again with the next message; and a file that is added and
    then removed leaves the list as it was. *)
Theorem handleRemoveFile_result (st : App.State) (index : nat) :
  (length (App.files st) <= index <-> AppFiles.handleRemoveFile index st = None) /\
  (forall removed,
     App.files st !! index = Some removed ->
     exists st',
       AppFiles.handleRemoveFile index st = Some st' /\
       App.files st' = take index (App.files st) ++ drop (S index) (App.files st) /\
       (AppFiles.totalSize (App.files st') <= AppFiles.totalSize (App.files st))%N /\
       App.sentFileNames st' = App.sentFileNames st ∖ {[GeminiService.name removed]} /\
       Forall (fun f => GeminiService.name f = GeminiService.name removed ->
                        f ∈ AppFiles.filesToSend st') (App.files st') /\
       App.messages st' = App.messages st) /\
  (forall f,
     (AppFiles.totalSize (App.files st) + AppFiles.totalSize [f]
      <= AppFiles.MAX_PAYLOAD_SIZE)%N ->
     exists st',
       AppFiles.handleRemoveFile (length (App.files st))
         (AppFiles.handleFilesSelected (App.files st) [f] st).1 = Some st' /\
       App.files st' = App.files st).
Proof.
  destruct st as [fs ms inp state sent cp es ab nid ts nt lg]. cbn [App.files].
  split; [|split].
  - unfold AppFiles.handleRemoveFile. cbn [App.files].
    destruct (fs !! index) as [removed|] eqn:Hlook.
    + apply lookup_lt_Some in Hlook. split; [lia | done].
    + apply lookup_ge_None in Hlook. done.
  - intros removed Hlook. unfold AppFiles.handleRemoveFile. cbn [App.files].
    rewrite Hlook, setFiles_mk. fields. eexists. split; [reflexivity|].
    cbn [App.files App.sentFileNames App.messages].
    split; [apply delete_take_drop|]. split; [apply totalSize_delete|].
    split; [done|]. split; [|done].
    apply Forall_forall. intros f Hf Hname. unfold AppFiles.filesToSend.
    cbn [App.files App.sentFileNames]. apply list_elem_of_filter. split; [|done].
    rewrite Hname. apply not_elem_of_difference. right. by apply elem_of_singleton.
  - intros f Hfit.
    destruct (handleFilesSelected_taken fs ms inp state sent cp es ab nid ts nt lg
                fs [f] Hfit) as [statusText ->].
    unfold AppFiles.handleRemoveFile.
    destruct fs as [|f0 fs]; cbn [fst App.files].
    + cbn. rewrite setFiles_mk. fields. eauto.
    + rewrite (lookup_app_r (f0 :: fs)) by done. rewrite Nat.sub_diag.
      cbn [lookup list_lookup]. rewrite setFiles_mk. fields. eexists.
      split; [reflexivity|]. cbn [App.files].
      rewrite delete_take_drop, take_app_length.
      rewrite drop_ge by (rewrite length_app; cbn; lia). by rewrite app_nil_r.
Qed.

(** Two files of the same name, the first of them sent already. *)
Lemma handleRemoveFile_result_witness :
  let a := GeminiService.mkFile (js "a.pdf") (js "JVBERi0xLjQ=") (js "application/pdf") in
  let a' := GeminiService.mkFile (js "a.pdf") (js "JVBERi0xLjc=") (js "application/pdf") in
  let st := App.mkState [a; a'] [] [] App.idle {[js "a.pdf"]} None 0 None 0 ∅ 0 [] in
  exists st',
    AppFiles.handleRemoveFile 0 st = Some st' /\
    App.files st' = [a'] /\
    a' ∈ AppFiles.filesToSend st'.
Proof.
  intros a a' st.
  destruct (proj1 (proj2 (handleRemoveFile_result st 0)) a eq_refl)
    as (st' & Hrem & Hfiles & _ & _ & Hsend & _).
  exists st'. split; [exact Hrem|]. split; [exact Hfiles|].
  rewrite Hfiles in Hsend. cbn in Hsend.
  apply Forall_cons in Hsend as [Hsend _]. apply Hsend. reflexivity.
Defined.

(** ** Reading a file *)

Section DataUrl.
Import FileUtils.

Lemma split_nonempty (s : jsstring) : split s <> [].
Proof. induction s as [|c s IH]; simpl; [done|]. destruct (c =? comma)%N; [done|]. by destruct (split s). Qed.

Lemma split_no_comma (s : jsstring) : comma ∉ s -> split s = [s].
Proof.
  induction s as [|c s IH]; [done|]. intros Hc. simpl.
  apply not_elem_of_cons in Hc as [Hne Hs].
  destruct (N.eqb_spec c comma) as [->|_]; [done|]. by rewrite (IH Hs).
Qed.

Lemma split_at_comma (a b : jsstring) :
  comma ∉ a -> split (a ++ comma :: b) = a :: split b.
Proof.
  induction a as [|c a IH]; intros Hc; simpl.
  - reflexivity.
  - apply not_elem_of_cons in Hc as [Hne Ha].
    destruct (N.eqb_spec c comma) as [->|_]; [done|]. by rewrite (IH Ha).
Qed.

End DataUrl.

(** X20. Reading back the payload of a data URL: for a content type and a
    payload without a comma, [fileToBase64] gives the payload from which
    [base64ToBlob] builds its URL, whatever the two are; a payload with a
    comma is cut at it; and a reader result without any comma gives
    undefined instead of a string. *)
Theorem fileToBase64_reads_payload (contentType base64Data : jsstring) :
  FileUtils.comma ∉ contentType ->
  (FileUtils.comma ∉ base64Data ->
   FileUtils.fileToBase64 (FileUtils.dataUrl contentType base64Data) = Some base64Data) /\
  (forall rest,
     FileUtils.comma ∉ base64Data ->
     FileUtils.fileToBase64
       (FileUtils.dataUrl contentType (base64Data ++ FileUtils.comma :: rest))
     = Some base64Data) /\
  FileUtils.fileToBase64 contentType = None.
Proof.
  intros Htype.
  assert (forall payload,
            FileUtils.dataUrl contentType payload
            = (js "data:" ++ contentType ++ js ";base64") ++ FileUtils.comma :: payload)
    as Hurl.
  { intros payload. unfold FileUtils.dataUrl.
    change (js ";base64,") with (js ";base64" ++ [FileUtils.comma]).
    by rewrite <- !(assoc_L (++)). }
  assert (FileUtils.comma ∉ js "data:" ++ contentType ++ js ";base64") as Hhead.
  { rewrite !elem_of_app. intros [H|[H|H]]; [|done|].
    - revert H. vm_compute. intros H. by repeat (apply elem_of_cons in H as [H|H]; [done|]);
        apply elem_of_nil in H.
    - revert H. vm_compute. intros H. by repeat (apply elem_of_cons in H as [H|H]; [done|]);
        apply elem_of_nil in H. }
  unfold FileUtils.fileToBase64. split; [|split].
  - intros Hdata. rewrite Hurl, (split_at_comma _ _ Hhead), (split_no_comma _ Hdata). done.
  - intros rest Hdata.
    rewrite Hurl, (split_at_comma _ _ Hhead), (split_at_comma _ _ Hdata). done.
  - by rewrite (split_no_comma _ Htype).
Qed.

Lemma fileToBase64_reads_payload_witness :
  FileUtils.fileToBase64 (FileUtils.dataUrl (js "application/pdf") (js "JVBERi0xLjQ="))
  = Some (js "JVBERi0xLjQ=").
Proof.
  assert (FileUtils.comma ∉ js "application/pdf") as Htype.
  { vm_compute. intros H.
    by repeat (apply elem_of_cons in H as [H|H]; [done|]); apply elem_of_nil in H. }
  assert (FileUtils.comma ∉ js "JVBERi0xLjQ=") as Hdata.
  { vm_compute. intros H.
    by repeat (apply elem_of_cons in H as [H|H]; [done|]); apply elem_of_nil in H. }
  exact (proj1 (fileToBase64_reads_payload _ _ Htype) Hdata).
Defined.

Lemma collect_cons (file : FileUpload.File) (rest : list FileUpload.File) :
  FileUpload.collect (file :: rest)
  = if ((FileUpload.MAX_FILE_SIZE_MB * 1024 * 1024)%N <? FileUpload.size file)%N
    then FileUpload.collect rest
    else if negb (bool_decide (FileUpload.type file = FileUpload.pdfType))
            && negb (startsWith FileUpload.imagePrefix (FileUpload.type file))
    then FileUpload.collect rest
    else match FileUpload.base64 file with
         | Some data =>
             GeminiService.mkFile (FileUpload.fileName file) data (FileUpload.type file)
               :: FileUpload.collect rest
         | None => FileUpload.collect rest
         end.
Proof. reflexivity. Qed.

(** X21. The files that the upload area passes on: each comes from a
    selected file of at most 200 * 1024 * 1024 bytes whose type is
    [application/pdf] or starts with [image/] and whose reading succeeded,
    with the name, the type and the payload of that file; the order of the
    selection is kept; the callback is not called with an empty list; and
    the chat attachment button applies the same rule before it calls
    [handleFilesSelected]. *)
Theorem only_pdfs_and_images_are_accepted (files : list FileUpload.File) :
  Forall (fun accepted =>
            exists file,
              file ∈ files /\
              (FileUpload.size file <= 200 * 1024 * 1024)%N /\
              (FileUpload.type file = FileUpload.pdfType \/
               startsWith FileUpload.imagePrefix (FileUpload.type file) = true) /\
              FileUpload.base64 file = Some (GeminiService.data accepted) /\
              GeminiService.name accepted = FileUpload.fileName file /\
              GeminiService.mimeType accepted = FileUpload.type file)
    (FileUpload.collect files) /\
  GeminiService.name <$> FileUpload.collect files
    `sublist_of` FileUpload.fileName <$> files /\
  FileUpload.processFiles files <> Some [] /\
  AppFiles.collect files = FileUpload.collect files /\
  (forall current st,
     AppFiles.handleChatAttachment current files st
     = match FileUpload.processFiles files with
       | Some newFilesData => AppFiles.handleFilesSelected current newFilesData st
       | None => (st, false)
       end).
Proof.
  assert (AppFiles.collect files = FileUpload.collect files) as Hsame.
  { induction files as [|file files IH]; [done|].
    rewrite collect_cons, <- IH. reflexivity. }
  split; [|split; [|split; [|split; [exact Hsame|]]]].
  - clear Hsame. induction files as [|file files IH]; [constructor|].
    rewrite collect_cons.
    assert (Forall (fun accepted =>
              exists file0, file0 ∈ file :: files /\
                (FileUpload.size file0 <= 200 * 1024 * 1024)%N /\
                (FileUpload.type file0 = FileUpload.pdfType \/
                 startsWith FileUpload.imagePrefix (FileUpload.type file0) = true) /\
                FileUpload.base64 file0 = Some (GeminiService.data accepted) /\
                GeminiService.name accepted = FileUpload.fileName file0 /\
                GeminiService.mimeType accepted = FileUpload.type file0)
              (FileUpload.collect files)) as IH'.
    { eapply Forall_impl; [exact IH|]. intros accepted (file0 & Hin & H).
      exists file0. split; [by apply list_elem_of_further | done]. }
    destruct (N.ltb_spec (FileUpload.MAX_FILE_SIZE_MB * 1024 * 1024)%N (FileUpload.size file)) as [|Hsize];
      [exact IH'|].
    destruct (negb (bool_decide (FileUpload.type file = FileUpload.pdfType))
              && negb (startsWith FileUpload.imagePrefix (FileUpload.type file)))
      eqn:Htype; [exact IH'|].
    destruct (FileUpload.base64 file) as [data|] eqn:Hread; [|exact IH'].
    constructor; [|exact IH']. exists file. split; [apply list_elem_of_here|].
    split; [exact Hsize|]. split; [|done].
    apply andb_false_iff in Htype as [H|H]; apply negb_false_iff in H.
    + left. by apply bool_decide_eq_true in H.
    + by right.
  - clear Hsame. induction files as [|file files IH]; [done|].
    rewrite collect_cons, fmap_cons.
    destruct (_ <? _)%N; [by apply sublist_cons|].
    destruct (_ && _); [by apply sublist_cons|].
    destruct (FileUpload.base64 file); [|by apply sublist_cons].
    rewrite fmap_cons. by apply sublist_skip.
  - unfold FileUpload.processFiles. by destruct (FileUpload.collect files).
  - intros current st. unfold AppFiles.handleChatAttachment, FileUpload.processFiles.
    rewrite Hsame. by destruct (FileUpload.collect files).
Qed.


(** ** The document preview *)

Section Preview.
Import DocumentPreview.

Lemma render_cases prev next :
  render prev next = next \/ render prev next = effect next.
Proof. unfold render. destruct (_ && _); auto. Qed.

Lemma inSync_mount htmlContent : inSync (mount htmlContent).
Proof. unfold inSync, mount, effect. cbn. split; [right; done|]. done. Qed.

Lemma inSync_step st ev : inSync st -> inSync (step st ev).
Proof.
  destruct st as [html content editing edited pending].
  unfold inSync. cbn [timer isEditing hasUserEdited initialHtml renderedContent].
  unfold isTooLarge. cbn [renderedContent].
  intros (Htimer & Hcontent & Hlarge).
  destruct ev as [html'| | |innerHTML|confirmed]; cbn [step isEditing hasUserEdited].
  - unfold setProps, render.
    cbn [initialHtml isEditing hasUserEdited]. rewrite !eqb_reflx, !andb_true_r.
    case_bool_decide as Heq.
    + subst html'. cbn [timer isEditing hasUserEdited initialHtml renderedContent]. done.
    + unfold effect. cbn [timer isEditing hasUserEdited initialHtml renderedContent].
      destruct editing, edited; cbn; split; try (by left); try (by right);
        (split; [done|]); done.
  - unfold timerFires. cbn [timer].
    destruct pending as [captured|]; [|done].
    cbn [timer isEditing hasUserEdited initialHtml renderedContent].
    destruct Htimer as [|(-> & -> & [= ->])]; [done|].
    split; [by left|]. split; [done|]. done.
  - destruct editing; [done|]. unfold handleManualEdit, isTooLarge.
    cbn [renderedContent].
    destruct (CONTENT_LIMIT <? N.of_nat (length content))%N eqn:Hbig.
    + cbn [timer isEditing hasUserEdited initialHtml renderedContent]. done.
    + unfold render, effect.
      cbn [timer isEditing hasUserEdited initialHtml renderedContent].
      rewrite bool_decide_eq_true_2 by done. cbn. split; [by left|]. done.
  - destruct editing; [|done]. unfold handleSaveManualEdit, render, effect.
    destruct Htimer as [->|(? & _)]; [|done].
    destruct innerHTML as [inner|];
      cbn [timer isEditing hasUserEdited initialHtml renderedContent];
      rewrite bool_decide_eq_true_2 by done; cbn.
    + split; [by left|]. done.
    + destruct edited; cbn; [split; [by left|]; done|].
      split; [by right|]. done.
  - destruct edited, editing; cbn [andb negb]; try done.
    destruct confirmed; [|done]. unfold handleDiscardEdits, render, effect.
    cbn [timer isEditing hasUserEdited initialHtml renderedContent].
    rewrite bool_decide_eq_true_2 by done. cbn. split; [by right|]. done.
Qed.

Lemma inSync_run st evs : inSync st -> inSync (run st evs).
Proof.
  revert st; induction evs as [|ev evs IH]; intros st Hst; [done|].
  cbn. apply IH. by apply inSync_step.
Qed.

(** Once the user has edited, with no timer pending, a new prop or a timer
    changes neither the content nor the flags. *)
Lemma automatic_step_edited st ev :
  hasUserEdited st = true -> timer st = None -> automatic ev = true ->
  renderedContent (step st ev) = renderedContent st /\
  hasUserEdited (step st ev) = true /\ timer (step st ev) = None /\
  isEditing (step st ev) = isEditing st.
Proof.
  destruct st as [html content editing edited pending]. cbn. intros -> -> Hev.
  destruct ev as [html'| | | |]; try done; cbn [step].
  unfold setProps, render, effect.
  cbn [timer isEditing hasUserEdited initialHtml renderedContent].
  destruct (_ && _); cbn; by rewrite ?andb_false_r.
Qed.

End Preview.

(** X22. Once the user has saved a manual edit of a preview, no later prop
    and no timer changes what the preview holds: however the reply goes on
    streaming, the edited content stays, until the user discards it. *)
Theorem user_edits_are_kept (htmlContent : jsstring)
    (events later : list DocumentPreview.Event) :
  let st := DocumentPreview.run (DocumentPreview.mount htmlContent) events in
  DocumentPreview.hasUserEdited st = true ->
  forallb DocumentPreview.automatic later = true ->
  DocumentPreview.renderedContent (DocumentPreview.run st later)
  = DocumentPreview.renderedContent st /\
  DocumentPreview.hasUserEdited (DocumentPreview.run st later) = true.
Proof.
  intros st Hedited Hlater.
  assert (DocumentPreview.timer st = None) as Htimer.
  { destruct (inSync_run (DocumentPreview.mount htmlContent) events
                (inSync_mount htmlContent)) as ([H|(_ & H & _)] & _); [done|].
    fold st in H. congruence. }
  clearbody st. revert st Hedited Htimer.
  induction later as [|ev later IH]; intros st Hedited Htimer; [done|].
  cbn in Hlater. apply andb_prop in Hlater as [Hev Hlater].
  destruct (automatic_step_edited st ev Hedited Htimer Hev) as (Hc & He & Ht & _).
  cbn [DocumentPreview.run foldl]. destruct (IH Hlater _ He Ht) as [Hc' He'].
  unfold DocumentPreview.run in *. rewrite Hc', Hc. done.
Qed.

(** The user edits the first version; the reply streams on. *)
Lemma user_edits_are_kept_witness :
  let st := DocumentPreview.run (DocumentPreview.mount (js "<p>a</p>"))
              [DocumentPreview.ClickEdit; DocumentPreview.ClickSave (Some (js "<p>mine</p>"))] in
  DocumentPreview.renderedContent
    (DocumentPreview.run st
       [DocumentPreview.Props (js "<p>a</p><p>b</p>"); DocumentPreview.TimerFires])
  = js "<p>mine</p>".
Proof.
  intros st.
  exact (proj1 (user_edits_are_kept (js "<p>a</p>")
                  [DocumentPreview.ClickEdit;
                   DocumentPreview.ClickSave (Some (js "<p>mine</p>"))]
                  [DocumentPreview.Props (js "<p>a</p><p>b</p>");
                   DocumentPreview.TimerFires] eq_refl eq_refl)).
Defined.

(** X23. While the user neither edits nor has edited, the preview catches
    up with the reply: after a new prop, the next timer to fire sets the
    content to that prop, whatever happened before; and a discard that is
    confirmed sets it to the current prop at once. *)
Theorem preview_catches_up (htmlContent latest : jsstring)
    (events : list DocumentPreview.Event) :
  let st := DocumentPreview.run (DocumentPreview.mount htmlContent) events in
  (DocumentPreview.isEditing st = false -> DocumentPreview.hasUserEdited st = false ->
   DocumentPreview.renderedContent
     (DocumentPreview.run st [DocumentPreview.Props latest; DocumentPreview.TimerFires])
   = latest) /\
  (DocumentPreview.isEditing st = false -> DocumentPreview.hasUserEdited st = true ->
   DocumentPreview.renderedContent
     (DocumentPreview.step st (DocumentPreview.ClickDiscard true))
   = DocumentPreview.initialHtml st).
Proof.
  intros st.
  pose proof (inSync_run (DocumentPreview.mount htmlContent) events
                (inSync_mount htmlContent)) as (Htimer & Hcontent & _).
  fold st in Htimer, Hcontent. clearbody st.
  destruct st as [html content editing edited pending]. cbn in *. split.
  - intros -> ->. unfold DocumentPreview.setProps, DocumentPreview.render.
    cbn [DocumentPreview.initialHtml DocumentPreview.isEditing
         DocumentPreview.hasUserEdited]. cbn [Bool.eqb andb].
    rewrite andb_true_r. case_bool_decide as Heq.
    + subst latest. unfold DocumentPreview.timerFires. cbn.
      destruct pending as [captured|].
      * destruct Htimer as [|(_ & _ & [= ->])]; done.
      * cbn. by apply Hcontent.
    + done.
  - intros -> ->. cbn. unfold DocumentPreview.handleDiscardEdits, DocumentPreview.render.
    cbn. by destruct (bool_decide _).
Qed.

Lemma preview_catches_up_witness :
  DocumentPreview.renderedContent
    (DocumentPreview.run
       (DocumentPreview.run (DocumentPreview.mount (js "<p>a")) [DocumentPreview.TimerFires])
       [DocumentPreview.Props (js "<p>a</p>"); DocumentPreview.TimerFires])
  = js "<p>a</p>".
Proof.
  exact (proj1 (preview_catches_up (js "<p>a") (js "<p>a</p>")
                  [DocumentPreview.TimerFires]) eq_refl eq_refl).
Defined.

(** X24. What the preview puts in the DOM is never longer than 50,000,000
    code units, and it is a prefix of the content held; and in every state
    the component reaches, a document in edit mode is shown in full, with
    no timer pending that could replace it under the user's hands. *)
Theorem preview_display_is_bounded (htmlContent : jsstring)
    (events : list DocumentPreview.Event) :
  let st := DocumentPreview.run (DocumentPreview.mount htmlContent) events in
  (N.of_nat (length (DocumentPreview.displayContent st))
   <= DocumentPreview.CONTENT_LIMIT)%N /\
  DocumentPreview.displayContent st `prefix_of` DocumentPreview.renderedContent st /\
  (DocumentPreview.isEditing st = true ->
   DocumentPreview.displayContent st = DocumentPreview.renderedContent st /\
   DocumentPreview.timer st = None).
Proof.
  intros st.
  pose proof (inSync_run (DocumentPreview.mount htmlContent) events
                (inSync_mount htmlContent)) as (Htimer & _ & Hlarge).
  fold st in Htimer, Hlarge. clearbody st.
  unfold DocumentPreview.displayContent, DocumentPreview.isTooLarge in *.
  remember DocumentPreview.CONTENT_LIMIT as limit.
  unfold substring. rewrite drop_0, Nat.sub_0_r.
  destruct (N.ltb_spec limit (N.of_nat (length (DocumentPreview.renderedContent st))))
    as [Hbig|Hsmall].
  - split; [rewrite length_take; lia|]. split; [apply prefix_take|].
    intros Hed. specialize (Hlarge Hed). done.
  - split; [lia|]. split; [done|]. intros Hed. split; [done|].
    destruct Htimer as [|(? & _)]; [done | congruence].
Qed.

Lemma preview_display_is_bounded_witness :
  let st := DocumentPreview.run (DocumentPreview.mount (js "<p>a</p>"))
              [DocumentPreview.ClickEdit] in
  DocumentPreview.displayContent st = DocumentPreview.renderedContent st /\
  DocumentPreview.timer st = None.
Proof.
  intros st.
  exact (proj2 (proj2 (preview_display_is_bounded (js "<p>a</p>")
                         [DocumentPreview.ClickEdit])) eq_refl).
Defined.

(** ** Files added to the list *)



(** ** The custom MCQ prompt *)

Section CustomPrompt.
Import ChatInterface GeminiService App QuickActions.

Lemma startsWith_prefix (pat s : jsstring) : startsWith pat (pat ++ s) = true.
Proof. induction pat as [|p pat IH]; [done|]. simpl. by rewrite N.eqb_refl. Qed.

Lemma trimStart_app (s t : jsstring) :
  spaceRun t = 0 -> trimStart (s ++ t) = trimStart s ++ t.
Proof.
  intros Ht. unfold trimStart. induction s as [|c s IH]; simpl.
  - by rewrite Ht.
  - destruct (isSpace c); [exact IH | done].
Qed.

(** Trimming keeps a head that has no white space at either end. *)
Lemma trim_head (head body : jsstring) :
  spaceRun head = 0 -> spaceRun (reverse head) = 0 -> head <> [] ->
  exists rest, trim ([10]%N ++ head ++ body) = head ++ rest.
Proof.
  intros Hstart Hend Hne. unfold trim.
  assert (trimStart ([10]%N ++ head ++ body) = head ++ body) as ->.
  { unfold trimStart. cbn [app spaceRun isSpace]. cbn.
    destruct head as [|c head]; [done|]. simpl in *.
    destruct (isSpace c); [done|]. done. }
  unfold trimEnd. rewrite reverse_app, trimStart_app by done.
  rewrite reverse_app, reverse_involutive. eauto.
Qed.

Lemma prompt_trimmed settings :
  exists rest, trim (prompt settings) = promptHead ++ rest.
Proof.
  unfold prompt. apply trim_head; [by vm_compute | by vm_compute | done].
Qed.

(** [handleSendMessage] on a prompt with visual instructions, up to the
    call of [streamMessage]. *)
Lemma handleSendMessage_system_prompt st rest now svc :
  appState st <> executing -> files st <> [] ->
  handleSendMessage (promptHead ++ rest) now svc st
  = atSend (setInput [] (setNextTask (S (nextTask st)) st)) (tasks st) (nextTask st)
      (messages st ++ [mkMessage (nextId st) user placeholder false false None])
      (S (nextId st)) [] (AppFiles.filesToSend st) [] now
      (streamMessage svc (promptHead ++ rest) (AppFiles.filesToSend st)) (log st).
Proof.
  intros Hstate Hfiles. unfold handleSendMessage.
  assert (blank (promptHead ++ rest) = false) as -> by done.
  rewrite bool_decide_eq_false_2 by done. cbn [orb].
  assert (includes (js "[STRICT VISUAL INSTRUCTION") (promptHead ++ rest) 0 = true) as ->.
  { unfold includes, indexOf. rewrite drop_0.
    change promptHead with (js "[STRICT VISUAL INSTRUCTION" ++ js ": GENERATE MCQ PDF]").
    rewrite <- (assoc_L (++)).
    destruct (js "[STRICT VISUAL INSTRUCTION" ++ js ": GENERATE MCQ PDF]" ++ rest)
      as [|c s] eqn:Hs; [done|].
    unfold find. rewrite <- Hs, startsWith_prefix. done. }
  destruct st as [fs ms inp state sent cp es ab nid ts nt lg]. cbn [files] in *.
  destruct fs as [|f fs]; [done|]. fields.
  unfold atSend, AppFiles.filesToSend, placeholder. fields.
  by rewrite <- (assoc_L (++)).
Qed.

End CustomPrompt.

(** X26. Whatever the settings of the panel, the prompt built for custom
    MCQs starts, once trimmed, with the line of the visual instruction. So
    it is never blank, the bubble of the user shows the placeholder in its
    place, and the prompt itself goes to the model with the files not yet
    sent; and the panel is closed. *)
Theorem custom_mcq_prompt_is_hidden (settings : QuickActions.MCQSettings)
    (shown : bool) (st : App.State) (now : Z) (svc : GeminiService.Service) :
  App.appState st <> App.executing -> App.files st <> [] ->
  let text := QuickActions.trim (QuickActions.prompt settings) in
  let result := QuickActions.generateCustomMCQ settings now svc (shown, st) in
  startsWith QuickActions.promptHead text = true /\
  blank text = false /\
  result.1 = false /\
  App.messages result.2
  = App.messages st
    ++ [App.mkMessage (App.nextId st) ChatInterface.user QuickActions.placeholder
          false false None;
        App.mkMessage (S (App.nextId st)) ChatInterface.model [] false true None] /\
  App.tasks result.2 !! App.nextTask st
  = Some (App.SendTask (S (App.nextId st)) (AppFiles.filesToSend st) [] now
            (GeminiService.streamMessage svc text (AppFiles.filesToSend st))) /\
  App.appState result.2 = App.planning.
Proof.
  intros Hstate Hfiles text result. subst result. unfold QuickActions.generateCustomMCQ.
  cbn [fst snd]. fold text.
  destruct (prompt_trimmed settings) as [rest Htext]. fold text in Htext.
  clearbody text. subst text.
  rewrite (handleSendMessage_system_prompt st rest now svc Hstate Hfiles).
  unfold App.atSend. cbn [App.messages App.tasks App.appState].
  split; [apply startsWith_prefix|]. split; [done|]. split; [done|].
  split; [by rewrite <- (assoc_L (++))|]. split; [apply lookup_insert_eq | done].
Qed.

(** The settings with which the panel opens. *)
Lemma custom_mcq_prompt_is_hidden_witness :
  let settings := QuickActions.mkSettings (QuickActions.Int 20) []
    (js "text-blue-900") true false false (js "text-lg")
    (js "text-gray-800") (js "bg-transparent") false false (js "stacked") (js "card")
    (js "text-green-600") true true (js "bar")
    (js "text-orange-600") (js "card") true (js "text-sm")
    (js "dashed") (js "space-y-8") (js "Bilingual (Hindi + English)") in
  let file := GeminiService.mkFile (js "a.pdf") (js "JVBERi0xLjQ=") (js "application/pdf") in
  let svc := GeminiService.mkService None
               (fun _ _ => GeminiService.UploadFailed None)
               (fun _ _ => GeminiService.mkStream [js "reply"] None) in
  App.text <$> App.messages
    (QuickActions.generateCustomMCQ settings 0 svc (true, App.initial [file])).2
  = [QuickActions.placeholder; []].
Proof.
  intros settings file svc.
  assert (App.appState (App.initial [file]) <> App.executing) as Hstate by discriminate.
  assert (App.files (App.initial [file]) <> []) as Hfiles by discriminate.
  destruct (custom_mcq_prompt_is_hidden settings true (App.initial [file]) 0 svc
              Hstate Hfiles) as (_ & _ & _ & Hmsgs & _).
  rewrite Hmsgs. reflexivity.
Defined.

(** ** The size shown in the list of files *)

(** X27. The size shown for a file in the list is computed from the same
    estimate as the one that routes the file: from 1 MB on it is the
    estimated size in MB to one decimal, the very number printed in the
    error for a file too large to embed; below, it is the size in KB. *)
Theorem shown_size_is_estimated_size (file : GeminiService.FileData) :
  let shown := FileUpload.getEstimatedSize (length (GeminiService.data file)) in
  ((1 <= GeminiService.sizeMB file)%Q ->
   shown = GeminiService.toFixed1 (GeminiService.sizeMB file) ++ js " MB") /\
  ((GeminiService.sizeMB file < 1)%Q ->
   shown = GeminiService.toFixed1
             ((inject_Z (Z.of_nat (length (GeminiService.data file))) * (3 # 4))
              / inject_Z 1024) ++ js " KB").
Proof.
  intros shown. subst shown. unfold FileUpload.getEstimatedSize, GeminiService.sizeMB.
  cbn zeta.
  set (bytes := (inject_Z (Z.of_nat (length (GeminiService.data file))) * (3 # 4))%Q).
  assert ((1 <= bytes / inject_Z (1024 * 1024))%Q
          <-> (inject_Z (1024 * 1024) <= bytes)%Q) as Hiff.
  { split; intros H.
    - apply (Qmult_le_compat_r _ _ (inject_Z (1024 * 1024))) in H; [|done].
      rewrite Qmult_1_l, (Qmult_comm (bytes / _)), Qmult_div_r in H; [exact H | done].
    - apply Qle_shift_div_l; [done|]. by rewrite Qmult_1_l. }
  split.
  - intros H%Hiff. apply Qle_bool_iff in H. by rewrite H.
  - intros H. destruct (Qle_bool (inject_Z (1024 * 1024)) bytes) eqn:E; [|done].
    apply Qle_bool_iff, Hiff in E. by apply Qle_not_lt in E.
Qed.

Lemma shown_size_is_estimated_size_witness :
  let file := GeminiService.mkFile (js "a.pdf") (js "JVBERi0xLjQ=") (js "application/pdf") in
  FileUpload.getEstimatedSize (length (GeminiService.data file))
  = GeminiService.toFixed1
      ((inject_Z (Z.of_nat (length (GeminiService.data file))) * (3 # 4))
       / inject_Z 1024) ++ js " KB".
Proof.
  intros file.
  assert ((GeminiService.sizeMB file < 1)%Q) as Hsmall by (vm_compute; reflexivity).
  exact (proj2 (shown_size_is_estimated_size file) Hsmall).
Defined.
